(** * Silero VAD segmentation engine: a shallow embedding of [silero_vad.c]

    The repository carries the engine twice: an older monolithic
    [silero_vad.c] (with its own [main]) and the library version behind
    [silero_vad.h].  The per-window state machine ([vad_predict], part
    "5. Logic") and the state reset are textually the same in both; the
    two differ in [vad_iterator_init] and in the entry guard of
    [vad_iterator_process].  The shared part is embedded once, the parts
    that differ live in the modules [Legacy] and [Lib].

    Machine integers are [Z] with their wrap-around written out: [int] is
    32-bit two's complement, [unsigned int] is 32-bit, [size_t] is 64-bit.
    [float] is IEEE binary32, taken from the standard library's
    [SpecFloat] at precision 24 and exponent bound 128. *)

From Stdlib Require Import ZArith List Bool Lia String Ascii Sorting.Sorted.
From Stdlib Require Import Floats.SpecFloat.
Import ListNotations.

#[local] Open Scope Z_scope.

(** ** Machine integers *)

Definition INT_MAX : Z := 2147483647.
Definition INT_MIN : Z := -2147483648.
Definition SIZE_MAX : Z := 18446744073709551615.

(** Conversion to [unsigned int]: reduction modulo 2^32. *)
Definition to_uint (z : Z) : Z := z mod 4294967296.

(** Conversion to [int]: the two's complement reading of the low 32 bits. *)
Definition to_int (z : Z) : Z := (z + 2147483648) mod 4294967296 - 2147483648.

(** Conversion to [size_t]: reduction modulo 2^64. *)
Definition to_size (z : Z) : Z := z mod 18446744073709551616.

(** [unsigned - x] and [unsigned + x]: [x] is converted to [unsigned int]
    and the operation wraps. *)
Definition uint_add (a b : Z) : Z := to_uint (a + to_uint b).
Definition uint_sub (a b : Z) : Z := to_uint (a - to_uint b).

(** [int] arithmetic, wrapping. *)
Definition int_sub (a b : Z) : Z := to_int (a - b).
Definition int_mul (a b : Z) : Z := to_int (a * b).

(** [size_t + int]: the [int] is converted to [size_t] first. *)
Definition size_add (j w : Z) : Z := to_size (j + to_size w).

(** ** binary32 *)

Definition float := spec_float.

Definition f32_prec : Z := 24.
Definition f32_emax : Z := 128.

Definition f32_of_int (z : Z) : float := binary_normalize f32_prec f32_emax z 0 false.
Definition f32_sub (a b : float) : float := SFsub f32_prec f32_emax a b.
Definition f32_mul (a b : float) : float := SFmul f32_prec f32_emax a b.

(** The C comparisons [a >= b], [a > b], [a < b] on floats; each is false
    as soon as one side is a NaN. *)
Definition f32_ge (a b : float) : bool := SFleb b a.
Definition f32_gt (a b : float) : bool := SFltb b a.
Definition f32_lt (a b : float) : bool := SFltb a b.

(** The literal [0.15f], bit pattern 0x3E19999A. *)
Definition f32_0_15 : float := S754_finite false 10066330 (-26).

Definition f32_zero : float := S754_zero false.
Definition f32_one : float := S754_finite false 8388608 (-23).
Definition f32_infinity : float := S754_infinity false.

(** A probability as the classifier contract promises it: [0 <= p <= 1]. *)
Definition is_prob (p : float) : bool := f32_ge p f32_zero && f32_ge f32_one p.

(** ** Data structures *)

Record timestamp_t := mk_timestamp {
  start : Z;
  end_ : Z
}.

(** The fields of [vad_iterator_t] the segmentation logic reads or writes.
    The ONNX handles and the sample buffers belong to the external
    classifier and are left out; [speeches] is the growable vector, a list
    pushed at its tail. *)
Record vad_iterator_t := mk_vad {
  sample_rate : Z;
  sr_per_ms : Z;
  window_size_samples : Z;
  effective_window_size : Z;
  context_samples : Z;
  size_state : Z;
  threshold : float;
  min_silence_samples : Z;
  min_silence_samples_at_max_speech : Z;
  min_speech_samples : Z;
  max_speech_samples : float;
  speech_pad_samples : Z;
  triggered : bool;
  temp_end : Z;
  current_sample : Z;
  prev_end : Z;
  next_start : Z;
  current_speech : timestamp_t;
  speeches : list timestamp_t
}.

Definition set_triggered (vad : vad_iterator_t) (b : bool) : vad_iterator_t :=
  match vad with
  | mk_vad sr spm w ews ctx szs thr msil msilmax mspeech maxsp pad trg te cs
    pe ns sp segs =>
    mk_vad sr spm w ews ctx szs thr msil msilmax mspeech maxsp pad b te cs pe
      ns sp segs
  end.

Definition set_temp_end (vad : vad_iterator_t) (z : Z) : vad_iterator_t :=
  match vad with
  | mk_vad sr spm w ews ctx szs thr msil msilmax mspeech maxsp pad trg te cs
    pe ns sp segs =>
    mk_vad sr spm w ews ctx szs thr msil msilmax mspeech maxsp pad trg z cs
      pe ns sp segs
  end.

Definition set_current_sample (vad : vad_iterator_t) (z : Z) : vad_iterator_t :=
  match vad with
  | mk_vad sr spm w ews ctx szs thr msil msilmax mspeech maxsp pad trg te cs
    pe ns sp segs =>
    mk_vad sr spm w ews ctx szs thr msil msilmax mspeech maxsp pad trg te z
      pe ns sp segs
  end.

Definition set_prev_end (vad : vad_iterator_t) (z : Z) : vad_iterator_t :=
  match vad with
  | mk_vad sr spm w ews ctx szs thr msil msilmax mspeech maxsp pad trg te cs
    pe ns sp segs =>
    mk_vad sr spm w ews ctx szs thr msil msilmax mspeech maxsp pad trg te cs
      z ns sp segs
  end.

Definition set_next_start (vad : vad_iterator_t) (z : Z) : vad_iterator_t :=
  match vad with
  | mk_vad sr spm w ews ctx szs thr msil msilmax mspeech maxsp pad trg te cs
    pe ns sp segs =>
    mk_vad sr spm w ews ctx szs thr msil msilmax mspeech maxsp pad trg te cs
      pe z sp segs
  end.

Definition set_current_speech (vad : vad_iterator_t) (ts : timestamp_t) : vad_iterator_t :=
  match vad with
  | mk_vad sr spm w ews ctx szs thr msil msilmax mspeech maxsp pad trg te cs
    pe ns sp segs =>
    mk_vad sr spm w ews ctx szs thr msil msilmax mspeech maxsp pad trg te cs
      pe ns ts segs
  end.

Definition set_speeches (vad : vad_iterator_t) (l : list timestamp_t) : vad_iterator_t :=
  match vad with
  | mk_vad sr spm w ews ctx szs thr msil msilmax mspeech maxsp pad trg te cs
    pe ns sp segs =>
    mk_vad sr spm w ews ctx szs thr msil msilmax mspeech maxsp pad trg te cs
      pe ns sp l
  end.

Definition set_speech_pad_samples (vad : vad_iterator_t) (z : Z) : vad_iterator_t :=
  match vad with
  | mk_vad sr spm w ews ctx szs thr msil msilmax mspeech maxsp pad trg te cs
    pe ns sp segs =>
    mk_vad sr spm w ews ctx szs thr msil msilmax mspeech maxsp z trg te cs pe
      ns sp segs
  end.

(** [current_speech.start = z] and [current_speech.end = z]. *)
Definition set_speech_start (vad : vad_iterator_t) (z : Z) : vad_iterator_t :=
  match current_speech vad with
  | mk_timestamp _ e => set_current_speech vad (mk_timestamp z e)
  end.

Definition set_speech_end (vad : vad_iterator_t) (z : Z) : vad_iterator_t :=
  match current_speech vad with
  | mk_timestamp s _ => set_current_speech vad (mk_timestamp s z)
  end.

(** The sentinel [(timestamp_t){-1, -1}]. *)
Definition no_speech : timestamp_t := mk_timestamp (-1) (-1).

(** [vec_push(&vad->speeches, ts)]; [vec_clear]. *)
Definition vec_push (vad : vad_iterator_t) (ts : timestamp_t) : vad_iterator_t :=
  match vad with
  | mk_vad sr spm w ews ctx szs thr msil msilmax mspeech maxsp pad trg te cs pe
      ns sp segs =>
    mk_vad sr spm w ews ctx szs thr msil msilmax mspeech maxsp pad trg te cs pe
      ns sp (segs ++ [ts])
  end.

Definition vec_clear (vad : vad_iterator_t) : vad_iterator_t :=
  set_speeches vad [].

(** ** [vad_iterator_reset_states] *)

Definition vad_iterator_reset_states (vad : vad_iterator_t) : vad_iterator_t :=
  let vad := set_triggered vad false in
  let vad := set_temp_end vad 0 in
  let vad := set_current_sample vad 0 in
  let vad := set_prev_end vad 0 in
  let vad := set_next_start vad 0 in
  let vad := vec_clear vad in
  set_current_speech vad no_speech.

(** The tail shared by three of the four closing paths:
    [current_speech = {-1,-1}; prev_end = 0; next_start = 0; temp_end = 0;
     triggered = false]. *)
Definition clear_markers (vad : vad_iterator_t) : vad_iterator_t :=
  let vad := set_current_speech vad no_speech in
  let vad := set_prev_end vad 0 in
  let vad := set_next_start vad 0 in
  let vad := set_temp_end vad 0 in
  set_triggered vad false.

(** ** [vad_predict], part "5. Logic"

    Parts 1 to 4 of [vad_predict] assemble the input, run the ONNX session
    and read [output_data[0]]; that is the external classifier, and its
    answer is the argument [speech_prob].  The context refresh at the end
    of each branch touches only the sample buffers. *)

Definition vad_predict (vad : vad_iterator_t) (speech_prob : float) : vad_iterator_t :=
  let vad := set_current_sample vad
               (uint_add (current_sample vad) (window_size_samples vad)) in
  if f32_ge speech_prob (threshold vad) then
    let vad :=
      if negb (temp_end vad =? 0) then
        let vad := set_temp_end vad 0 in
        if next_start vad <? prev_end vad then
          set_next_start vad
            (to_int (uint_sub (current_sample vad) (window_size_samples vad)))
        else vad
      else vad in
    if negb (triggered vad) then
      let vad := set_triggered vad true in
      set_speech_start vad
        (to_int (uint_sub (current_sample vad) (window_size_samples vad)))
    else vad
  else if triggered vad
          && f32_gt (f32_of_int (to_int (uint_sub (current_sample vad)
                                                  (start (current_speech vad)))))
                    (max_speech_samples vad) then
    if prev_end vad >? 0 then
      let vad := set_speech_end vad (prev_end vad) in
      let vad := vec_push vad (current_speech vad) in
      let vad := set_current_speech vad no_speech in
      let vad :=
        if next_start vad <? prev_end vad then set_triggered vad false
        else set_speech_start vad (next_start vad) in
      let vad := set_prev_end vad 0 in
      let vad := set_next_start vad 0 in
      set_temp_end vad 0
    else
      let vad := set_speech_end vad (to_int (current_sample vad)) in
      let vad := vec_push vad (current_speech vad) in
      clear_markers vad
  else if f32_ge speech_prob (f32_sub (threshold vad) f32_0_15)
          && f32_lt speech_prob (threshold vad) then
    vad
  else if f32_lt speech_prob (f32_sub (threshold vad) f32_0_15) then
    if triggered vad then
      let vad :=
        if temp_end vad =? 0 then set_temp_end vad (current_sample vad)
        else vad in
      let vad :=
        if to_int (uint_sub (current_sample vad) (temp_end vad))
           >? min_silence_samples_at_max_speech vad
        then set_prev_end vad (to_int (temp_end vad))
        else vad in
      if to_int (uint_sub (current_sample vad) (temp_end vad))
         >=? min_silence_samples vad then
        let vad := set_speech_end vad (to_int (temp_end vad)) in
        if int_sub (end_ (current_speech vad)) (start (current_speech vad))
           >? min_speech_samples vad then
          let vad := vec_push vad (current_speech vad) in
          clear_markers vad
        else vad
      else vad
    else vad
  else vad.

(** ** The driving loop and the end-of-stream flush

    The external classifier is an oracle: [speech_prob k] is the value the
    ONNX session returns in [output_data[0]] on the [k]-th call of
    [vad_predict] (counted from 0) within one [vad_iterator_process] run. *)

Section DrivingLoop.

Variable speech_prob : Z -> float.

(** [for (size_t j = 0; j < audio_length_samples; j += window_size_samples)
      { if (j + window_size_samples > audio_length_samples) break;
        vad_predict(vad, &input_wav[j]); }]
    entered at offset [j] with [k] calls already made.  [None] means the
    loop is still running when the fuel is used up. *)
Fixpoint process_loop (fuel : nat) (vad : vad_iterator_t)
         (audio_length_samples j k : Z) : option vad_iterator_t :=
  match fuel with
  | O => None
  | S fuel' =>
    if j <? audio_length_samples then
      if size_add j (window_size_samples vad) >? audio_length_samples
      then Some vad
      else process_loop fuel' (vad_predict vad (speech_prob k))
             audio_length_samples (size_add j (window_size_samples vad)) (k + 1)
    else Some vad
  end.

(** The block after the loop. *)
Definition end_of_stream_flush (vad : vad_iterator_t)
           (audio_length_samples : Z) : vad_iterator_t :=
  if start (current_speech vad) >=? 0 then
    let vad := set_speech_end vad (to_int audio_length_samples) in
    let vad := vec_push vad (current_speech vad) in
    clear_markers vad
  else vad.

(** The body of [vad_iterator_process] from the reset on. *)
Definition process_from_reset (fuel : nat) (vad : vad_iterator_t)
           (audio_length_samples : Z) : option vad_iterator_t :=
  let vad := vad_iterator_reset_states vad in
  match process_loop fuel vad audio_length_samples 0 0 with
  | Some vad => Some (end_of_stream_flush vad audio_length_samples)
  | None => None
  end.

(** The engine after [n] successive calls of [vad_predict], the first of
    them being call number [k]. *)
Fixpoint predict_n (vad : vad_iterator_t) (k : Z) (n : nat) : vad_iterator_t :=
  match n with
  | O => vad
  | S n' => predict_n (vad_predict vad (speech_prob k)) (k + 1) n'
  end.

End DrivingLoop.

(** The offsets [j] at which the loop above reaches its body, in order: the
    same loop with the call of [vad_predict] replaced by a record of [j]. *)
Fixpoint window_offsets (fuel : nat) (w audio_length_samples j : Z)
  : option (list Z) :=
  match fuel with
  | O => None
  | S fuel' =>
    if j <? audio_length_samples then
      if size_add j w >? audio_length_samples then Some []
      else match window_offsets fuel' w audio_length_samples (size_add j w) with
           | Some l => Some (j :: l)
           | None => None
           end
    else Some []
  end.

(** ** The older, monolithic [silero_vad.c] *)

Module Legacy.

(** [vad_iterator_init]: no validation of the arguments, a fixed context
    of 64 samples.  The ONNX set-up either succeeds or exits the process;
    the embedding is the succeeding run. *)
Definition vad_iterator_init (sample_rate window_frame_size_ms : Z)
           (threshold : float) (min_silence_ms speech_pad_ms min_speech_ms : Z)
           (max_speech_s : float) : option vad_iterator_t :=
  let sr_per_ms := Z.quot sample_rate 1000 in
  let window_size_samples := int_mul window_frame_size_ms sr_per_ms in
  let context_samples := 64 in
  let speech_pad_samples := int_mul sr_per_ms speech_pad_ms in
  Some {|
    sample_rate := sample_rate;
    sr_per_ms := sr_per_ms;
    window_size_samples := window_size_samples;
    effective_window_size := to_int (window_size_samples + context_samples);
    context_samples := context_samples;
    size_state := 2 * 1 * 128;
    threshold := threshold;
    min_silence_samples := int_mul sr_per_ms min_silence_ms;
    min_silence_samples_at_max_speech := int_mul sr_per_ms 98;
    min_speech_samples := int_mul sr_per_ms min_speech_ms;
    max_speech_samples :=
      f32_sub (f32_sub (f32_mul (f32_of_int sample_rate) max_speech_s)
                       (f32_of_int window_size_samples))
              (f32_of_int (int_mul 2 speech_pad_samples));
    speech_pad_samples := speech_pad_samples;
    triggered := false;
    temp_end := 0;
    current_sample := 0;
    prev_end := 0;
    next_start := 0;
    current_speech := no_speech;
    speeches := []
  |}.

(** [vad_iterator_process]: reset, loop, flush; no entry guard. *)
Definition vad_iterator_process (speech_prob : Z -> float) (fuel : nat)
           (vad : vad_iterator_t) (audio_length_samples : Z)
  : option vad_iterator_t :=
  process_from_reset speech_prob fuel vad audio_length_samples.

End Legacy.

(** ** The library version, [silero_vad.h] *)

Module Lib.

(** [strstr(path, "16k") != nullptr] *)
Definition is_16k_model (path : string) : bool :=
  match String.index 0 "16k" path with
  | Some _ => true
  | None => false
  end.

(** [calloc(nmemb, size)] with [nmemb] converted to [size_t]: a request
    whose byte count does not fit [size_t] fails, as it does for every
    negative [int] count; every other request is taken to succeed. *)
Definition calloc_ok (nmemb size : Z) : bool :=
  to_size nmemb * size <=? SIZE_MAX.

(** [vad_iterator_init]: [None] is a [return false], of the sample-rate
    validation or of the test of the four buffers.  The ONNX set-up either
    succeeds or exits the process, and [create_ort_path] returns null only
    for lack of memory; the embedding is the run in which both succeed. *)
Definition vad_iterator_init (model_path : string)
           (sample_rate window_frame_size_ms : Z)
           (threshold : float) (min_silence_ms speech_pad_ms min_speech_ms : Z)
           (max_speech_s : float) : option vad_iterator_t :=
  let model_is_16k_only := is_16k_model model_path in
  if model_is_16k_only && negb (sample_rate =? 16000) then None
  else if negb model_is_16k_only && negb (sample_rate =? 16000)
          && negb (sample_rate =? 8000) then None
  else
    let context_samples := if sample_rate =? 16000 then 64 else 32 in
    let sr_per_ms := Z.quot sample_rate 1000 in
    let window_size_samples := int_mul window_frame_size_ms sr_per_ms in
    let effective_window_size := to_int (window_size_samples + context_samples) in
    let size_state := 2 * 1 * 128 in
    let speech_pad_samples := int_mul sr_per_ms speech_pad_ms in
    if negb (calloc_ok context_samples 4 && calloc_ok size_state 4
             && calloc_ok 1 8 && calloc_ok effective_window_size 4) then None
    else
    Some {|
      sample_rate := sample_rate;
      sr_per_ms := sr_per_ms;
      window_size_samples := window_size_samples;
      effective_window_size := effective_window_size;
      context_samples := context_samples;
      size_state := size_state;
      threshold := threshold;
      min_silence_samples := int_mul sr_per_ms min_silence_ms;
      min_silence_samples_at_max_speech := int_mul sr_per_ms 98;
      min_speech_samples := int_mul sr_per_ms min_speech_ms;
      max_speech_samples :=
        f32_sub (f32_sub (f32_mul (f32_of_int sample_rate) max_speech_s)
                         (f32_of_int window_size_samples))
                (f32_of_int (int_mul 2 speech_pad_samples));
      speech_pad_samples := speech_pad_samples;
      triggered := false;
      temp_end := 0;
      current_sample := 0;
      prev_end := 0;
      next_start := 0;
      current_speech := no_speech;
      speeches := []
    |}.

(** [vad_iterator_process]: a zero window size returns at once, before
    the reset. *)
Definition vad_iterator_process (speech_prob : Z -> float) (fuel : nat)
           (vad : vad_iterator_t) (audio_length_samples : Z)
  : option vad_iterator_t :=
  if window_size_samples vad =? 0 then Some vad
  else process_from_reset speech_prob fuel vad audio_length_samples.

End Lib.

(** ** Sample configurations and probability streams *)

Definition f32_0_5 : float := S754_finite false 8388608 (-24).
Definition f32_0_9 : float := S754_finite false 15099494 (-24).
Definition f32_0_1 : float := S754_finite false 13421773 (-27).
Definition f32_0_4 : float := S754_finite false 13421773 (-25).

(** The classifier answering with the elements of [l], then with 0. *)
Definition probs_of_list (l : list float) : Z -> float :=
  fun k => nth (Z.to_nat k) l f32_zero.

(** The configuration of both [main]s: 16 kHz, 32 ms windows, threshold 0.5,
    100 ms silence, 30 ms padding, 250 ms minimum speech, no duration cap. *)
Definition default_vad : vad_iterator_t :=
  match Lib.vad_iterator_init "silero_vad.onnx" 16000 32 f32_0_5 100 30 250
          f32_infinity with
  | Some vad => vad
  | None => mk_vad 0 0 0 0 0 0 f32_zero 0 0 0 f32_zero 0 false 0 0 0 0 no_speech []
  end.

(** The same with a duration cap of one second. *)
Definition capped_vad : vad_iterator_t :=
  match Lib.vad_iterator_init "silero_vad.onnx" 16000 32 f32_0_5 100 30 250
          f32_one with
  | Some vad => vad
  | None => default_vad
  end.

Definition segments_of (r : option vad_iterator_t) : list (Z * Z) :=
  match r with
  | Some vad => map (fun ts => (start ts, end_ ts)) (speeches vad)
  | None => []
  end.

(** [vad_iterator_init] followed by [vad_iterator_process], as in [main]. *)
Definition init_and_process (model_path : string)
           (sample_rate window_frame_size_ms : Z) (threshold : float)
           (min_silence_ms speech_pad_ms min_speech_ms : Z) (max_speech_s : float)
           (speech_prob : Z -> float) (fuel : nat) (audio_length_samples : Z)
  : option vad_iterator_t :=
  match Lib.vad_iterator_init model_path sample_rate window_frame_size_ms
          threshold min_silence_ms speech_pad_ms min_speech_ms max_speech_s with
  | Some vad => Lib.vad_iterator_process speech_prob fuel vad audio_length_samples
  | None => None
  end.

(** The older engine set up with [window_frame_size_ms = 0]. *)
Definition legacy_zero_window : vad_iterator_t :=
  match Legacy.vad_iterator_init 16000 0 f32_0_5 100 30 250 f32_infinity with
  | Some vad => vad
  | None => default_vad
  end.

(** Classifier streams used below. *)
Definition always_speech : Z -> float := fun _ => f32_0_9.

(** Silence for the first 2^22 windows (2^31 samples at 512 per window),
    speech from then on. *)
Definition speech_after_int_max : Z -> float :=
  fun k => if k <? 4194304 then f32_0_1 else f32_0_9.

(** Silence for 2^22 windows, ten windows of speech, silence again. *)
Definition burst_after_int_max : Z -> float :=
  fun k => if k <? 4194304 then f32_0_1
           else if k <? 4194314 then f32_0_9 else f32_0_1.

(** Ten windows of speech, then silence. *)
Definition speech_then_silence : Z -> float :=
  probs_of_list (repeat f32_0_9 10).

(** One window of speech, then silence. *)
Definition blip : Z -> float := probs_of_list [f32_0_9].

Definition no_segment (vad : vad_iterator_t) : bool :=
  match speeches vad with
  | [] => true
  | _ :: _ => false
  end.

(** ** Predicates of the specification *)

(** A well-formed segment for window size [w]. *)
Definition segment_ok (w : Z) (ts : timestamp_t) : Prop :=
  0 <= start ts /\ start ts < end_ ts /\ (w | start ts).

(** [a] ends before [b] starts: the two half-open intervals are disjoint
    and in order. *)
Definition precedes (a b : timestamp_t) : Prop := end_ a <= start b.

(** The invariant of the engine between two calls of [vad_predict], for a
    run over [L] samples with windows of [w] samples, as long as every
    sample index fits an [int]. *)
Definition engine_inv (w L : Z) (vad : vad_iterator_t) : Prop :=
  let cs := current_sample vad in
  let s := start (current_speech vad) in
  window_size_samples vad = w /\
  0 <= cs <= L /\ (w | cs) /\
  (triggered vad = true <-> 0 <= s) /\
  (triggered vad = true -> (w | s) /\ s + w <= cs) /\
  0 <= temp_end vad <= cs /\
  (temp_end vad <> 0 -> triggered vad = true /\ s < temp_end vad) /\
  0 <= prev_end vad <= cs /\
  (0 < prev_end vad -> triggered vad = true /\ s < prev_end vad) /\
  0 <= next_start vad /\ (w | next_start vad) /\
  (next_start vad = 0 \/ next_start vad + w <= cs) /\
  Forall (segment_ok w) (speeches vad) /\
  StronglySorted precedes (speeches vad) /\
  Forall (fun ts => end_ ts <= (if triggered vad then s else cs)) (speeches vad).

(** The engine in the middle of an uninterrupted speech run that began at
    sample 0: a candidate open at 0, no marker set, nothing emitted. *)
Definition speaking (vad : vad_iterator_t) (cs : Z) : vad_iterator_t :=
  set_current_sample
    (set_speech_start (set_triggered (vad_iterator_reset_states vad) true) 0) cs.

(** The window offsets [0, w, 2w, ...], [n] of them. *)
Definition full_window_offsets (w : Z) (n : nat) : list Z :=
  map (fun i => Z.of_nat i * w) (seq 0 n).

(** A float that is neither a NaN nor an infinity. *)
Definition f32_is_finite (x : float) : bool :=
  match x with
  | S754_zero _ | S754_finite _ _ _ => true
  | _ => false
  end.

(** ** Further predicates on segment lists *)

(** [a] ends at least [gap] samples before [b] starts. *)
Definition separated (gap : Z) (a b : timestamp_t) : Prop :=
  end_ a + gap <= start b.

(** A segment longer than [m] samples. *)
Definition longer_than (m : Z) (ts : timestamp_t) : Prop :=
  end_ ts - start ts > m.

(** The invariant of an engine without duration cap
    ([max_speech_samples] infinite), on top of [engine_inv]: every segment
    emitted so far is longer than [min_speech_samples], and each one ends at
    least [min_silence_samples] before whatever comes next. *)
Definition no_cap_inv (w L : Z) (vad : vad_iterator_t) : Prop :=
  engine_inv w L vad /\
  max_speech_samples vad = f32_infinity /\
  Forall (longer_than (min_speech_samples vad)) (speeches vad) /\
  StronglySorted (separated (min_silence_samples vad)) (speeches vad) /\
  Forall (fun ts => end_ ts + min_silence_samples vad
                    <= (if triggered vad then start (current_speech vad)
                        else current_sample vad)) (speeches vad).

(** An engine with no candidate and no marker. *)
Definition idle (vad : vad_iterator_t) : Prop :=
  current_speech vad = no_speech /\ temp_end vad = 0 /\ prev_end vad = 0 /\
  next_start vad = 0.

(** ** The growable vector of segments, [timestamp_vector_t]

    The engine above keeps [speeches] as a list.  Here is the vector as the
    source has it: a block of slots, a size and a capacity.  [data] lists the
    slots of the block ([[]] for [nullptr]); the allocator is an oracle that
    grants or refuses a number of bytes, and the slots a granted block does
    not inherit hold [junk]. *)

Module Vec.

Record timestamp_vector_t := mk_vec {
  data : list timestamp_t;
  size : Z;
  capacity : Z
}.

(** How a call ends: it returns, it ends the process with
    [exit(EXIT_FAILURE)], or it writes outside its block. *)
Inductive outcome : Type :=
| Done (vec : timestamp_vector_t)
| Exit
| Undefined.

(** [sizeof(timestamp_t)] *)
Definition sizeof_timestamp : Z := 8.

Section Allocator.

Variable realloc_ok : Z -> bool.
Variable junk : timestamp_t.

(** The block [realloc] returns for [slots] slots: the old slots it has room
    for, then fresh ones. *)
Definition realloc (block : list timestamp_t) (slots : Z) : list timestamp_t :=
  firstn (Z.to_nat slots) block
  ++ repeat junk (Z.to_nat slots - List.length block).

(** [block[i] = ts] *)
Fixpoint store (block : list timestamp_t) (i : nat) (ts : timestamp_t)
  : list timestamp_t :=
  match block, i with
  | [], _ => []
  | _ :: rest, O => ts :: rest
  | x :: rest, S i' => x :: store rest i' ts
  end.

Definition vec_init : timestamp_vector_t := mk_vec [] 0 0.

Definition vec_push (vec : timestamp_vector_t) (ts : timestamp_t) : outcome :=
  let grown :=
    if size vec >=? capacity vec then
      let new_cap :=
        if capacity vec =? 0 then 8 else to_size (capacity vec * 2) in
      let bytes := to_size (new_cap * sizeof_timestamp) in
      if realloc_ok bytes then
        Some (mk_vec (realloc (data vec) (bytes / sizeof_timestamp))
                     (size vec) new_cap)
      else None
    else Some vec in
  match grown with
  | None => Exit
  | Some vec =>
    if (0 <=? size vec) && (size vec <? Z.of_nat (List.length (data vec))) then
      Done (mk_vec (store (data vec) (Z.to_nat (size vec)) ts)
                   (to_size (size vec + 1)) (capacity vec))
    else Undefined
  end.

Definition vec_clear (vec : timestamp_vector_t) : timestamp_vector_t :=
  mk_vec (data vec) 0 (capacity vec).

(** [free(vec->data); vec_init(vec)] *)
Definition vec_free (vec : timestamp_vector_t) : timestamp_vector_t := vec_init.

(** Pushing the elements of a list one after the other. *)
Fixpoint push_all (vec : timestamp_vector_t) (l : list timestamp_t) : outcome :=
  match l with
  | [] => Done vec
  | ts :: rest =>
    match vec_push vec ts with
    | Done vec' => push_all vec' rest
    | Exit => Exit
    | Undefined => Undefined
    end
  end.

End Allocator.

(** The segments the vector holds: its first [size] slots. *)
Definition contents (vec : timestamp_vector_t) : list timestamp_t :=
  firstn (Z.to_nat (size vec)) (data vec).

(** A vector in good order: the block has [capacity] slots, [size] of them
    in use, and doubling the capacity does not overflow [size_t]. *)
Definition vec_ok (vec : timestamp_vector_t) : Prop :=
  0 <= size vec <= capacity vec /\
  Z.of_nat (List.length (data vec)) = capacity vec /\
  capacity vec <= 1152921504606846976.

(** The capacities [vec_push] produces from the empty vector. *)
Definition doubled (vec : timestamp_vector_t) : Prop :=
  (size vec = 0 /\ capacity vec = 0) \/
  (1 <= size vec /\ exists k, 0 <= k /\ capacity vec = 8 * 2 ^ k /\
   (capacity vec = 8 \/ capacity vec < 2 * size vec)).

End Vec.

(** ** [wav.c]: the WAV reader and writer

    A file is the list of its bytes, each a [Z] from 0 to 255.  [fopen],
    [fwrite] and [calloc] are taken to succeed; [fread] delivers the bytes
    that are there, and a seek behind the end of the file succeeds as it
    does in C, the read after it failing.  Conversions to a narrower
    integer keep the low bits.  The rounding functions [lrintf] and
    [llrintf] of the C library are parameters of the writer.  The fields
    of [wav_reader_t] and [wav_writer_t] carry the prefixes [r_] and [w_],
    since the three structs share field names. *)

Module Wav.

Definition UINT32_MAX : Z := 4294967295.
Definition UINT16_MAX : Z := 65535.

Definition to_u16 (z : Z) : Z := z mod 65536.
Definition to_i16 (z : Z) : Z := (z + 32768) mod 65536 - 32768.

(** The [n] bytes of [z], least significant first, and the value of a list
    of bytes read that way. *)
Fixpoint le_bytes (n : nat) (z : Z) : list Z :=
  match n with
  | O => []
  | S n' => z mod 256 :: le_bytes n' (z / 256)
  end.

Fixpoint le_value (l : list Z) : Z :=
  match l with
  | [] => 0
  | b :: rest => b + 256 * le_value rest
  end.

(** [wav_header_t], 44 bytes. *)
Record wav_header_t := mk_header {
  riff : list Z;
  size : Z;
  wav : list Z;
  fmt : list Z;
  fmt_size : Z;
  format : Z;
  channels : Z;
  sample_rate : Z;
  bytes_per_second : Z;
  block_size : Z;
  bit : Z;
  data : list Z;
  data_size : Z
}.

(** The header as it lies in memory and in the file. *)
Definition header_bytes (h : wav_header_t) : list Z :=
  firstn 4 (riff h) ++ le_bytes 4 (size h) ++ firstn 4 (wav h)
  ++ firstn 4 (fmt h) ++ le_bytes 4 (fmt_size h) ++ le_bytes 2 (format h)
  ++ le_bytes 2 (channels h) ++ le_bytes 4 (sample_rate h)
  ++ le_bytes 4 (bytes_per_second h) ++ le_bytes 2 (block_size h)
  ++ le_bytes 2 (bit h) ++ firstn 4 (data h) ++ le_bytes 4 (data_size h).

(** A list of bytes. *)
Definition bytes_ok (l : list Z) : Prop := Forall (fun b => 0 <= b < 256) l.

(** The bytes [off .. off + n - 1] of a list. *)
Definition slice (l : list Z) (off n : nat) : list Z := firstn n (skipn off l).

Definition header_of_bytes (b : list Z) : wav_header_t :=
  mk_header (slice b 0 4) (le_value (slice b 4 4)) (slice b 8 4)
    (slice b 12 4) (le_value (slice b 16 4)) (le_value (slice b 20 2))
    (le_value (slice b 22 2)) (le_value (slice b 24 4))
    (le_value (slice b 28 4)) (le_value (slice b 32 2))
    (le_value (slice b 34 2)) (slice b 36 4) (le_value (slice b 40 4)).

(** [wav_header_template]: "RIFF", "WAVE", "fmt ", a 16-byte format chunk of
    format 1, "data". *)
Definition wav_header_template : wav_header_t :=
  mk_header [82; 73; 70; 70] 0 [87; 65; 86; 69] [102; 109; 116; 32]
    16 1 0 0 0 0 0 [100; 97; 116; 97] 0.

(** *** Floats *)

Definition f32_add (a b : float) : float := SFadd f32_prec f32_emax a b.
Definition f32_div (a b : float) : float := SFdiv f32_prec f32_emax a b.
Definition f32_minus_one : float := S754_finite true 8388608 (-23).
(** [127.5f], [32767.0f], [1.0f / 127.5f], [1.0f / 32768.0f],
    [1.0f / 2147483648.0f] *)
Definition f32_127_5 : float := S754_finite false 16711680 (-17).
Definition f32_32767 : float := S754_finite false 16776704 (-9).
Definition inv_scale_8 : float := f32_div f32_one f32_127_5.
Definition inv_scale_16 : float := S754_finite false 8388608 (-38).
Definition inv_scale_32 : float := S754_finite false 8388608 (-54).

(** [double]: binary64.  A [float] converts to [double] unchanged; a
    [double] passed to a [float] parameter is rounded to binary32. *)
Definition f64_mul (a b : float) : float := SFmul 53 1024 a b.

Definition f32_of_double (x : float) : float :=
  match x with
  | S754_finite s m e =>
    binary_normalize f32_prec f32_emax (if s then Zneg m else Zpos m) e s
  | _ => x
  end.
(** [2147483647.0] *)
Definition f64_2147483647 : float :=
  S754_finite false 9007199250546688 (-22).

(** The float with bit pattern [x]. *)
Definition f32_of_bits (x : Z) : float :=
  let s := Z.testbit x 31 in
  let e := (x / 8388608) mod 256 in
  let m := x mod 8388608 in
  if e =? 0 then
    if m =? 0 then S754_zero s else S754_finite s (Z.to_pos m) (-149)
  else if e =? 255 then
    if m =? 0 then S754_infinity s else S754_nan
  else S754_finite s (Z.to_pos (m + 8388608)) (e - 150).

Definition clamp_sample (v : float) : float :=
  if f32_gt v f32_one then f32_one
  else if f32_lt v f32_minus_one then f32_minus_one
  else v.

(** *** Checked arithmetic on [size_t] *)

(** [ckd_mul] and [ckd_add]: [None] when the exact result does not fit. *)
Definition ckd_mul (a b : Z) : option Z :=
  if a * b <=? SIZE_MAX then Some (a * b) else None.

Definition ckd_add (a b : Z) : option Z :=
  if a + b <=? SIZE_MAX then Some (a + b) else None.

(** *** The writer *)

Record wav_writer_t := mk_writer {
  w_data : list float;
  w_num_samples : Z;
  w_num_channel : Z;
  w_sample_rate : Z;
  w_bits_per_sample : Z
}.

(** How [wav_writer_write] ends: [Refused] is [return false] before the file
    is opened; [Wrote ok file] is a return of [ok] with [file] written;
    [Undefined] is a read outside the sample buffer. *)
Inductive write_result : Type :=
| Refused
| Wrote (ok : bool) (file : list Z)
| Undefined.

(** *** The reader *)

Record wav_reader_t := mk_reader {
  r_num_channel : Z;
  r_sample_rate : Z;
  r_bits_per_sample : Z;
  r_num_samples : Z;
  r_data : list float;
  r_loaded : bool
}.

(** How [wav_reader_open] ends: it returns true with the reader filled, it
    returns false, or it divides by zero. *)
Inductive read_result : Type :=
| Opened (reader : wav_reader_t)
| Failed
| DivideByZero.

(** [fread(buf, 1, n, fp)] at position [pos] when it delivers all [n]
    bytes. *)
Definition read_at (file : list Z) (pos n : Z) : option (list Z) :=
  if (0 <=? pos) && (pos + n <=? Z.of_nat (List.length file)) then
    Some (slice file (Z.to_nat pos) (Z.to_nat n))
  else None.

(** The search for the "data" chunk, entered at position [pos]: the position
    after the chunk header and the chunk size, [None] when the file ends
    first. *)
Fixpoint find_data_chunk (fuel : nat) (file : list Z) (pos : Z)
  : option (option (Z * Z)) :=
  match fuel with
  | O => None
  | S fuel' =>
    match read_at file pos 8 with
    | None => Some None
    | Some chunk_header =>
      let chunk_size := le_value (skipn 4 chunk_header) in
      if list_eq_dec Z.eq_dec (firstn 4 chunk_header) [100; 97; 116; 97] then
        Some (Some (pos + 8, chunk_size))
      else find_data_chunk fuel' file (pos + 8 + chunk_size)
    end
  end.

(** The groups of [k] bytes of a list. *)
Fixpoint chunks (fuel : nat) (k : nat) (l : list Z) : list (list Z) :=
  match fuel with
  | O => []
  | S fuel' =>
    match l with
    | [] => []
    | _ => firstn k l :: chunks fuel' k (skipn k l)
    end
  end.

(** [x * y + z] rounded once, as a fused multiply-add does, for three
    finite operands other than zero, which is what [decode_8] passes for
    every byte but 0; with a zero, an infinity or a NaN among them the
    result is taken from the two operations. *)
Definition f32_fma (x y z : float) : float :=
  match x, y, z with
  | S754_finite sx mx ex, S754_finite sy my ey, S754_finite sz mz ez =>
    let e := Z.min (ex + ey) ez in
    let p := (if xorb sx sy then -1 else 1) * Zpos mx * Zpos my
             * 2 ^ (ex + ey - e) in
    let q := (if sz then -1 else 1) * Zpos mz * 2 ^ (ez - e) in
    binary_normalize f32_prec f32_emax (p + q) e false
  | _, _, _ => f32_add (f32_mul x y) z
  end.

(** [(float)sample * inv_scale - 1.0f]: one expression, which the compiler
    may contract into a fused multiply-add; [fused] says whether it did. *)
Definition decode_8 (fused : bool) (b : list Z) : float :=
  if fused then f32_fma (f32_of_int (le_value b)) inv_scale_8 f32_minus_one
  else f32_sub (f32_mul (f32_of_int (le_value b)) inv_scale_8) f32_one.

Definition decode_16 (b : list Z) : float :=
  f32_mul (f32_of_int (to_i16 (le_value b))) inv_scale_16.

Definition decode_32 (b : list Z) : float :=
  f32_mul (f32_of_int (to_int (le_value b))) inv_scale_32.

Definition decode_float (b : list Z) : float := f32_of_bits (le_value b).

Definition wav_reader_open (fused : bool) (file : list Z) : read_result :=
  match read_at file 0 44 with
  | None => Failed
  | Some raw =>
    let header := header_of_bytes raw in
    if fmt_size header <? 16 then Failed
    else if (fmt_size header >? 16)
            && match read_at file (44 - 8 + fmt_size header - 16) 4 with
               | None => true
               | Some _ => false
               end then Failed
    else
      match find_data_chunk (S (List.length file)) file (20 + fmt_size header) with
      | None | Some None => Failed
      | Some (Some (pos, chunk_size)) =>
        let data_size :=
          if chunk_size =? 0 then to_uint (Z.of_nat (List.length file) - pos)
          else chunk_size in
        let num_channel := channels header in
        let bits_per_sample := bit header in
        if num_channel =? 0 then Failed
        else if bits_per_sample =? 0 then Failed
        else if bits_per_sample / 8 =? 0 then DivideByZero
        else
          let num_data := data_size / (bits_per_sample / 8) in
          let decode :=
            if bits_per_sample =? 8 then Some (decode_8 fused)
            else if bits_per_sample =? 16 then Some decode_16
            else if bits_per_sample =? 32 then
              if format header =? 1 then Some decode_32
              else if format header =? 3 then Some decode_float
              else None
            else None in
          match decode with
          | None => Failed
          | Some decode =>
            match read_at file pos (num_data * (bits_per_sample / 8)) with
            | None => Failed
            | Some raw_data =>
              Opened (mk_reader num_channel (to_int (sample_rate header))
                        bits_per_sample (num_data / num_channel)
                        (map decode
                           (chunks (List.length raw_data)
                              (Z.to_nat (bits_per_sample / 8)) raw_data))
                        true)
            end
          end
      end
  end.

Section Rounding.

Variable lrintf : float -> Z.
Variable llrintf : float -> Z.

(** The [switch] in the sample loop: the bytes of one sample, [None] at an
    unsupported depth.  [le_bytes] keeps the low bytes, as the conversions
    to [uint8_t], [int16_t] and [int32_t] do. *)
Definition encode_sample (bits_per_sample : Z) (val : float) : option (list Z) :=
  if bits_per_sample =? 8 then
    Some (le_bytes 1 (lrintf (f32_mul (f32_add val f32_one) f32_127_5)))
  else if bits_per_sample =? 16 then
    Some (le_bytes 2 (lrintf (f32_mul val f32_32767)))
  else if bits_per_sample =? 32 then
    Some (le_bytes 4 (llrintf (f32_of_double (f64_mul val f64_2147483647))))
  else None.

(** The bytes of a list of samples, sample after sample. *)
Definition sample_bytes (bits_per_sample : Z) (samples : list float) : list Z :=
  flat_map (fun val =>
              match encode_sample bits_per_sample (clamp_sample val) with
              | Some bytes => bytes
              | None => []
              end) samples.

(** The two nested loops, [count] samples from the start of the buffer:
    the bytes written and whether the loops ran to their end; [None] when a
    sample is read behind the end of the buffer. *)
Fixpoint write_samples (bits_per_sample : Z) (count : nat)
         (samples : list float) : option (bool * list Z) :=
  match count with
  | O => Some (true, [])
  | S count' =>
    match samples with
    | [] => None
    | val :: rest =>
      match encode_sample bits_per_sample (clamp_sample val) with
      | None => Some (false, [])
      | Some bytes =>
        match write_samples bits_per_sample count' rest with
        | None => None
        | Some (ok, more) => Some (ok, bytes ++ more)
        end
      end
    end
  end.

(** The header [wav_writer_write] builds, [None] when one of its checked
    computations fails. *)
Definition writer_header (writer : wav_writer_t) : option wav_header_t :=
  let bytes := to_size (Z.quot (w_bits_per_sample writer) 8) in
  match ckd_mul (w_num_samples writer) (to_size (w_num_channel writer)) with
  | None => None
  | Some samples =>
  match ckd_mul samples bytes with
  | None => None
  | Some data_bytes =>
  if data_bytes >? UINT32_MAX then None else
  match ckd_add (44 - 8) data_bytes with
  | None => None
  | Some riff_size =>
  if riff_size >? UINT32_MAX then None else
  match ckd_mul (to_size (w_sample_rate writer))
                (to_size (w_num_channel writer)) with
  | None => None
  | Some rate_channels =>
  match ckd_mul rate_channels bytes with
  | None => None
  | Some bytes_per_second =>
  if bytes_per_second >? UINT32_MAX then None else
  match ckd_mul (to_size (w_num_channel writer)) bytes with
  | None => None
  | Some block_size =>
  if block_size >? UINT16_MAX then None else
  Some (mk_header (riff wav_header_template) (to_uint riff_size)
          (wav wav_header_template) (fmt wav_header_template)
          (fmt_size wav_header_template) (format wav_header_template)
          (to_u16 (w_num_channel writer)) (to_uint (w_sample_rate writer))
          (to_uint bytes_per_second) (to_u16 block_size)
          (to_u16 (w_bits_per_sample writer)) (data wav_header_template)
          (to_uint data_bytes))
  end end end end end end.

Definition wav_writer_write (writer : wav_writer_t) : write_result :=
  if (w_num_channel writer <=? 0) || (w_bits_per_sample writer <=? 0)
     || (w_sample_rate writer <=? 0) then Refused
  else if negb (Z.rem (w_bits_per_sample writer) 8 =? 0) then Refused
  else
    match writer_header writer with
    | None => Wrote false []
    | Some header =>
      match write_samples (w_bits_per_sample writer)
              (Z.to_nat (w_num_samples writer * w_num_channel writer))
              (w_data writer) with
      | None => Undefined
      | Some (ok, sample_bytes) => Wrote ok (header_bytes header ++ sample_bytes)
      end
    end.

End Rounding.

(** The header of a file of [n] frames of [ch] channels at [rate] frames
    per second and [bits] bits the sample, when no field is truncated but
    the depth. *)
Definition expected_header (n ch rate bits : Z) : wav_header_t :=
  mk_header [82; 73; 70; 70] (36 + n * ch * (bits / 8)) [87; 65; 86; 69]
    [102; 109; 116; 32] 16 1 ch rate (rate * ch * (bits / 8))
    (ch * (bits / 8)) (to_u16 bits) [100; 97; 116; 97]
    (n * ch * (bits / 8)).

(** A sample between -1 and 1. *)
Definition in_range (x : float) : bool :=
  f32_ge x f32_minus_one && f32_ge f32_one x.

(** [P] on every [z] with [acc * 2^k <= z < (acc + 1) * 2^k], by halving. *)
Fixpoint all_bits (k : nat) (acc : Z) (P : Z -> bool) : bool :=
  match k with
  | O => P acc
  | S k' => all_bits k' (2 * acc) P && all_bits k' (2 * acc + 1) P
  end.

(** The fields of a header that fit their widths. *)
Definition header_fits (h : wav_header_t) : Prop :=
  List.length (riff h) = 4%nat /\ List.length (wav h) = 4%nat /\
  List.length (fmt h) = 4%nat /\ List.length (data h) = 4%nat /\
  0 <= size h < 4294967296 /\ 0 <= fmt_size h < 4294967296 /\
  0 <= format h < 65536 /\ 0 <= channels h < 65536 /\
  0 <= sample_rate h < 4294967296 /\
  0 <= bytes_per_second h < 4294967296 /\
  0 <= block_size h < 65536 /\ 0 <= bit h < 65536 /\
  0 <= data_size h < 4294967296.

(** What [wav_reader_open] leaves in a reader it has filled. *)
Definition reader_ok (reader : wav_reader_t) : Prop :=
  1 <= r_num_channel reader <= UINT16_MAX /\
  (r_bits_per_sample reader = 8 \/ r_bits_per_sample reader = 16
   \/ r_bits_per_sample reader = 32) /\
  r_num_samples reader
  = Z.of_nat (List.length (r_data reader)) / r_num_channel reader /\
  Z.of_nat (List.length (r_data reader)) * (r_bits_per_sample reader / 8)
  <= UINT32_MAX /\
  r_loaded reader = true.

End Wav.

(** [lrintf] and [llrint] in the default rounding mode, to the nearest
    integer with ties to even; what is not a finite number goes to the
    "integer indefinite" value of x86-64. *)
Definition rint_nearest_even (x : float) : Z :=
  match x with
  | S754_zero _ => 0
  | S754_finite s m e =>
    let mag :=
      if 0 <=? e then Zpos m * 2 ^ e
      else
        let d := 2 ^ (- e) in
        let q := Zpos m / d in
        let r := Zpos m mod d in
        if 2 * r <? d then q
        else if 2 * r >? d then q + 1
        else if Z.even q then q else q + 1 in
    if s then - mag else mag
  | _ => -9223372036854775808
  end.

(** ** [main.c]: saving a segment *)

Module Main.

(** The number of decimal digits [%zu] prints. *)
Fixpoint decimal_digits (fuel : nat) (n : Z) : Z :=
  match fuel with
  | O => 1
  | S fuel' => if n <? 10 then 1 else 1 + decimal_digits fuel' (n / 10)
  end.

(** What [snprintf] returns for "%s/segment_%zu.wav". *)
Definition filename_length (directory_length index : Z) : Z :=
  directory_length + 9 + decimal_digits 20 index + 4.

(** The samples of the frames [start] to [min(end, num_samples) - 1] of the
    reader's buffer, every channel of each. *)
Definition segment_samples (reader : Wav.wav_reader_t) (ts : timestamp_t)
  : list float :=
  firstn (Z.to_nat ((Z.min (end_ ts) (Wav.r_num_samples reader) - start ts)
                    * Wav.r_num_channel reader))
         (skipn (Z.to_nat (start ts * Wav.r_num_channel reader))
                (Wav.r_data reader)).

Section Rounding.

Variable lrintf : float -> Z.
Variable llrintf : float -> Z.

(** [write_segment], for a reader with a buffer and a directory name of
    [directory_length] characters. *)
Definition write_segment (reader : Wav.wav_reader_t) (ts : timestamp_t)
           (index directory_length : Z) : Wav.write_result :=
  if (start ts <? 0) || (end_ ts <=? start ts) then Wav.Refused
  else
    let start := to_size (start ts) in
    let end' := to_size (end_ ts) in
    if start >=? Wav.r_num_samples reader then Wav.Refused
    else
      let end' :=
        if end' >? Wav.r_num_samples reader then Wav.r_num_samples reader
        else end' in
      let frames := to_size (end' - start) in
      if frames =? 0 then Wav.Refused
      else
        match Wav.ckd_mul frames (to_size (Wav.r_num_channel reader)) with
        | None => Wav.Refused
        | Some total_samples =>
          let segment_data :=
            skipn (Z.to_nat (to_size (start * to_size (Wav.r_num_channel reader))))
                  (Wav.r_data reader) in
          let written := filename_length directory_length index in
          if (written <=? 0) || (written >=? 128) then Wav.Refused
          else
            Wav.wav_writer_write lrintf llrintf
              (Wav.mk_writer segment_data frames
                 (Wav.r_num_channel reader) (Wav.r_sample_rate reader)
                 (Wav.r_bits_per_sample reader))
        end.

End Rounding.

End Main.

(** ** [vad_predict], parts 1 to 4: the sample buffers around the classifier

    The engine owns three blocks of floats: [context], [state] and
    [input_buffer].  The ONNX session is a parameter: [run input state sr]
    is [output_data[0]] and the new state [stateN_data] that one call of
    [Run] returns; the call itself is taken to succeed.  A copy outside a
    block is undefined behaviour, [None]. *)

Module Buffers.

Record buffers_t := mk_buffers {
  context : list float;
  state : list float;
  input_buffer : list float
}.

Definition zeros (n : nat) : list float := repeat f32_zero n.

(** [memcpy(dst + doff, src + soff, n * sizeof(float))] *)
Definition memcpy (dst : list float) (doff : Z) (src : list float) (soff n : Z)
  : option (list float) :=
  if (0 <=? doff) && (0 <=? soff) && (0 <=? n)
     && (doff + n <=? Z.of_nat (List.length dst))
     && (soff + n <=? Z.of_nat (List.length src))
  then Some (firstn (Z.to_nat doff) dst
             ++ firstn (Z.to_nat n) (skipn (Z.to_nat soff) src)
             ++ skipn (Z.to_nat (doff + n)) dst)
  else None.

(** [memset(dst, 0, n * sizeof(float))]: all bytes zero is [+0.0f]. *)
Definition memset_zero (dst : list float) (n : Z) : option (list float) :=
  if (0 <=? n) && (n <=? Z.of_nat (List.length dst))
  then Some (zeros (Z.to_nat n) ++ skipn (Z.to_nat n) dst)
  else None.

(** Whether [vad_predict] leaves through one of the four branches of its
    part 5; each of them refreshes [context] before it returns, the end of
    the function does not. *)
Definition takes_branch (vad : vad_iterator_t) (speech_prob : float) : bool :=
  let vad := set_current_sample vad
               (uint_add (current_sample vad) (window_size_samples vad)) in
  f32_ge speech_prob (threshold vad)
  || (triggered vad
      && f32_gt (f32_of_int (to_int (uint_sub (current_sample vad)
                                              (start (current_speech vad)))))
                (max_speech_samples vad))
  || (f32_ge speech_prob (f32_sub (threshold vad) f32_0_15)
      && f32_lt speech_prob (threshold vad))
  || f32_lt speech_prob (f32_sub (threshold vad) f32_0_15).

Section Session.

Variable run : list float -> list float -> Z -> float * list float.

(** [vad_iterator_reset_states] with its two [memset]s. *)
Definition vad_iterator_reset_states (vad : vad_iterator_t) (bufs : buffers_t)
  : option (vad_iterator_t * buffers_t) :=
  match memset_zero (state bufs) (size_state vad) with
  | None => None
  | Some st =>
    match memset_zero (context bufs) (context_samples vad) with
    | None => None
    | Some ctx =>
      Some (vad_iterator_reset_states vad, mk_buffers ctx st (input_buffer bufs))
    end
  end.

(** [vad_predict(vad, &input_wav[j])], all five parts. *)
Definition vad_predict (vad : vad_iterator_t) (bufs : buffers_t)
           (input_wav : list float) (j : Z)
  : option (vad_iterator_t * buffers_t) :=
  match memcpy (input_buffer bufs) 0 (context bufs) 0 (context_samples vad) with
  | None => None
  | Some ib =>
    match memcpy ib (context_samples vad) input_wav j (window_size_samples vad) with
    | None => None
    | Some ib =>
      if (Z.of_nat (List.length ib) <? effective_window_size vad)
         || (effective_window_size vad <? 0)
         || (Z.of_nat (List.length (state bufs)) <? size_state vad)
         || (size_state vad <? 0)
      then None
      else
        let (speech_prob, stateN) :=
          run (firstn (Z.to_nat (effective_window_size vad)) ib)
              (firstn (Z.to_nat (size_state vad)) (state bufs))
              (sample_rate vad) in
        match memcpy (state bufs) 0 stateN 0 (size_state vad) with
        | None => None
        | Some st =>
          if takes_branch vad speech_prob then
            match memcpy (context bufs) 0 ib
                    (int_sub (effective_window_size vad) (context_samples vad))
                    (context_samples vad) with
            | None => None
            | Some ctx => Some (vad_predict vad speech_prob, mk_buffers ctx st ib)
            end
          else Some (vad_predict vad speech_prob, mk_buffers (context bufs) st ib)
        end
    end
  end.

(** The loop of [vad_iterator_process], entered at offset [j]: the outer
    [None] is a loop still running when the fuel is used up, the inner one
    undefined behaviour. *)
Fixpoint process_loop (fuel : nat) (vad : vad_iterator_t) (bufs : buffers_t)
         (input_wav : list float) (audio_length_samples j : Z)
  : option (option (vad_iterator_t * buffers_t)) :=
  match fuel with
  | O => None
  | S fuel' =>
    if j <? audio_length_samples then
      if size_add j (window_size_samples vad) >? audio_length_samples
      then Some (Some (vad, bufs))
      else
        match vad_predict vad bufs input_wav j with
        | None => Some None
        | Some (vad', bufs') =>
          process_loop fuel' vad' bufs' input_wav audio_length_samples
            (size_add j (window_size_samples vad))
        end
    else Some (Some (vad, bufs))
  end.

(** The library's [vad_iterator_process] on an engine with its buffers. *)
Definition vad_iterator_process (fuel : nat) (vad : vad_iterator_t)
           (bufs : buffers_t) (input_wav : list float)
           (audio_length_samples : Z)
  : option (option (vad_iterator_t * buffers_t)) :=
  if window_size_samples vad =? 0 then Some (Some (vad, bufs))
  else
    match vad_iterator_reset_states vad bufs with
    | None => Some None
    | Some (vad, bufs) =>
      match process_loop fuel vad bufs input_wav audio_length_samples 0 with
      | Some (Some (vad, bufs)) =>
        Some (Some (end_of_stream_flush vad audio_length_samples, bufs))
      | other => other
      end
    end.

(** *** What the classifier is meant to see

    Window [k] of the input behind the [context_samples] samples that
    precede it, zeros before the start of the input; the recurrent state
    starts at zero and is handed from call to call. *)

Definition lastn (n : nat) (l : list float) : list float :=
  skipn (List.length l - n) l.





End Session.

(** Blocks of the sizes [vad_iterator_init] allocates, for a window and a
    context whose sum is an [int]. *)
Definition buffers_ok (vad : vad_iterator_t) (bufs : buffers_t) : Prop :=
  0 < window_size_samples vad /\ 0 <= context_samples vad /\
  0 <= size_state vad /\
  effective_window_size vad = window_size_samples vad + context_samples vad /\
  effective_window_size vad <= INT_MAX /\
  Z.of_nat (List.length (context bufs)) = context_samples vad /\
  Z.of_nat (List.length (state bufs)) = size_state vad /\
  Z.of_nat (List.length (input_buffer bufs)) = effective_window_size vad.

(** The blocks as the four [calloc]s of [vad_iterator_init] leave them. *)
Definition allocated (vad : vad_iterator_t) : buffers_t :=
  mk_buffers (zeros (Z.to_nat (context_samples vad)))
             (zeros (Z.to_nat (size_state vad)))
             (zeros (Z.to_nat (effective_window_size vad))).

(** The configuration fields the buffers and the classifier depend on. *)
Definition sizes (vad : vad_iterator_t) : Z * Z * Z * Z * Z * float :=
  (window_size_samples vad, context_samples vad, effective_window_size vad,
   size_state vad, sample_rate vad, threshold vad).


End Buffers.

Arguments to_int : simpl never.
Arguments to_uint : simpl never.
Arguments to_size : simpl never.
Arguments uint_add : simpl never.
Arguments uint_sub : simpl never.
Arguments int_sub : simpl never.
Arguments int_mul : simpl never.
Arguments size_add : simpl never.
Arguments f32_ge : simpl never.
Arguments f32_gt : simpl never.
Arguments f32_lt : simpl never.
Arguments f32_sub : simpl never.
Arguments f32_mul : simpl never.
Arguments f32_of_int : simpl never.

(** ** Tactics: symbolic execution of [vad_predict]

    The step function is unfolded on an engine given field by field and
    the tests it meets are split one after the other, outermost first. *)

Ltac predict_unfold_in H :=
  lazy beta iota zeta delta
    [vad_predict vad_iterator_reset_states end_of_stream_flush speaking
     set_triggered set_temp_end set_current_sample set_prev_end set_next_start
     set_current_speech set_speeches set_speech_pad_samples set_speech_start
     set_speech_end vec_push vec_clear clear_markers no_speech
     sample_rate sr_per_ms window_size_samples effective_window_size
     context_samples size_state threshold min_silence_samples
     min_silence_samples_at_max_speech min_speech_samples max_speech_samples
     speech_pad_samples triggered temp_end current_sample prev_end next_start
     current_speech speeches start end_ negb andb] in H.

Ltac predict_unfold :=
  lazy beta iota zeta delta
    [vad_predict vad_iterator_reset_states end_of_stream_flush speaking
     set_triggered set_temp_end set_current_sample set_prev_end set_next_start
     set_current_speech set_speeches set_speech_pad_samples set_speech_start
     set_speech_end vec_push vec_clear clear_markers no_speech
     sample_rate sr_per_ms window_size_samples effective_window_size
     context_samples size_state threshold min_silence_samples
     min_silence_samples_at_max_speech min_speech_samples max_speech_samples
     speech_pad_samples triggered temp_end current_sample prev_end next_start
     current_speech speeches start end_ negb andb].

(** Split on the outermost undecided test of [H], again and again. *)
Ltac split_tests_in H :=
  repeat (match type of H with
          | context [if ?b then _ else _] =>
              lazymatch b with
              | context [if _ then _ else _] => fail
              | _ => let E := fresh "E" in destruct b eqn:E
              end
          end; predict_unfold_in H).

Ltac split_test_in H :=
  match type of H with
  | context [if ?b then _ else _] =>
      lazymatch b with
      | context [if _ then _ else _] => fail
      | _ => let E := fresh "E" in destruct b eqn:E
      end
  end; predict_unfold_in H.

Ltac split_tests :=
  repeat (match goal with
          | |- context [if ?b then _ else _] =>
              lazymatch b with
              | context [if _ then _ else _] => fail
              | _ => let E := fresh "E" in destruct b eqn:E
              end
          end; predict_unfold).

Ltac destruct_vad vad :=
  destruct vad as [sr spm w0 ews ctx szs thr msil msilmax mspeech maxsp pad
                   trg te cs0 pe ns [s0 e0] segs].

(** ** Machine integers in range *)

Lemma to_int_id z : INT_MIN <= z <= INT_MAX -> to_int z = z.
Proof.
  unfold to_int, INT_MIN, INT_MAX. intros Hz.
  rewrite Z.mod_small; lia.
Qed.

Lemma to_uint_id z : 0 <= z < 4294967296 -> to_uint z = z.
Proof. unfold to_uint. intros Hz. apply Z.mod_small. lia. Qed.

Lemma to_size_id z : 0 <= z <= SIZE_MAX -> to_size z = z.
Proof. unfold to_size, SIZE_MAX. intros Hz. apply Z.mod_small. lia. Qed.

Lemma uint_add_id a b :
  0 <= a -> 0 <= b -> a + b <= INT_MAX -> uint_add a b = a + b.
Proof.
  unfold uint_add, INT_MAX. intros Ha Hb Hab.
  rewrite (to_uint_id b) by lia. apply to_uint_id. lia.
Qed.

Lemma uint_sub_id a b : 0 <= b <= a -> a <= INT_MAX -> uint_sub a b = a - b.
Proof.
  unfold uint_sub, INT_MAX. intros Hb Ha.
  rewrite (to_uint_id b) by lia. apply to_uint_id. lia.
Qed.

Lemma window_start_id cs w :
  0 <= cs -> 0 < w -> cs + w <= INT_MAX -> to_int (uint_sub (cs + w) w) = cs.
Proof.
  intros Hcs Hw Hsum. rewrite uint_sub_id by lia.
  rewrite to_int_id; unfold INT_MIN, INT_MAX in *; lia.
Qed.

Lemma size_add_id j w :
  0 <= j -> 0 <= w -> j + w <= SIZE_MAX -> size_add j w = j + w.
Proof.
  unfold size_add. intros Hj Hw Hsum.
  rewrite (to_size_id w) by lia. apply to_size_id. lia.
Qed.

Lemma uint_add_to_uint a w : uint_add (to_uint a) w = to_uint (a + to_uint w).
Proof.
  unfold uint_add, to_uint. apply Zplus_mod_idemp_l.
Qed.

Lemma uint_sub_self w : uint_sub (uint_add 0 w) w = 0.
Proof.
  unfold uint_sub, uint_add. simpl Z.add. unfold to_uint.
  rewrite Z.mod_mod by lia.
  rewrite Z.sub_diag. reflexivity.
Qed.

(** ** Lists of segments *)

Lemma StronglySorted_snoc {A} (R : A -> A -> Prop) l x :
  StronglySorted R l -> Forall (fun a => R a x) l -> StronglySorted R (l ++ [x]).
Proof.
  induction 1 as [|a l Hs IH Ha]; intros Hall; simpl.
  - repeat constructor.
  - inversion Hall; subst. constructor; [auto|].
    apply Forall_app. split; [assumption | repeat constructor; assumption].
Qed.

Lemma ends_bound_weaken (l : list timestamp_t) a b :
  a <= b -> Forall (fun ts => end_ ts <= a) l -> Forall (fun ts => end_ ts <= b) l.
Proof. intros Hab. apply Forall_impl. intros; lia. Qed.

Lemma ends_bound_precedes (l : list timestamp_t) s e :
  Forall (fun ts => end_ ts <= s) l ->
  Forall (fun a => precedes a (mk_timestamp s e)) l.
Proof. apply Forall_impl. unfold precedes; simpl; intros; lia. Qed.

Lemma precedes_sorted_by_start w (l : list timestamp_t) :
  Forall (segment_ok w) l -> StronglySorted precedes l ->
  StronglySorted (fun a b => start a <= start b) l.
Proof.
  intros Hok Hs. induction Hs as [|a l Hs IH Ha]; constructor.
  - apply IH. inversion Hok; assumption.
  - inversion Hok as [|? ? Hka _]; subst.
    revert Ha. apply Forall_impl. unfold precedes, segment_ok in *.
    intros b Hb. lia.
Qed.

Lemma divide_step w a : (w | a) -> (w | a + w).
Proof. intros Ha. apply Z.divide_add_r; [assumption | apply Z.divide_refl]. Qed.

(** ** The float literals *)

(** Each literal is the correctly rounded quotient it stands for. *)
Lemma f32_literals :
  f32_0_15 = SFdiv f32_prec f32_emax (f32_of_int 15) (f32_of_int 100) /\
  f32_0_5 = SFdiv f32_prec f32_emax (f32_of_int 1) (f32_of_int 2) /\
  f32_0_9 = SFdiv f32_prec f32_emax (f32_of_int 9) (f32_of_int 10) /\
  f32_0_1 = SFdiv f32_prec f32_emax (f32_of_int 1) (f32_of_int 10) /\
  f32_0_4 = SFdiv f32_prec f32_emax (f32_of_int 4) (f32_of_int 10) /\
  f32_one = f32_of_int 1 /\
  is_prob f32_0_9 = true /\ is_prob f32_0_1 = true /\ is_prob f32_0_4 = true.
Proof. repeat split; vm_compute; reflexivity. Qed.

(** ** Single steps *)

(** [vad_predict] writes none of the configuration fields. *)
Lemma vad_predict_config vad p :
  window_size_samples (vad_predict vad p) = window_size_samples vad /\
  context_samples (vad_predict vad p) = context_samples vad /\
  threshold (vad_predict vad p) = threshold vad /\
  sample_rate (vad_predict vad p) = sample_rate vad.
Proof.
  destruct_vad vad.
  remember (vad_predict _ p) as v eqn:Hv.
  predict_unfold_in Hv. split_tests_in Hv.
  all: subst v; repeat split; reflexivity.
Qed.

Lemma vad_predict_window vad p :
  window_size_samples (vad_predict vad p) = window_size_samples vad.
Proof. apply vad_predict_config. Qed.

(** [vad_predict] does not read [speech_pad_samples]. *)
Lemma vad_predict_pad vad z p :
  vad_predict (set_speech_pad_samples vad z) p
  = set_speech_pad_samples (vad_predict vad p) z.
Proof.
  destruct_vad vad. predict_unfold. split_tests. all: reflexivity.
Qed.

(** A speech window on an engine that is idle after a reset opens a
    candidate at sample 0. *)
Lemma vad_predict_first_speech vad p :
  f32_ge p (threshold vad) = true ->
  vad_predict (vad_iterator_reset_states vad) p
  = speaking vad (uint_add 0 (window_size_samples vad)).
Proof.
  intros Hp. destruct_vad vad. cbn [threshold window_size_samples] in *.
  predict_unfold. rewrite Hp. cbn. rewrite uint_sub_self. reflexivity.
Qed.

(** A speech window in the middle of a speech run only moves the cursor. *)
Lemma vad_predict_speaking vad cs p :
  f32_ge p (threshold vad) = true ->
  vad_predict (speaking vad cs) p
  = speaking vad (uint_add cs (window_size_samples vad)).
Proof.
  intros Hp. destruct_vad vad. cbn [threshold window_size_samples] in *.
  predict_unfold. rewrite Hp. cbn. reflexivity.
Qed.

(** A window below the threshold on an engine that is not triggered only
    moves the cursor. *)
Lemma vad_predict_idle vad p :
  triggered vad = false -> f32_ge p (threshold vad) = false ->
  vad_predict vad p
  = set_current_sample vad
      (uint_add (current_sample vad) (window_size_samples vad)).
Proof.
  intros Ht Hp. destruct_vad vad.
  cbn [threshold window_size_samples triggered current_sample] in *. subst.
  predict_unfold. rewrite Hp. split_tests. all: reflexivity.
Qed.

(** The segment list is append-only: a step leaves it as it is or pushes
    one segment at its tail. *)
Lemma vad_predict_appends vad p :
  speeches (vad_predict vad p) = speeches vad \/
  exists ts, speeches (vad_predict vad p) = speeches vad ++ [ts].
Proof.
  destruct_vad vad. cbn [speeches].
  remember (vad_predict _ p) as v eqn:Hv.
  predict_unfold_in Hv. split_tests_in Hv.
  all: subst v; cbn [speeches];
    first [left; reflexivity | right; eexists; reflexivity].
Qed.

(** A window at or above the threshold never appends a segment. *)
Lemma vad_predict_speech_no_push vad p :
  f32_ge p (threshold vad) = true ->
  speeches (vad_predict vad p) = speeches vad.
Proof.
  intros Hp. destruct_vad vad. cbn [threshold speeches] in *.
  remember (vad_predict _ p) as v eqn:Hv.
  predict_unfold_in Hv. rewrite Hp in Hv. split_tests_in Hv.
  all: subst v; reflexivity.
Qed.

(** ** The invariant is kept by every step *)

Lemma reset_inv w L vad :
  window_size_samples vad = w -> 0 <= L ->
  engine_inv w L (vad_iterator_reset_states vad).
Proof.
  intros Hw HL. destruct_vad vad. cbn [window_size_samples] in Hw. subst w0.
  unfold engine_inv. predict_unfold.
  repeat match goal with |- _ /\ _ => split | |- _ <-> _ => split end.
  all: try (intros; first [lia | discriminate | constructor | apply Z.divide_0_r]).
Qed.

Lemma vad_predict_inv w L vad p :
  0 < w -> L <= INT_MAX -> engine_inv w L vad -> current_sample vad + w <= L ->
  engine_inv w L (vad_predict vad p) /\
  current_sample (vad_predict vad p) = current_sample vad + w.
Proof.
  intros Hw HL Hinv Hroom.
  destruct vad as [sr spm w0 ews ctx szs thr msil msilmax mspeech maxsp pad
                   trg te cs pe ns [s e] segs].
  unfold engine_inv in *.
  cbn [window_size_samples current_sample current_speech start triggered
       temp_end prev_end next_start speeches] in Hinv, Hroom.
  destruct Hinv as (-> & Hcs & Hdcs & Htrg & Hst & Hte & Hte' & Hpe & Hpe'
                    & Hns & Hdns & Hns' & Hok & Hsort & Hends).
  pose proof (divide_step w cs Hdcs) as Hdcs'.
  assert (Hweak : forall a b, a <= b ->
            Forall (fun ts => end_ ts <= a) segs ->
            Forall (fun ts => end_ ts <= b) segs)
    by (intros a b; apply ends_bound_weaken).
  remember (vad_predict _ p) as v eqn:Hv.
  predict_unfold_in Hv.
  rewrite (uint_add_id cs w) in Hv by lia.
  split_tests_in Hv.
  all: subst v;
    cbn [window_size_samples current_sample current_speech start end_
         triggered temp_end prev_end next_start speeches].
  all: repeat match goal with
  | H : (_ =? _) = true |- _ => apply Z.eqb_eq in H
  | H : (_ =? _) = false |- _ => apply Z.eqb_neq in H
  | H : (_ <? _) = true |- _ => apply Z.ltb_lt in H
  | H : (_ <? _) = false |- _ => apply Z.ltb_ge in H
  | H : (_ >? _) = true |- _ => apply Z.gtb_lt in H
  | H : (_ >? _) = false |- _ => rewrite Z.gtb_ltb in H; apply Z.ltb_ge in H
  | H : (_ >=? _) = _ |- _ => clear H
  | H : f32_ge _ _ = _ |- _ => clear H
  | H : f32_gt _ _ = _ |- _ => clear H
  | H : f32_lt _ _ = _ |- _ => clear H
  end.
  all: rewrite ?window_start_id by lia.
  all: rewrite ?to_int_id by (unfold INT_MIN, INT_MAX in *; lia).
  all: repeat match goal with |- _ /\ _ => split | |- _ <-> _ => split end.
  all: try (intros; subst; lia).
  all: try (intros; subst;
            intuition (try discriminate; try congruence; try lia); fail).
  all: try apply Z.divide_0_r.
  all: try (apply Forall_app; split; [| constructor; [| constructor]]).
  all: try (apply StronglySorted_snoc; [assumption | apply ends_bound_precedes]).
  all: unfold segment_ok; cbn [start end_].
  all: try assumption.
  all: try (eapply Hweak; [| eassumption]).
  all: try (intuition lia).
Qed.

Lemma predict_n_inv speech_prob w L n :
  forall vad k,
  0 < w -> L <= INT_MAX -> engine_inv w L vad ->
  current_sample vad + Z.of_nat n * w <= L ->
  engine_inv w L (predict_n speech_prob vad k n).
Proof.
  induction n as [|n IH]; intros vad k Hw HL Hinv Hroom.
  - exact Hinv.
  - cbn [predict_n].
    destruct (vad_predict_inv w L vad (speech_prob k) Hw HL Hinv) as [Hinv' Hcs];
      [nia|].
    apply IH; try assumption. rewrite Hcs. nia.
Qed.

(** What the end-of-stream flush leaves in the segment list. *)
Lemma flush_inv w L vad :
  0 < w -> 0 <= L <= INT_MAX -> engine_inv w L vad ->
  let vad' := end_of_stream_flush vad L in
  Forall (segment_ok w) (speeches vad') /\
  StronglySorted precedes (speeches vad') /\
  Forall (fun ts => end_ ts <= L) (speeches vad').
Proof.
  intros Hw HL Hinv.
  destruct vad as [sr spm w0 ews ctx szs thr msil msilmax mspeech maxsp pad
                   trg te cs pe ns [s e] segs].
  unfold engine_inv in Hinv.
  cbn [window_size_samples current_sample current_speech start triggered
       temp_end prev_end next_start speeches] in Hinv.
  destruct Hinv as (-> & Hcs & Hdcs & Htrg & Hst & Hte & Hte' & Hpe & Hpe'
                    & Hns & Hdns & Hns' & Hok & Hsort & Hends).
  predict_unfold. rewrite (to_int_id L) by (unfold INT_MIN, INT_MAX in *; lia).
  destruct (s >=? 0) eqn:Es.
  - assert (Hs : 0 <= s) by lia.
    assert (Ht : trg = true) by (apply Htrg; assumption). subst trg.
    destruct (Hst eq_refl) as [Hds Hsw].
    repeat split.
    + apply Forall_app. split; [assumption|].
      constructor; [|constructor]. unfold segment_ok; cbn [start end_].
      repeat split; try assumption; lia.
    + apply StronglySorted_snoc; [assumption|].
      apply ends_bound_precedes. assumption.
    + apply Forall_app. split.
      * revert Hends. apply ends_bound_weaken. lia.
      * constructor; [cbn [end_]; lia | constructor].
  - repeat split; try assumption.
    revert Hends. apply ends_bound_weaken. destruct trg; lia.
Qed.

(** ** The driving loop *)

Lemma predict_n_window speech_prob n :
  forall vad k,
  window_size_samples (predict_n speech_prob vad k n) = window_size_samples vad.
Proof.
  induction n as [|n IH]; intros vad k; cbn [predict_n]; [reflexivity|].
  rewrite IH. apply vad_predict_window.
Qed.

Lemma predict_n_app speech_prob n m :
  forall vad k,
  predict_n speech_prob vad k (n + m)
  = predict_n speech_prob (predict_n speech_prob vad k n) (k + Z.of_nat n) m.
Proof.
  induction n as [|n IH]; intros vad k.
  - cbn [predict_n Nat.add]. rewrite Z.add_0_r. reflexivity.
  - cbn [predict_n Nat.add]. rewrite IH. f_equal. lia.
Qed.

Lemma windows_left_succ L j w :
  0 < w -> j + w <= L ->
  (L - j) / w = (L - (j + w)) / w + 1 /\ 0 <= (L - (j + w)) / w.
Proof.
  intros Hw Hj. split.
  - replace (L - j) with ((L - (j + w)) + 1 * w) by lia.
    apply Z.div_add. lia.
  - apply Z.div_pos; lia.
Qed.

Lemma windows_left_step L j w :
  0 < w -> j + w <= L ->
  Z.to_nat ((L - j) / w) = S (Z.to_nat ((L - (j + w)) / w)).
Proof.
  intros Hw Hj. destruct (windows_left_succ L j w Hw Hj) as [-> Hpos]. lia.
Qed.

Lemma windows_left_none L j w : 0 <= L - j < w -> Z.to_nat ((L - j) / w) = O.
Proof. intros H. rewrite Z.div_small by lia. reflexivity. Qed.

(** With a positive window size the loop ends, after one call per full
    window. *)
Lemma process_loop_runs speech_prob fuel :
  forall vad L j k,
  0 < window_size_samples vad <= INT_MAX ->
  0 <= j <= L -> 4 * L <= SIZE_MAX ->
  (L - j) / window_size_samples vad < Z.of_nat fuel ->
  process_loop speech_prob fuel vad L j k
  = Some (predict_n speech_prob vad k
            (Z.to_nat ((L - j) / window_size_samples vad))).
Proof.
  induction fuel as [|fuel IH]; intros vad L j k Hw Hj HL Hfuel.
  - exfalso. assert (0 <= (L - j) / window_size_samples vad)
      by (apply Z.div_pos; lia). lia.
  - cbn [process_loop].
    destruct (j <? L) eqn:EjL.
    + apply Z.ltb_lt in EjL.
      rewrite size_add_id by (unfold SIZE_MAX, INT_MAX in *; lia).
      destruct (j + window_size_samples vad >? L) eqn:Ebrk.
      * apply Z.gtb_lt in Ebrk. rewrite windows_left_none by lia. reflexivity.
      * rewrite Z.gtb_ltb in Ebrk. apply Z.ltb_ge in Ebrk.
        rewrite (windows_left_step L j) by lia. cbn [predict_n].
        rewrite IH; rewrite ?vad_predict_window; try lia; [reflexivity|].
        destruct (windows_left_succ L j (window_size_samples vad)); lia.
    + apply Z.ltb_ge in EjL. rewrite windows_left_none by lia. reflexivity.
Qed.

Lemma window_offsets_runs fuel :
  forall w L j,
  0 < w <= INT_MAX -> 0 <= j <= L -> 4 * L <= SIZE_MAX ->
  (L - j) / w < Z.of_nat fuel ->
  window_offsets fuel w L j
  = Some (map (fun i => j + Z.of_nat i * w) (seq 0 (Z.to_nat ((L - j) / w)))).
Proof.
  induction fuel as [|fuel IH]; intros w L j Hw Hj HL Hfuel.
  - exfalso. assert (0 <= (L - j) / w) by (apply Z.div_pos; lia). lia.
  - cbn [window_offsets].
    destruct (j <? L) eqn:EjL.
    + apply Z.ltb_lt in EjL.
      rewrite size_add_id by (unfold SIZE_MAX, INT_MAX in *; lia).
      destruct (j + w >? L) eqn:Ebrk.
      * apply Z.gtb_lt in Ebrk. rewrite windows_left_none by lia. reflexivity.
      * rewrite Z.gtb_ltb in Ebrk. apply Z.ltb_ge in Ebrk.
        rewrite (windows_left_step L j) by lia.
        rewrite IH; try lia.
        -- cbn [seq map]. rewrite <- seq_shift, map_map.
           f_equal. f_equal; [lia|].
           apply map_ext. intros i. lia.
        -- destruct (windows_left_succ L j w); lia.
    + apply Z.ltb_ge in EjL. rewrite windows_left_none by lia. reflexivity.
Qed.

(** ** binary32: order and conversion from [int] *)

Lemma SFcompare_antisym a b :
  SFcompare b a = option_map CompOpp (SFcompare a b).
Proof.
  destruct a as [sa|sa| |sa ma ea], b as [sb|sb| |sb mb eb]; cbn;
    try destruct sa; try destruct sb; try reflexivity.
  all: rewrite (Z.compare_antisym ea eb);
    change (Pos.compare_cont Eq mb ma) with (Pos.compare mb ma);
    change (Pos.compare_cont Eq ma mb) with (Pos.compare ma mb);
    rewrite (Pos.compare_antisym ma mb);
    destruct (ea ?= eb); destruct (ma ?= mb)%positive; reflexivity.
Qed.

(** [p < t] excludes [p >= t]. *)
Lemma f32_lt_not_ge p t : f32_lt p t = true -> f32_ge p t = false.
Proof.
  unfold f32_lt, f32_ge, SFltb, SFleb. rewrite (SFcompare_antisym p t).
  destruct (SFcompare p t) as [[| |]|]; cbn; congruence.
Qed.

Lemma pos_lt_pow_digits p : Zpos p < 2 ^ Zpos (digits2_pos p).
Proof.
  induction p as [p IH|p IH|]; cbn [digits2_pos];
    rewrite ?Pos2Z.inj_succ, ?Z.pow_succ_r by lia; lia.
Qed.

Lemma digits2_pos_bound p :
  forall n, 0 <= n -> Zpos p < 2 ^ n -> Zpos (digits2_pos p) <= n.
Proof.
  induction p as [p IH|p IH|]; intros n Hn Hp; cbn [digits2_pos].
  - destruct (Z.eq_dec n 0) as [->|Hn0]; [cbn in Hp; lia|].
    rewrite Pos2Z.inj_succ. specialize (IH (n - 1)).
    replace n with (Z.succ (n - 1)) in Hp by lia.
    rewrite Z.pow_succ_r in Hp by lia. lia.
  - destruct (Z.eq_dec n 0) as [->|Hn0]; [cbn in Hp; lia|].
    rewrite Pos2Z.inj_succ. specialize (IH (n - 1)).
    replace n with (Z.succ (n - 1)) in Hp by lia.
    rewrite Z.pow_succ_r in Hp by lia. lia.
  - destruct (Z.eq_dec n 0) as [->|Hn0]; [cbn in Hp; lia|]. lia.
Qed.

Lemma Zdigits2_bound m n : 0 <= n -> 0 <= m < 2 ^ n -> Zdigits2 m <= n.
Proof.
  intros Hn Hm. destruct m as [|p|p]; cbn [Zdigits2]; try lia.
  apply digits2_pos_bound; lia.
Qed.

Lemma pos_iter_xO m d : Zpos (Pos.iter xO m d) = Zpos m * 2 ^ Zpos d.
Proof.
  induction d as [|d IH] using Pos.peano_ind.
  - cbn. lia.
  - rewrite Pos.iter_succ, Pos2Z.inj_succ, Z.pow_succ_r by lia.
    rewrite Pos2Z.inj_xO, IH. lia.
Qed.

Lemma shr_1_m r : 0 <= shr_m r -> 0 <= shr_m (shr_1 r) <= shr_m r.
Proof.
  destruct r as [m r s]. cbn [shr_m]. intros Hm.
  destruct m as [|[p|p|]|p]; cbn; lia.
Qed.

Lemma iter_pos_shr_1 n :
  forall r, 0 <= shr_m r -> 0 <= shr_m (iter_pos shr_1 n r) <= shr_m r.
Proof.
  induction n as [n IH|n IH|]; intros r Hr; cbn [iter_pos].
  - pose proof (shr_1_m r Hr) as H1.
    pose proof (IH (shr_1 r) ltac:(lia)) as H2.
    pose proof (IH (iter_pos shr_1 n (shr_1 r)) ltac:(lia)) as H3. lia.
  - pose proof (IH r Hr) as H2.
    pose proof (IH (iter_pos shr_1 n r) ltac:(lia)) as H3. lia.
  - apply shr_1_m. assumption.
Qed.

Lemma shr_fexp_bounds m e l :
  0 <= m ->
  0 <= shr_m (fst (shr_fexp f32_prec f32_emax m e l)) <= m /\
  snd (shr_fexp f32_prec f32_emax m e l)
  = Z.max e (fexp f32_prec f32_emax (Zdigits2 m + e)).
Proof.
  intros Hm. unfold shr_fexp, shr.
  assert (Hrec : shr_m (shr_record_of_loc m l) = m)
    by (destruct l as [|[| |]]; reflexivity).
  destruct (fexp f32_prec f32_emax (Zdigits2 m + e) - e) as [|n|n] eqn:En;
    cbn [fst snd].
  - rewrite Hrec. lia.
  - pose proof (iter_pos_shr_1 n (shr_record_of_loc m l)) as Hit.
    rewrite Hrec in Hit. lia.
  - rewrite Hrec. lia.
Qed.

Lemma round_nearest_even_bounds m l :
  m <= round_nearest_even m l <= m + 1.
Proof.
  unfold round_nearest_even. destruct l as [|[| |]]; try lia.
  destruct (Z.even m); lia.
Qed.

(** Rounding a mantissa below 2^32 with a non-positive exponent never
    overflows binary32. *)
Lemma binary_round_aux_finite sx mx ex lx :
  0 <= mx < 2 ^ 32 -> ex <= 0 ->
  f32_is_finite (binary_round_aux f32_prec f32_emax sx mx ex lx) = true.
Proof.
  intros Hmx Hex. unfold binary_round_aux.
  pose proof (shr_fexp_bounds mx ex lx ltac:(lia)) as [Hm1 He1].
  destruct (shr_fexp f32_prec f32_emax mx ex lx) as [r1 e1].
  cbn [fst snd] in Hm1, He1.
  pose proof (round_nearest_even_bounds (shr_m r1) (loc_of_shr_record r1)) as Hr.
  set (m2 := round_nearest_even (shr_m r1) (loc_of_shr_record r1)) in *.
  pose proof (shr_fexp_bounds m2 e1 loc_Exact ltac:(lia)) as [Hm2 He2].
  destruct (shr_fexp f32_prec f32_emax m2 e1 loc_Exact) as [r2 e2].
  cbn [fst snd] in Hm2, He2.
  assert (Hd1 : Zdigits2 mx <= 32) by (apply Zdigits2_bound; lia).
  assert (Hd2 : Zdigits2 m2 <= 33).
  { apply Zdigits2_bound; [lia|]. change (2 ^ 33) with (2 * 2 ^ 32). lia. }
  unfold fexp, emin, f32_prec, f32_emax in *.
  destruct (shr_m r2) as [|p|p]; [reflexivity| |lia].
  replace (e2 <=? 128 - 24) with true by (symmetry; apply Z.leb_le; lia).
  reflexivity.
Qed.

(** Every [int] converts to a finite float. *)
Lemma f32_of_int_finite z :
  INT_MIN <= z <= INT_MAX -> f32_is_finite (f32_of_int z) = true.
Proof.
  intros Hz. unfold f32_of_int, binary_normalize.
  assert (Hround : forall sx m, Zpos m < 2 ^ 32 ->
            f32_is_finite (binary_round f32_prec f32_emax sx m 0) = true).
  { intros sx m Hm. unfold binary_round, shl_align.
    pose proof (pos_lt_pow_digits m) as Hdig.
    assert (Hd : Zpos (digits2_pos m) <= 32) by (apply digits2_pos_bound; lia).
    destruct (fexp f32_prec f32_emax (Zpos (digits2_pos m) + 0) - 0)
      as [|d|d] eqn:Ed.
    - apply binary_round_aux_finite; lia.
    - apply binary_round_aux_finite; lia.
    - unfold fexp, emin, f32_prec, f32_emax in *.
      apply binary_round_aux_finite; [|lia].
      rewrite pos_iter_xO. split; [lia|].
      assert (Hdd : Zpos d <= 24 - Zpos (digits2_pos m)) by lia.
      assert (Hpow : 2 ^ Zpos d <= 2 ^ (24 - Zpos (digits2_pos m)))
        by (apply Z.pow_le_mono_r; lia).
      assert (Hprod : 2 ^ Zpos (digits2_pos m) * 2 ^ (24 - Zpos (digits2_pos m))
                      = 2 ^ 24)
        by (rewrite <- Z.pow_add_r by lia; f_equal; lia).
      change (2 ^ 32) with (256 * 2 ^ 24). nia. }
  unfold INT_MIN, INT_MAX in Hz.
  destruct z as [|m|m]; [reflexivity | |]; apply Hround; cbn; lia.
Qed.

(** An infinity is not moved by subtracting a finite float. *)
Lemma f32_sub_infinity x :
  f32_is_finite x = true -> f32_sub f32_infinity x = f32_infinity.
Proof. destruct x; cbn; try discriminate; reflexivity. Qed.

(** ** Uniform runs *)

Lemma speaking_run speech_prob vad n :
  forall c k,
  (forall i, k <= i < k + Z.of_nat n ->
             f32_ge (speech_prob i) (threshold vad) = true) ->
  predict_n speech_prob (speaking vad (to_uint c)) k n
  = speaking vad (to_uint (c + Z.of_nat n * to_uint (window_size_samples vad))).
Proof.
  induction n as [|n IH]; intros c k Hp.
  - cbn [predict_n]. do 2 f_equal. lia.
  - cbn [predict_n]. rewrite vad_predict_speaking by (apply Hp; lia).
    rewrite uint_add_to_uint. rewrite IH by (intros i Hi; apply Hp; lia).
    do 2 f_equal. lia.
Qed.

(** A run of [n + 1] speech windows from the reset leaves the candidate
    opened at sample 0 and nothing in the segment list. *)
Lemma all_speech_run speech_prob vad n :
  (forall i, 0 <= i <= Z.of_nat n ->
             f32_ge (speech_prob i) (threshold vad) = true) ->
  predict_n speech_prob (vad_iterator_reset_states vad) 0 (S n)
  = speaking vad
      (to_uint (Z.of_nat (S n) * to_uint (window_size_samples vad))).
Proof.
  intros Hp. cbn [predict_n].
  rewrite vad_predict_first_speech by (apply Hp; lia).
  unfold uint_add at 1. rewrite speaking_run by (intros i Hi; apply Hp; lia).
  do 2 f_equal. lia.
Qed.

Lemma flush_speaking vad cs L :
  speeches (end_of_stream_flush (speaking vad cs) L)
  = [mk_timestamp 0 (to_int L)].
Proof. destruct_vad vad. reflexivity. Qed.

Lemma speaking_speeches vad cs : speeches (speaking vad cs) = [].
Proof. destruct_vad vad. reflexivity. Qed.

Lemma set_current_sample_twice vad a b :
  set_current_sample (set_current_sample vad a) b = set_current_sample vad b.
Proof. destruct_vad vad. reflexivity. Qed.

Lemma set_current_sample_same vad :
  set_current_sample vad (current_sample vad) = vad.
Proof. destruct_vad vad. reflexivity. Qed.

Lemma set_current_sample_fields vad c :
  triggered (set_current_sample vad c) = triggered vad /\
  threshold (set_current_sample vad c) = threshold vad /\
  window_size_samples (set_current_sample vad c) = window_size_samples vad /\
  current_sample (set_current_sample vad c) = c.
Proof. destruct_vad vad. repeat split. Qed.

(** A run of [n] windows below the threshold on an engine that is not
    triggered only moves the cursor, modulo 2^32. *)
Lemma idle_run speech_prob n :
  forall vad k,
  triggered vad = false ->
  0 <= current_sample vad < 4294967296 ->
  (forall i, k <= i < k + Z.of_nat n ->
             f32_ge (speech_prob i) (threshold vad) = false) ->
  predict_n speech_prob vad k n
  = set_current_sample vad
      (to_uint (current_sample vad
                + Z.of_nat n * to_uint (window_size_samples vad))).
Proof.
  induction n as [|n IH]; intros vad k Ht Hcs Hp.
  - cbn [predict_n]. replace (current_sample vad + _) with (current_sample vad) by lia.
    rewrite to_uint_id by lia. symmetry. apply set_current_sample_same.
  - cbn [predict_n]. rewrite vad_predict_idle by (try apply Hp; try assumption; lia).
    destruct (set_current_sample_fields vad
                (uint_add (current_sample vad) (window_size_samples vad)))
      as (Ht' & Hthr' & Hw' & Hcs').
    rewrite IH.
    + rewrite Hcs', Hw', set_current_sample_twice. f_equal.
      unfold uint_add, to_uint. rewrite Zplus_mod_idemp_l. f_equal. lia.
    + rewrite Ht'. assumption.
    + rewrite Hcs'. unfold uint_add, to_uint. apply Z.mod_pos_bound. lia.
    + intros i Hi. rewrite Hthr'. apply Hp. lia.
Qed.

(** ** Whole runs *)

Lemma reset_window vad :
  window_size_samples (vad_iterator_reset_states vad) = window_size_samples vad.
Proof. destruct_vad vad. reflexivity. Qed.

Lemma lib_process_positive speech_prob fuel vad L :
  0 < window_size_samples vad ->
  Lib.vad_iterator_process speech_prob fuel vad L
  = process_from_reset speech_prob fuel vad L.
Proof.
  intros Hw. unfold Lib.vad_iterator_process.
  destruct (window_size_samples vad =? 0) eqn:E; [|reflexivity].
  apply Z.eqb_eq in E. lia.
Qed.

(** With a positive window size [vad_iterator_process] returns: it makes
    one call of [vad_predict] per full window and then flushes. *)
Lemma process_from_reset_runs speech_prob fuel vad L :
  0 < window_size_samples vad <= INT_MAX ->
  0 <= L -> 4 * L <= SIZE_MAX ->
  L / window_size_samples vad < Z.of_nat fuel ->
  process_from_reset speech_prob fuel vad L
  = Some (end_of_stream_flush
            (predict_n speech_prob (vad_iterator_reset_states vad) 0
               (Z.to_nat (L / window_size_samples vad))) L).
Proof.
  intros Hw HL Hbuf Hfuel. unfold process_from_reset.
  rewrite process_loop_runs; rewrite ?reset_window, ?Z.sub_0_r; try lia.
  reflexivity.
Qed.

Lemma full_windows_fit w L : 0 < w -> 0 <= L -> 0 <= L / w /\ L / w * w <= L.
Proof.
  intros Hw HL. split; [apply Z.div_pos; lia|].
  pose proof (Z.mul_div_le L w Hw). lia.
Qed.

(** The segment list of a whole run, as long as sample indices fit [int]. *)
Lemma process_segments speech_prob fuel vad L :
  0 < window_size_samples vad <= INT_MAX ->
  0 <= L <= INT_MAX ->
  L / window_size_samples vad < Z.of_nat fuel ->
  exists vad',
    Lib.vad_iterator_process speech_prob fuel vad L = Some vad' /\
    Forall (segment_ok (window_size_samples vad)) (speeches vad') /\
    StronglySorted precedes (speeches vad') /\
    Forall (fun ts => end_ ts <= L) (speeches vad').
Proof.
  intros Hw HL Hfuel. eexists. split.
  - rewrite lib_process_positive by lia.
    apply process_from_reset_runs; unfold SIZE_MAX, INT_MAX in *; lia.
  - apply flush_inv; try lia.
    destruct (full_windows_fit (window_size_samples vad) L) as [Hq Hfit]; try lia.
    apply predict_n_inv; try lia.
    + apply reset_inv; [reflexivity | lia].
    + destruct_vad vad. cbn [current_sample vad_iterator_reset_states
        set_current_speech vec_clear set_speeches set_next_start set_prev_end
        set_current_sample set_temp_end set_triggered].
      cbn [window_size_samples] in *. rewrite Z2Nat.id by lia. lia.
Qed.

(** A run over [N >= 1] full windows that are all at or above the
    threshold: nothing is emitted inside the loop, the flush emits one
    segment from 0 to the [int] reading of the sample count. *)
Lemma all_speech_process speech_prob fuel vad N :
  0 < window_size_samples vad <= INT_MAX ->
  1 <= N -> 4 * (N * window_size_samples vad) <= SIZE_MAX ->
  N < Z.of_nat fuel ->
  (forall i, 0 <= i < N -> f32_ge (speech_prob i) (threshold vad) = true) ->
  exists vad',
    Lib.vad_iterator_process speech_prob fuel vad (N * window_size_samples vad)
    = Some vad' /\
    speeches vad' = [mk_timestamp 0 (to_int (N * window_size_samples vad))] /\
    speeches (predict_n speech_prob (vad_iterator_reset_states vad) 0 (Z.to_nat N))
    = [].
Proof.
  intros Hw HN Hbuf Hfuel Hp.
  assert (Hq : N * window_size_samples vad / window_size_samples vad = N)
    by (apply Z.div_mul; lia).
  assert (Hrun : predict_n speech_prob (vad_iterator_reset_states vad) 0 (Z.to_nat N)
                 = speaking vad (to_uint (N * to_uint (window_size_samples vad)))).
  { replace (Z.to_nat N) with (S (Z.to_nat (N - 1))) by lia.
    rewrite all_speech_run by (intros i Hi; apply Hp; lia).
    do 3 f_equal. lia. }
  eexists. split; [|split].
  - rewrite lib_process_positive by lia.
    rewrite process_from_reset_runs; rewrite ?Hq; try nia. reflexivity.
  - rewrite Hrun. apply flush_speaking.
  - rewrite Hrun. apply speaking_speeches.
Qed.

(** ** C1: segments are non-empty, ordered and disjoint *)

(** C1, as stated, fails once sample indices leave the range of [int]: on
    2^31 samples of uninterrupted speech, with the configuration of [main],
    the only segment is [(0, INT_MIN)], whose [start] is not below its
    [end]. *)
Lemma segment_end_wraps_past_int_max :
  0 < window_size_samples default_vad /\
  (forall k, is_prob (always_speech k) = true) /\
  exists vad',
    Lib.vad_iterator_process always_speech (Z.to_nat 4194305) default_vad
      2147483648 = Some vad' /\
    speeches vad' = [mk_timestamp 0 (-2147483648)] /\
    ~ Forall (fun ts => start ts < end_ ts) (speeches vad').
Proof.
  split; [reflexivity|]. split; [intros k; reflexivity|].
  destruct (all_speech_process always_speech (Z.to_nat 4194305) default_vad 4194304)
    as (vad' & Hrun & Hseg & _).
  - change (window_size_samples default_vad) with 512. unfold INT_MAX. lia.
  - lia.
  - change (window_size_samples default_vad) with 512. unfold SIZE_MAX. lia.
  - lia.
  - intros i _. reflexivity.
  - change (window_size_samples default_vad) with 512 in Hrun, Hseg.
    change (4194304 * 512) with 2147483648 in Hrun, Hseg.
    exists vad'. split; [exact Hrun|]. split; [exact Hseg|].
    rewrite Hseg. intros Hall. inversion Hall as [|? ? Hlt _]; subst.
    cbn in Hlt. discriminate Hlt.
Qed.

(** C1 (amended).  For every configuration with a positive window size and
    every stream of classifier answers, a run over at most [INT_MAX]
    samples returns, and in the segment list it leaves (every segment
    pushed during the run, the flush included) each segment has
    [start < end], the segments are in non-decreasing order of [start], and
    no two of them overlap. *)
Theorem segments_ordered_disjoint speech_prob fuel vad L :
  0 < window_size_samples vad <= INT_MAX ->
  0 <= L <= INT_MAX ->
  L / window_size_samples vad < Z.of_nat fuel ->
  exists vad',
    Lib.vad_iterator_process speech_prob fuel vad L = Some vad' /\
    Forall (fun ts => start ts < end_ ts) (speeches vad') /\
    StronglySorted (fun a b => start a <= start b) (speeches vad') /\
    StronglySorted (fun a b => end_ a <= start b) (speeches vad').
Proof.
  intros Hw HL Hfuel.
  destruct (process_segments speech_prob fuel vad L Hw HL Hfuel)
    as (vad' & Hrun & Hok & Hsort & _).
  exists vad'. split; [exact Hrun|]. split; [|split].
  - revert Hok. apply Forall_impl. unfold segment_ok. intros ts H. lia.
  - eapply precedes_sorted_by_start; eassumption.
  - exact Hsort.
Qed.

Lemma segments_ordered_disjoint_witness :
  exists vad',
    Lib.vad_iterator_process speech_then_silence 21 default_vad 10240
    = Some vad' /\
    Forall (fun ts => start ts < end_ ts) (speeches vad') /\
    StronglySorted (fun a b => start a <= start b) (speeches vad') /\
    StronglySorted (fun a b => end_ a <= start b) (speeches vad').
Proof.
  apply (segments_ordered_disjoint speech_then_silence 21 default_vad 10240).
  - vm_compute. split; [reflexivity | discriminate].
  - vm_compute. split; discriminate.
  - vm_compute. reflexivity.
Defined.

(** ** C2: the duration cap *)

(** C2, as stated, fails: with a cap of one second (14528 samples after
    the deductions of [vad_iterator_init]) and 40 windows of uninterrupted
    speech, the open candidate is longer than the cap from the 29th window
    on, and yet no segment is emitted at any of the 40 steps; the only
    segment is the one of the end-of-stream flush. *)
Lemma sustained_speech_is_never_cut :
  let st := fun n =>
    predict_n always_speech (vad_iterator_reset_states capped_vad) 0 n in
  (forall k, f32_ge (always_speech k) (threshold capped_vad) = true) /\
  f32_gt (f32_of_int (to_int (uint_sub (current_sample (st 29%nat))
                                        (start (current_speech (st 29%nat))))))
         (max_speech_samples capped_vad) = true /\
  forallb (fun n => no_segment (st n)) (seq 0 41) = true /\
  segments_of (Lib.vad_iterator_process always_speech 41 capped_vad 20480)
  = [(0, 20480)].
Proof.
  cbv zeta. split; [intros k; reflexivity|].
  split; [vm_compute; reflexivity|].
  split; vm_compute; reflexivity.
Qed.

(** C2 (amended).  The duration cap is examined only on a window whose
    probability is below the threshold.  In a run whose probability stays
    at or above the threshold on every window, no forced boundary is
    emitted and the candidate opened at sample 0 stays open: after every
    number of steps the segment list is empty and the engine is triggered
    with [current_speech.start = 0], whatever [max_speech_samples] is, and
    the segment of the run is the one the end-of-stream flush appends.  A
    single window at or above the threshold never emits a segment, whatever
    the duration of the open candidate; on a window below the threshold, if
    the engine is triggered and the duration
    [current_sample - current_speech.start] (cursor already advanced)
    exceeds [max_speech_samples], exactly one segment is emitted at that
    step, from [current_speech.start] to [prev_end] when [prev_end > 0] and
    to [current_sample] otherwise. *)
Theorem duration_cap_needs_a_drop speech_prob vad p n L :
  let cs := uint_add (current_sample vad) (window_size_samples vad) in
  let s := start (current_speech vad) in
  let st := predict_n speech_prob (vad_iterator_reset_states vad) 0 (S n) in
  ((forall i, 0 <= i <= Z.of_nat n ->
              f32_ge (speech_prob i) (threshold vad) = true) ->
   speeches st = [] /\ triggered st = true /\
   start (current_speech st) = 0 /\
   speeches (end_of_stream_flush st L) = [mk_timestamp 0 (to_int L)]) /\
  (f32_ge p (threshold vad) = true ->
   speeches (vad_predict vad p) = speeches vad) /\
  (f32_ge p (threshold vad) = false ->
   triggered vad = true ->
   f32_gt (f32_of_int (to_int (uint_sub cs s))) (max_speech_samples vad) = true ->
   speeches (vad_predict vad p)
   = speeches vad
     ++ [mk_timestamp s (if prev_end vad >? 0 then prev_end vad else to_int cs)]).
Proof.
  cbv zeta. split; [|split].
  - intros Hrun. rewrite (all_speech_run speech_prob vad n Hrun).
    rewrite flush_speaking. destruct_vad vad. repeat split; reflexivity.
  - apply vad_predict_speech_no_push.
  - intros Hp Ht Hcap. destruct_vad vad.
    cbn [threshold triggered current_sample window_size_samples current_speech
         start max_speech_samples speeches prev_end] in *. subst trg.
    remember (vad_predict _ p) as v eqn:Hv.
    predict_unfold_in Hv. rewrite Hp, Hcap in Hv.
    destruct (pe >? 0); split_tests_in Hv; subst v; reflexivity.
Qed.

Lemma duration_cap_needs_a_drop_witness :
  let vad := predict_n always_speech (vad_iterator_reset_states capped_vad) 0 40 in
  (speeches vad = [] /\ triggered vad = true /\
   start (current_speech vad) = 0 /\
   speeches (end_of_stream_flush vad 20480) = [mk_timestamp 0 (to_int 20480)]) /\
  speeches (vad_predict vad f32_0_9) = speeches vad /\
  speeches (vad_predict vad f32_0_4) = speeches vad ++ [mk_timestamp 0 20992].
Proof.
  cbv zeta.
  destruct (duration_cap_needs_a_drop always_speech capped_vad f32_0_9 39 20480)
    as [Hrun _].
  destruct (duration_cap_needs_a_drop always_speech
              (predict_n always_speech (vad_iterator_reset_states capped_vad) 0 40)
              f32_0_9 0 0) as (_ & Hspeech & _).
  destruct (duration_cap_needs_a_drop always_speech
              (predict_n always_speech (vad_iterator_reset_states capped_vad) 0 40)
              f32_0_4 0 0) as (_ & _ & Hdrop).
  split; [|split].
  - apply Hrun. intros i _. reflexivity.
  - apply Hspeech. vm_compute. reflexivity.
  - apply Hdrop; vm_compute; reflexivity.
Defined.

(** ** C3: closing on confident silence *)

(** C3.  On a window of confident silence ([speech_prob < threshold - 0.15],
    reached because the window is below the threshold and the duration cap
    did not fire) with the engine triggered and
    [current_sample - temp_end >= min_silence_samples], the candidate is
    closed at [temp_end]; if [end - start > min_speech_samples] the segment
    is pushed, [current_speech] becomes [(-1,-1)], [prev_end], [next_start]
    and [temp_end] become 0 and [triggered] false; otherwise nothing is
    pushed and [triggered] and [current_speech.start] stay as they were. *)
Theorem confident_silence_closes vad p :
  let cs := uint_add (current_sample vad) (window_size_samples vad) in
  let te := if temp_end vad =? 0 then cs else temp_end vad in
  let s := start (current_speech vad) in
  let vad' := vad_predict vad p in
  f32_ge p (threshold vad) = false ->
  f32_gt (f32_of_int (to_int (uint_sub cs s))) (max_speech_samples vad) = false ->
  f32_lt p (f32_sub (threshold vad) f32_0_15) = true ->
  triggered vad = true ->
  to_int (uint_sub cs te) >= min_silence_samples vad ->
  end_ (current_speech vad') = (if int_sub (to_int te) s >? min_speech_samples vad
                                then -1 else to_int te) /\
  if int_sub (to_int te) s >? min_speech_samples vad then
    speeches vad' = speeches vad ++ [mk_timestamp s (to_int te)] /\
    current_speech vad' = no_speech /\
    prev_end vad' = 0 /\ next_start vad' = 0 /\ temp_end vad' = 0 /\
    triggered vad' = false
  else
    speeches vad' = speeches vad /\
    triggered vad' = true /\
    start (current_speech vad') = s.
Proof.
  cbv zeta. intros Hp Hcap Hsil Ht Hgap.
  pose proof (f32_lt_not_ge _ _ Hsil) as Hamb.
  destruct_vad vad.
  cbn [threshold triggered current_sample window_size_samples current_speech
       start max_speech_samples speeches prev_end temp_end min_silence_samples
       min_speech_samples] in *. subst trg.
  remember (vad_predict _ p) as v eqn:Hv.
  predict_unfold_in Hv. rewrite Hp, Hcap, Hamb, Hsil in Hv.
  destruct (te =? 0) eqn:Ete; cbv iota in Hgap; predict_unfold_in Hv.
  all: split_test_in Hv.
  all: match type of Hv with
       | context [if (?a >=? ?m) then _ else _] =>
           replace (a >=? m) with true in Hv by (symmetry; apply Z.geb_le; lia)
       end; predict_unfold_in Hv.
  all: match type of Hv with
       | context [if ?b then _ else _] => destruct b
       end; predict_unfold_in Hv; subst v; repeat split.
Qed.

Lemma confident_silence_closes_witness :
  let vad := predict_n speech_then_silence
               (vad_iterator_reset_states default_vad) 0 14 in
  let vad' := vad_predict vad f32_0_1 in
  end_ (current_speech vad') = -1 /\
  speeches vad' = speeches vad ++ [mk_timestamp 0 5632] /\
  current_speech vad' = no_speech /\
  prev_end vad' = 0 /\ next_start vad' = 0 /\ temp_end vad' = 0 /\
  triggered vad' = false.
Proof.
  cbv zeta.
  apply (confident_silence_closes
           (predict_n speech_then_silence
              (vad_iterator_reset_states default_vad) 0 14) f32_0_1).
  - vm_compute. reflexivity.
  - vm_compute. reflexivity.
  - vm_compute. reflexivity.
  - vm_compute. reflexivity.
  - vm_compute. discriminate.
Defined.

(** The second half of C3 on the example of the specification: one speech
    window and then confident silence.  The tentative close finds a
    candidate of 1024 samples, below [min_speech_samples = 4000]; nothing is
    pushed and the engine stays triggered with its start at 0, so the
    candidate is still open at the end of the stream and the flush emits it
    whole. *)
Lemma short_blip_stays_open :
  let vad := predict_n blip (vad_iterator_reset_states default_vad) 0 5 in
  let vad' := vad_predict vad f32_0_1 in
  speeches vad' = [] /\ triggered vad' = true /\
  start (current_speech vad') = 0 /\ end_ (current_speech vad') = 1024 /\
  segments_of (Lib.vad_iterator_process blip 7 default_vad 3072) = [(0, 3072)].
Proof. cbv zeta. repeat split; vm_compute; reflexivity. Qed.

(** A run with two bursts, on 34 windows and 100 trailing samples: ten
    windows of speech, five of silence, ten of speech, three in the
    ambiguous zone and six of silence. *)
Lemma two_bursts_two_segments :
  segments_of
    (Lib.vad_iterator_process
       (probs_of_list (repeat f32_0_9 10 ++ repeat f32_0_1 5 ++ repeat f32_0_9 10
                       ++ repeat f32_0_4 3 ++ repeat f32_0_1 6))
       35 default_vad (34 * 512 + 100))
  = [(0, 5632); (7680, 14848)].
Proof. vm_compute. reflexivity. Qed.

(** ** C4: constant speech *)

(** C4, as stated, fails once [N * window_size_samples] leaves the range of
    [int]: with the configuration of [main] and 2^22 windows of speech the
    one segment is [(0, INT_MIN)], not [(0, 2^31)]. *)
Lemma constant_speech_end_wraps :
  let N := 4194304 in
  let w := window_size_samples default_vad in
  0 < w /\ 1 <= N /\ N * w >= min_speech_samples default_vad /\
  (forall k, f32_ge (always_speech k) (threshold default_vad) = true) /\
  exists vad',
    Lib.vad_iterator_process always_speech (Z.to_nat 4194305) default_vad (N * w)
    = Some vad' /\
    speeches vad' <> [mk_timestamp 0 (N * w)].
Proof.
  cbv zeta. change (window_size_samples default_vad) with 512.
  change (min_speech_samples default_vad) with 4000.
  split; [lia|]. split; [lia|]. split; [lia|]. split; [intros k; reflexivity|].
  destruct (all_speech_process always_speech (Z.to_nat 4194305) default_vad 4194304)
    as (vad' & Hrun & Hseg & _).
  - change (window_size_samples default_vad) with 512. unfold INT_MAX. lia.
  - lia.
  - change (window_size_samples default_vad) with 512. unfold SIZE_MAX. lia.
  - lia.
  - intros i _. reflexivity.
  - change (window_size_samples default_vad) with 512 in Hrun, Hseg.
    exists vad'. split; [exact Hrun|].
    rewrite Hseg. change (4194304 * 512) with 2147483648.
    change (to_int 2147483648) with (-2147483648). discriminate.
Qed.

(** C4 (amended).  For every [N >= 1] with [N * window_size_samples] at most
    [INT_MAX] and every input of exactly [N * window_size_samples] samples
    whose [N] windows are all at or above the threshold, the run emits
    exactly one segment, [(0, N * window_size_samples)].  No step of the
    loop emits anything: the segment comes from the end-of-stream flush,
    which closes the open candidate at the sample count whatever
    [min_speech_samples] is. *)
Theorem constant_speech_single_segment speech_prob fuel vad N :
  0 < window_size_samples vad ->
  1 <= N ->
  N * window_size_samples vad <= INT_MAX ->
  N < Z.of_nat fuel ->
  (forall k, 0 <= k < N -> f32_ge (speech_prob k) (threshold vad) = true) ->
  exists vad',
    Lib.vad_iterator_process speech_prob fuel vad (N * window_size_samples vad)
    = Some vad' /\
    speeches vad' = [mk_timestamp 0 (N * window_size_samples vad)] /\
    speeches (predict_n speech_prob (vad_iterator_reset_states vad) 0 (Z.to_nat N))
    = [].
Proof.
  intros Hw HN Hmax Hfuel Hp.
  destruct (all_speech_process speech_prob fuel vad N)
    as (vad' & Hrun & Hseg & Hloop); try assumption.
  - unfold INT_MAX in *. nia.
  - unfold SIZE_MAX, INT_MAX in *. nia.
  - exists vad'. split; [exact Hrun|]. split; [|exact Hloop].
    rewrite Hseg, to_int_id by (unfold INT_MIN, INT_MAX in *; nia).
    reflexivity.
Qed.

Lemma constant_speech_single_segment_witness :
  exists vad',
    Lib.vad_iterator_process always_speech 4 default_vad
      (3 * window_size_samples default_vad) = Some vad' /\
    speeches vad' = [mk_timestamp 0 (3 * window_size_samples default_vad)] /\
    speeches (predict_n always_speech (vad_iterator_reset_states default_vad) 0
                (Z.to_nat 3)) = [].
Proof.
  apply (constant_speech_single_segment always_speech 4 default_vad 3).
  - vm_compute. reflexivity.
  - lia.
  - vm_compute. discriminate.
  - vm_compute. reflexivity.
  - intros k _. vm_compute. reflexivity.
Defined.

(** ** C5: one step per full window *)

Lemma full_window_offsets_fit w n L :
  0 < w -> Z.of_nat n * w <= L ->
  Forall (fun j => 0 <= j /\ j + w <= L) (full_window_offsets w n).
Proof.
  intros Hw Hn. unfold full_window_offsets. apply Forall_forall.
  intros j Hj. apply in_map_iff in Hj. destruct Hj as (i & <- & Hi).
  apply in_seq in Hi. nia.
Qed.

(** C5.  For an input of [L] samples (a buffer of [L] four-byte floats, so
    [4 * L <= SIZE_MAX]) and a window size [w > 0] (an [int]),
    [vad_iterator_process] (in both versions of the engine) reaches the body
    of its loop at the offsets [0, w, 2w, ...], [floor (L / w)] of them, each
    a full window inside the first [L - L mod w] samples; its result is the
    flush applied to the engine after exactly that many calls of
    [vad_predict], so the trailing [L mod w] samples are never passed to a
    step and nothing else is done about them. *)
Theorem process_steps_on_full_windows speech_prob fuel vad L :
  let w := window_size_samples vad in
  let n := Z.to_nat (L / w) in
  0 < w <= INT_MAX ->
  0 <= L -> 4 * L <= SIZE_MAX ->
  L / w < Z.of_nat fuel ->
  window_offsets fuel w L 0 = Some (full_window_offsets w n) /\
  List.length (full_window_offsets w n) = n /\
  Forall (fun j => 0 <= j /\ j + w <= L - L mod w) (full_window_offsets w n) /\
  Lib.vad_iterator_process speech_prob fuel vad L
  = Some (end_of_stream_flush
            (predict_n speech_prob (vad_iterator_reset_states vad) 0 n) L) /\
  Legacy.vad_iterator_process speech_prob fuel vad L
  = Some (end_of_stream_flush
            (predict_n speech_prob (vad_iterator_reset_states vad) 0 n) L).
Proof.
  cbv zeta. intros Hw HL Hbuf Hfuel.
  destruct (full_windows_fit (window_size_samples vad) L) as [Hq Hfit]; try lia.
  split; [|split; [|split; [|split]]].
  - rewrite window_offsets_runs; rewrite ?Z.sub_0_r; try lia.
    unfold full_window_offsets. do 2 f_equal.
  - unfold full_window_offsets. rewrite length_map, length_seq. reflexivity.
  - apply full_window_offsets_fit; [lia|].
    rewrite Z2Nat.id by lia.
    pose proof (Z.div_mod L (window_size_samples vad)). lia.
  - rewrite lib_process_positive by lia.
    apply process_from_reset_runs; lia.
  - unfold Legacy.vad_iterator_process.
    apply process_from_reset_runs; lia.
Qed.

Lemma process_steps_on_full_windows_witness :
  window_offsets 3 512 1500 0 = Some [0; 512] /\
  List.length (full_window_offsets 512 2) = 2%nat /\
  Forall (fun j => 0 <= j /\ j + 512 <= 1500 - 1500 mod 512)
         (full_window_offsets 512 2) /\
  Lib.vad_iterator_process always_speech 3 default_vad 1500
  = Some (end_of_stream_flush
            (predict_n always_speech (vad_iterator_reset_states default_vad) 0 2)
            1500) /\
  Legacy.vad_iterator_process always_speech 3 default_vad 1500
  = Some (end_of_stream_flush
            (predict_n always_speech (vad_iterator_reset_states default_vad) 0 2)
            1500).
Proof.
  apply (process_steps_on_full_windows always_speech 3 default_vad 1500).
  - vm_compute. split; [reflexivity | discriminate].
  - lia.
  - vm_compute. discriminate.
  - vm_compute. reflexivity.
Defined.

(** ** C6: a zero window size *)

(** The library version: with a zero window size the call returns at once,
    whatever the fuel, without a reset, a step or a flush; the engine, its
    segment list included, is left as it was. *)
Lemma lib_zero_window_returns speech_prob fuel vad L :
  window_size_samples vad = 0 ->
  Lib.vad_iterator_process speech_prob fuel vad L = Some vad.
Proof.
  intros Hw. unfold Lib.vad_iterator_process. rewrite Hw. reflexivity.
Qed.

(** The loop with a zero window size on a non-empty input: [j] stays at 0
    and the exit tests never succeed. *)
Lemma process_loop_zero_window speech_prob fuel :
  forall vad L k,
  window_size_samples vad = 0 -> 0 < L ->
  process_loop speech_prob fuel vad L 0 k = None.
Proof.
  induction fuel as [|fuel IH]; intros vad L k Hw HL; [reflexivity|].
  cbn [process_loop]. rewrite Hw.
  change (size_add 0 0) with 0.
  replace (0 <? L) with true by (symmetry; apply Z.ltb_lt; lia).
  replace (0 >? L) with false by (symmetry; rewrite Z.gtb_ltb; apply Z.ltb_ge; lia).
  apply IH; [|assumption].
  rewrite vad_predict_window. assumption.
Qed.

(** C6, on the older [silero_vad.c].  Its [vad_iterator_process] has no
    guard on the window size: set up with [window_frame_size_ms = 0] and
    given one sample, it enters the loop, calls [vad_predict] at every
    iteration and never leaves, however much fuel it is given. *)
Theorem legacy_zero_window_never_returns :
  window_size_samples legacy_zero_window = 0 /\
  forall speech_prob fuel,
    Legacy.vad_iterator_process speech_prob fuel legacy_zero_window 1 = None.
Proof.
  split; [reflexivity|]. intros speech_prob fuel.
  unfold Legacy.vad_iterator_process, process_from_reset.
  rewrite process_loop_zero_window; [reflexivity | reflexivity | lia].
Qed.

(** ** C7: the context length *)

(** The library version: 64 samples at 16 kHz, 32 at 8 kHz, and no other
    rate passes the validation. *)
Lemma lib_context_samples path sr wms thr msil pad msp maxs vad :
  Lib.vad_iterator_init path sr wms thr msil pad msp maxs = Some vad ->
  (sr = 16000 /\ context_samples vad = 64) \/
  (sr = 8000 /\ context_samples vad = 32).
Proof.
  unfold Lib.vad_iterator_init. cbv zeta.
  destruct (Lib.is_16k_model path); cbn [andb negb];
    destruct (sr =? 16000) eqn:E16; cbn [andb negb];
    try discriminate.
  - destruct (negb _); [discriminate|].
    intros [= <-]. apply Z.eqb_eq in E16. left. split; [assumption|reflexivity].
  - destruct (negb _); [discriminate|].
    intros [= <-]. apply Z.eqb_eq in E16. left. split; [assumption|reflexivity].
  - destruct (sr =? 8000) eqn:E8; cbn [negb]; try discriminate.
    destruct (negb _); [discriminate|].
    intros [= <-]. apply Z.eqb_eq in E8. right. split; [assumption|reflexivity].
Qed.

(** No step and no run writes [context_samples]. *)
Lemma predict_n_context speech_prob n :
  forall vad k,
  context_samples (predict_n speech_prob vad k n) = context_samples vad.
Proof.
  induction n as [|n IH]; intros vad k; cbn [predict_n]; [reflexivity|].
  rewrite IH. apply vad_predict_config.
Qed.

Lemma process_loop_context speech_prob fuel :
  forall vad L j k vad',
  process_loop speech_prob fuel vad L j k = Some vad' ->
  context_samples vad' = context_samples vad.
Proof.
  induction fuel as [|fuel IH]; intros vad L j k vad' Hrun; [discriminate|].
  cbn [process_loop] in Hrun.
  destruct (j <? L); [|injection Hrun as <-; reflexivity].
  destruct (size_add j (window_size_samples vad) >? L);
    [injection Hrun as <-; reflexivity|].
  apply IH in Hrun. rewrite Hrun. apply vad_predict_config.
Qed.

Lemma lib_process_context speech_prob fuel vad L vad' :
  Lib.vad_iterator_process speech_prob fuel vad L = Some vad' ->
  context_samples vad' = context_samples vad.
Proof.
  unfold Lib.vad_iterator_process, process_from_reset.
  destruct (window_size_samples vad =? 0); [intros [= <-]; reflexivity|].
  destruct (process_loop speech_prob fuel (vad_iterator_reset_states vad) L 0 0)
    as [v|] eqn:Hloop; [|discriminate].
  intros [= <-]. apply process_loop_context in Hloop.
  transitivity (context_samples v).
  - destruct_vad v. predict_unfold. split_tests; reflexivity.
  - rewrite Hloop. destruct_vad vad. reflexivity.
Qed.

(** C7, on the older [silero_vad.c].  Its [vad_iterator_init] accepts a
    sample rate of 8000 Hz and sets [context_samples] to 64, not 32. *)
Theorem legacy_context_samples_at_8k :
  forall wms thr msil pad msp maxs,
  exists vad,
    Legacy.vad_iterator_init 8000 wms thr msil pad msp maxs = Some vad /\
    sample_rate vad = 8000 /\ context_samples vad = 64.
Proof.
  intros wms thr msil pad msp maxs. eexists. split; [reflexivity|].
  split; reflexivity.
Qed.

(** ** C8: the padding is not applied *)

Lemma to_int_range z : INT_MIN <= to_int z <= INT_MAX.
Proof.
  unfold to_int, INT_MIN, INT_MAX.
  pose proof (Z.mod_pos_bound (z + 2147483648) 4294967296). lia.
Qed.

Lemma process_loop_pad speech_prob z fuel :
  forall vad L j k,
  process_loop speech_prob fuel (set_speech_pad_samples vad z) L j k
  = option_map (fun v => set_speech_pad_samples v z)
      (process_loop speech_prob fuel vad L j k).
Proof.
  induction fuel as [|fuel IH]; intros vad L j k; [reflexivity|].
  cbn [process_loop].
  replace (window_size_samples (set_speech_pad_samples vad z))
    with (window_size_samples vad) by (destruct_vad vad; reflexivity).
  destruct (j <? L); [|reflexivity].
  destruct (size_add j (window_size_samples vad) >? L); [reflexivity|].
  rewrite vad_predict_pad. apply IH.
Qed.

Lemma lib_process_pad speech_prob fuel vad z L :
  Lib.vad_iterator_process speech_prob fuel (set_speech_pad_samples vad z) L
  = option_map (fun v => set_speech_pad_samples v z)
      (Lib.vad_iterator_process speech_prob fuel vad L).
Proof.
  unfold Lib.vad_iterator_process, process_from_reset.
  replace (window_size_samples (set_speech_pad_samples vad z))
    with (window_size_samples vad) by (destruct_vad vad; reflexivity).
  destruct (window_size_samples vad =? 0); [reflexivity|].
  replace (vad_iterator_reset_states (set_speech_pad_samples vad z))
    with (set_speech_pad_samples (vad_iterator_reset_states vad) z)
    by (destruct_vad vad; reflexivity).
  rewrite process_loop_pad.
  destruct (process_loop speech_prob fuel (vad_iterator_reset_states vad) L 0 0)
    as [v|]; [|reflexivity].
  cbn [option_map]. f_equal.
  destruct_vad v. predict_unfold. split_tests; reflexivity.
Qed.

Lemma set_speech_pad_samples_speeches vad z :
  speeches (set_speech_pad_samples vad z) = speeches vad.
Proof. destruct_vad vad. reflexivity. Qed.

(** With no duration cap, two set-ups that differ in [speech_pad_ms] give
    engines that differ in [speech_pad_samples] only. *)
Lemma lib_init_pad path sr wms thr msil pad1 pad2 msp :
  Lib.vad_iterator_init path sr wms thr msil pad2 msp f32_infinity
  = option_map (fun v => set_speech_pad_samples v (int_mul (Z.quot sr 1000) pad2))
      (Lib.vad_iterator_init path sr wms thr msil pad1 msp f32_infinity).
Proof.
  assert (Hcap : forall pad, sr = 16000 \/ sr = 8000 ->
            f32_sub (f32_sub (f32_mul (f32_of_int sr) f32_infinity)
                       (f32_of_int (int_mul wms (Z.quot sr 1000))))
                    (f32_of_int (int_mul 2 (int_mul (Z.quot sr 1000) pad)))
            = f32_infinity).
  { intros pad Hsr.
    assert (Hmul : f32_mul (f32_of_int sr) f32_infinity = f32_infinity)
      by (destruct Hsr as [-> | ->]; reflexivity).
    rewrite Hmul.
    rewrite f32_sub_infinity by (apply f32_of_int_finite; apply to_int_range).
    apply f32_sub_infinity. apply f32_of_int_finite. apply to_int_range. }
  unfold Lib.vad_iterator_init. cbv zeta.
  destruct (Lib.is_16k_model path); cbn [andb negb];
    destruct (sr =? 16000) eqn:E16; cbn [andb negb option_map]; try reflexivity.
  - destruct (negb _); [reflexivity|]. cbn [option_map].
    apply Z.eqb_eq in E16. rewrite !Hcap by (left; assumption). reflexivity.
  - destruct (negb _); [reflexivity|]. cbn [option_map].
    apply Z.eqb_eq in E16. rewrite !Hcap by (left; assumption). reflexivity.
  - destruct (sr =? 8000) eqn:E8; cbn [negb option_map]; try reflexivity.
    destruct (negb _); [reflexivity|]. cbn [option_map].
    apply Z.eqb_eq in E8. rewrite !Hcap by (right; assumption). reflexivity.
Qed.

(** C8.  [speech_pad_samples] is set by [vad_iterator_init] and read by
    nothing: a run on an engine whose [speech_pad_samples] has been replaced
    by any other value is the same run, with the same segment list, so every
    boundary comes from the cursor and the markers alone; and two set-ups
    that differ only in [speech_pad_ms], with [max_speech_s] infinite, emit
    the same segment list on the same input and classifier answers. *)
Theorem speech_pad_never_applied :
  (forall speech_prob fuel vad z L,
     Lib.vad_iterator_process speech_prob fuel (set_speech_pad_samples vad z) L
     = option_map (fun v => set_speech_pad_samples v z)
         (Lib.vad_iterator_process speech_prob fuel vad L) /\
     option_map speeches
       (Lib.vad_iterator_process speech_prob fuel (set_speech_pad_samples vad z) L)
     = option_map speeches (Lib.vad_iterator_process speech_prob fuel vad L)) /\
  (forall path sr wms thr msil pad1 pad2 msp speech_prob fuel L,
     option_map speeches
       (init_and_process path sr wms thr msil pad1 msp f32_infinity
          speech_prob fuel L)
     = option_map speeches
         (init_and_process path sr wms thr msil pad2 msp f32_infinity
            speech_prob fuel L)).
Proof.
  assert (Hfield : forall speech_prob fuel vad z L,
    option_map speeches
      (Lib.vad_iterator_process speech_prob fuel (set_speech_pad_samples vad z) L)
    = option_map speeches (Lib.vad_iterator_process speech_prob fuel vad L)).
  { intros speech_prob fuel vad z L. rewrite lib_process_pad.
    destruct (Lib.vad_iterator_process speech_prob fuel vad L) as [v|];
      [|reflexivity].
    cbn [option_map]. rewrite set_speech_pad_samples_speeches. reflexivity. }
  split.
  - intros speech_prob fuel vad z L. split; [apply lib_process_pad | apply Hfield].
  - intros path sr wms thr msil pad1 pad2 msp speech_prob fuel L.
    unfold init_and_process.
    rewrite (lib_init_pad path sr wms thr msil pad1 pad2 msp).
    destruct (Lib.vad_iterator_init path sr wms thr msil pad1 msp f32_infinity)
      as [v|]; [|reflexivity].
    cbn [option_map]. symmetry. apply Hfield.
Qed.

(** ** C9: triggered if and only if a candidate is open *)

Lemma reset_fields vad :
  triggered (vad_iterator_reset_states vad) = false /\
  current_sample (vad_iterator_reset_states vad) = 0 /\
  threshold (vad_iterator_reset_states vad) = threshold vad.
Proof. destruct_vad vad. repeat split. Qed.

(** The engine of [main] after 2^22 windows of silence: only the cursor has
    moved, to 2^31. *)
Lemma silent_until_int_max speech_prob :
  (forall i, 0 <= i < 4194304 -> speech_prob i = f32_0_1) ->
  predict_n speech_prob (vad_iterator_reset_states default_vad) 0
    (Z.to_nat 4194304)
  = set_current_sample (vad_iterator_reset_states default_vad) 2147483648.
Proof.
  intros Hp.
  destruct (reset_fields default_vad) as (Ht & Hcs & Hthr).
  rewrite idle_run.
  - rewrite Hcs, reset_window, Z2Nat.id by lia. reflexivity.
  - exact Ht.
  - rewrite Hcs. lia.
  - intros i Hi. rewrite Z2Nat.id in Hi by lia. rewrite Hp by lia. reflexivity.
Qed.

(** C9, as stated, fails once the cursor passes [INT_MAX]: with the
    configuration of [main], after 2^22 windows of silence and one window of
    speech the engine is triggered, and [current_speech.start], the [int]
    reading of 2^31, is negative.  The flush, which tests the start, then
    does nothing although a candidate is open. *)
Lemma late_trigger_has_negative_start :
  let st := predict_n speech_after_int_max
              (vad_iterator_reset_states default_vad) 0 (Z.to_nat 4194305) in
  0 < window_size_samples default_vad /\
  triggered st = true /\
  start (current_speech st) = -2147483648 /\
  ~ (triggered st = true <-> 0 <= start (current_speech st)) /\
  end_of_stream_flush st 2147484160 = st.
Proof.
  cbv zeta.
  assert (Hs : forall i, 0 <= i < 4194304 -> speech_after_int_max i = f32_0_1).
  { intros i Hi. unfold speech_after_int_max.
    replace (i <? 4194304) with true by (symmetry; apply Z.ltb_lt; lia).
    reflexivity. }
  pose proof (silent_until_int_max speech_after_int_max Hs) as Hsilent.
  replace (Z.to_nat 4194305) with (Z.to_nat 4194304 + 1)%nat by lia.
  rewrite predict_n_app. rewrite Hsilent.
  rewrite Z2Nat.id by lia.
  split; [reflexivity|]. split; [vm_compute; reflexivity|].
  split; [vm_compute; reflexivity|].
  split; [|vm_compute; reflexivity].
  intros [Hpos _]. vm_compute in Hpos. specialize (Hpos eq_refl).
  apply Hpos. reflexivity.
Qed.

(** C9 (amended).  Throughout every run over at most [INT_MAX] samples on
    an engine with a positive window size, after the reset and after each
    of the [floor (L / w)] steps, [triggered] is true if and only if
    [current_speech.start >= 0]; so the flush does nothing when the engine
    is not triggered and emits the open candidate, closed at [L], when it
    is. *)
Theorem triggered_iff_candidate_open speech_prob vad L n :
  let st := predict_n speech_prob (vad_iterator_reset_states vad) 0 n in
  0 < window_size_samples vad <= INT_MAX ->
  0 <= L <= INT_MAX ->
  Z.of_nat n <= L / window_size_samples vad ->
  (triggered st = true <-> 0 <= start (current_speech st)) /\
  (triggered st = false -> end_of_stream_flush st L = st) /\
  (triggered st = true ->
   speeches (end_of_stream_flush st L)
   = speeches st ++ [mk_timestamp (start (current_speech st)) L]).
Proof.
  cbv zeta. intros Hw HL Hn.
  destruct (full_windows_fit (window_size_samples vad) L) as [Hq Hfit]; try lia.
  assert (Hinv : engine_inv (window_size_samples vad) L
                   (predict_n speech_prob (vad_iterator_reset_states vad) 0 n)).
  { apply predict_n_inv; try lia.
    - apply reset_inv; [reflexivity | lia].
    - destruct (reset_fields vad) as (_ & -> & _). nia. }
  destruct (predict_n speech_prob (vad_iterator_reset_states vad) 0 n)
    as [sr spm w0 ews ctx szs thr msil msilmax mspeech maxsp pad
        trg te cs pe ns [s e] segs].
  unfold engine_inv in Hinv.
  cbn [window_size_samples current_sample current_speech start triggered
       temp_end prev_end next_start speeches] in Hinv.
  destruct Hinv as (_ & _ & _ & Htrg & _).
  cbn [triggered current_speech start speeches].
  split; [exact Htrg|]. split.
  - intros ->. predict_unfold.
    replace (s >=? 0) with false; [reflexivity|].
    symmetry. rewrite Z.geb_leb. apply Z.leb_gt.
    destruct (Z.lt_ge_cases s 0) as [Hneg|Hpos]; [assumption|].
    apply Htrg in Hpos. discriminate.
  - intros ->. predict_unfold.
    replace (s >=? 0) with true
      by (symmetry; apply Z.geb_le; apply Htrg; reflexivity).
    rewrite to_int_id by (unfold INT_MIN, INT_MAX in *; lia). reflexivity.
Qed.

Lemma triggered_iff_candidate_open_witness :
  let st := predict_n speech_then_silence
              (vad_iterator_reset_states default_vad) 0 12 in
  (triggered st = true <-> 0 <= start (current_speech st)) /\
  (triggered st = false -> end_of_stream_flush st 6144 = st) /\
  (triggered st = true ->
   speeches (end_of_stream_flush st 6144)
   = speeches st ++ [mk_timestamp (start (current_speech st)) 6144]).
Proof.
  apply (triggered_iff_candidate_open speech_then_silence default_vad 6144 12).
  - vm_compute. split; [reflexivity | discriminate].
  - vm_compute. split; discriminate.
  - vm_compute. discriminate.
Defined.

(** ** C10: segments lie within the input *)

(** C10, as stated, fails once the cursor passes [INT_MAX]: with the
    configuration of [main], a burst of ten speech windows that begins at
    sample 2^31 is emitted as a segment whose start is [INT_MIN]. *)
Lemma late_segment_has_negative_start :
  0 < window_size_samples default_vad /\
  segments_of
    (Lib.vad_iterator_process burst_after_int_max (Z.to_nat 4194320)
       default_vad 2147491328)
  = [(-2147483648, -2147478016)] /\
  ~ Forall (fun se => 0 <= fst se)
      (segments_of
         (Lib.vad_iterator_process burst_after_int_max (Z.to_nat 4194320)
            default_vad 2147491328)).
Proof.
  assert (Hs : forall i, 0 <= i < 4194304 -> burst_after_int_max i = f32_0_1).
  { intros i Hi. unfold burst_after_int_max.
    replace (i <? 4194304) with true by (symmetry; apply Z.ltb_lt; lia).
    reflexivity. }
  pose proof (silent_until_int_max burst_after_int_max Hs) as Hsilent.
  assert (Hrun : segments_of
    (Lib.vad_iterator_process burst_after_int_max (Z.to_nat 4194320)
       default_vad 2147491328)
    = [(-2147483648, -2147478016)]).
  { rewrite lib_process_positive by reflexivity.
    rewrite process_from_reset_runs.
    - change (window_size_samples default_vad) with 512.
      change (2147491328 / 512) with 4194319.
      replace (Z.to_nat 4194319) with (Z.to_nat 4194304 + 15)%nat by lia.
      rewrite predict_n_app. rewrite Hsilent.
      rewrite Z2Nat.id by lia. vm_compute. reflexivity.
    - change (window_size_samples default_vad) with 512. unfold INT_MAX. lia.
    - lia.
    - unfold SIZE_MAX. lia.
    - change (window_size_samples default_vad) with 512.
      change (2147491328 / 512) with 4194319. lia. }
  split; [reflexivity|]. split; [exact Hrun|].
  rewrite Hrun. intros Hall. inversion Hall as [|? ? Hneg _]; subst.
  cbn in Hneg. apply Hneg. reflexivity.
Qed.

(** C10 (amended).  For every input of [L <= INT_MAX] samples and every
    window size [w > 0] the run returns, and every segment it emits has a
    start that is a non-negative multiple of [w] and an end that is at most
    [L]. *)
Theorem segments_within_input speech_prob fuel vad L :
  0 < window_size_samples vad <= INT_MAX ->
  0 <= L <= INT_MAX ->
  L / window_size_samples vad < Z.of_nat fuel ->
  exists vad',
    Lib.vad_iterator_process speech_prob fuel vad L = Some vad' /\
    Forall (fun ts => 0 <= start ts /\
                      (window_size_samples vad | start ts) /\
                      end_ ts <= L) (speeches vad').
Proof.
  intros Hw HL Hfuel.
  destruct (process_segments speech_prob fuel vad L Hw HL Hfuel)
    as (vad' & Hrun & Hok & _ & Hend).
  exists vad'. split; [exact Hrun|].
  apply Forall_forall. intros ts Hts.
  rewrite Forall_forall in Hok, Hend.
  specialize (Hok ts Hts). specialize (Hend ts Hts).
  unfold segment_ok in Hok. tauto.
Qed.

Lemma segments_within_input_witness :
  exists vad',
    Lib.vad_iterator_process speech_then_silence 21 default_vad 10300
    = Some vad' /\
    Forall (fun ts => 0 <= start ts /\
                      (window_size_samples default_vad | start ts) /\
                      end_ ts <= 10300) (speeches vad').
Proof.
  apply (segments_within_input speech_then_silence 21 default_vad 10300).
  - vm_compute. split; [reflexivity | discriminate].
  - vm_compute. split; discriminate.
  - vm_compute. reflexivity.
Defined.

(** ** More on single steps *)

(** A step changes nothing that the reset does not overwrite. *)
Lemma vad_predict_reset vad p :
  vad_iterator_reset_states (vad_predict vad p) = vad_iterator_reset_states vad.
Proof.
  destruct_vad vad.
  remember (vad_predict _ p) as v eqn:Hv.
  predict_unfold_in Hv. split_tests_in Hv.
  all: subst v; reflexivity.
Qed.

Lemma flush_reset vad L :
  vad_iterator_reset_states (end_of_stream_flush vad L)
  = vad_iterator_reset_states vad.
Proof. destruct_vad vad. predict_unfold. split_tests; reflexivity. Qed.

Lemma reset_reset vad :
  vad_iterator_reset_states (vad_iterator_reset_states vad)
  = vad_iterator_reset_states vad.
Proof. destruct_vad vad. reflexivity. Qed.

Lemma process_loop_reset speech_prob fuel :
  forall vad L j k vad',
  process_loop speech_prob fuel vad L j k = Some vad' ->
  vad_iterator_reset_states vad' = vad_iterator_reset_states vad.
Proof.
  induction fuel as [|fuel IH]; intros vad L j k vad' Hrun; [discriminate|].
  cbn [process_loop] in Hrun.
  destruct (j <? L); [|injection Hrun as <-; reflexivity].
  destruct (size_add j (window_size_samples vad) >? L);
    [injection Hrun as <-; reflexivity|].
  apply IH in Hrun. rewrite Hrun. apply vad_predict_reset.
Qed.

Lemma vad_predict_cursor vad p :
  current_sample (vad_predict vad p)
  = uint_add (current_sample vad) (window_size_samples vad).
Proof.
  destruct_vad vad. cbn [current_sample window_size_samples].
  remember (vad_predict _ p) as v eqn:Hv.
  predict_unfold_in Hv. split_tests_in Hv.
  all: subst v; reflexivity.
Qed.

Lemma f32_nan_compare x :
  f32_ge S754_nan x = false /\ f32_ge x S754_nan = false /\
  f32_lt S754_nan x = false /\ f32_lt x S754_nan = false.
Proof. destruct x as [s|s| |s m e]; repeat split. Qed.

Lemma f32_gt_infinity x : f32_gt x f32_infinity = false.
Proof. destruct x as [[|]|[|]| |[|] m e]; reflexivity. Qed.

(** ** X1: an input shorter than one window *)

(** X1.  On an input shorter than one window, the empty input included,
    [vad_iterator_process] makes no step and returns with an empty segment
    list, whatever the engine held before. *)
Theorem short_input_no_segments speech_prob fuel vad L :
  0 < window_size_samples vad <= INT_MAX ->
  0 <= L < window_size_samples vad ->
  (0 < fuel)%nat ->
  exists vad',
    Lib.vad_iterator_process speech_prob fuel vad L = Some vad' /\
    vad' = vad_iterator_reset_states vad /\
    speeches vad' = [].
Proof.
  intros Hw HL Hfuel. eexists. split; [|split].
  - rewrite lib_process_positive by lia.
    rewrite process_from_reset_runs;
      rewrite ?Z.div_small; unfold SIZE_MAX, INT_MAX in *; try lia.
    reflexivity.
  - destruct_vad vad. reflexivity.
  - destruct_vad vad. reflexivity.
Qed.

Lemma short_input_no_segments_witness :
  exists vad',
    Lib.vad_iterator_process always_speech 1 (speaking default_vad 5120) 511
    = Some vad' /\
    vad' = vad_iterator_reset_states (speaking default_vad 5120) /\
    speeches vad' = [].
Proof.
  apply (short_input_no_segments always_speech 1 (speaking default_vad 5120) 511).
  - vm_compute. split; [reflexivity | discriminate].
  - vm_compute. split; [discriminate | reflexivity].
  - apply Nat.lt_0_1.
Defined.

(** ** X2: a stream that never reaches the threshold *)

(** X2.  If no window of the input reaches the threshold, the run emits no
    segment, whatever the length of the input (wrap-around of the cursor
    included) and whatever the other parameters. *)
Theorem below_threshold_no_segments speech_prob fuel vad L :
  0 < window_size_samples vad <= INT_MAX ->
  0 <= L -> 4 * L <= SIZE_MAX ->
  L / window_size_samples vad < Z.of_nat fuel ->
  (forall k, 0 <= k < L / window_size_samples vad ->
             f32_ge (speech_prob k) (threshold vad) = false) ->
  exists vad',
    Lib.vad_iterator_process speech_prob fuel vad L = Some vad' /\
    speeches vad' = [] /\ triggered vad' = false.
Proof.
  intros Hw HL Hbuf Hfuel Hp.
  destruct (full_windows_fit (window_size_samples vad) L) as [Hq _]; try lia.
  destruct (reset_fields vad) as (Ht & Hcs & Hthr).
  eexists. split.
  - rewrite lib_process_positive by lia.
    apply process_from_reset_runs; lia.
  - rewrite idle_run.
    + destruct_vad vad. predict_unfold. split; reflexivity.
    + exact Ht.
    + rewrite Hcs. lia.
    + intros i Hi. rewrite Hthr. apply Hp. lia.
Qed.

Lemma below_threshold_no_segments_witness :
  exists vad',
    Lib.vad_iterator_process (fun _ => f32_0_4) 21 default_vad 10240 = Some vad' /\
    speeches vad' = [] /\ triggered vad' = false.
Proof.
  apply (below_threshold_no_segments (fun _ => f32_0_4) 21 default_vad 10240).
  - vm_compute. split; [reflexivity | discriminate].
  - discriminate.
  - vm_compute. discriminate.
  - vm_compute. reflexivity.
  - intros k _. vm_compute. reflexivity.
Defined.

(** ** X3: a run does not depend on the run before *)

(** X3.  Whatever [vad_iterator_process] left in the engine, the next call
    behaves as it would have on the engine before that run: only the
    configuration is carried over. *)
Theorem process_forgets_previous_run :
  forall speech_prob1 fuel1 L1 speech_prob2 fuel2 L2 vad vad1,
  Lib.vad_iterator_process speech_prob1 fuel1 vad L1 = Some vad1 ->
  Lib.vad_iterator_process speech_prob2 fuel2 vad1 L2
  = Lib.vad_iterator_process speech_prob2 fuel2 vad L2.
Proof.
  intros sp1 fuel1 L1 sp2 fuel2 L2 vad vad1 Hrun.
  unfold Lib.vad_iterator_process in Hrun.
  destruct (window_size_samples vad =? 0) eqn:Ew.
  - injection Hrun as <-. reflexivity.
  - unfold process_from_reset in Hrun.
    destruct (process_loop sp1 fuel1 (vad_iterator_reset_states vad) L1 0 0)
      as [v|] eqn:Hloop; [|discriminate].
    injection Hrun as <-.
    apply process_loop_reset in Hloop. rewrite reset_reset in Hloop.
    assert (Hreset : vad_iterator_reset_states (end_of_stream_flush v L1)
                     = vad_iterator_reset_states vad)
      by (rewrite flush_reset; exact Hloop).
    assert (Hwin : window_size_samples (end_of_stream_flush v L1)
                   = window_size_samples vad)
      by (rewrite <- (reset_window (end_of_stream_flush v L1)), Hreset;
          apply reset_window).
    unfold Lib.vad_iterator_process, process_from_reset.
    rewrite Hwin, Hreset, Ew. reflexivity.
Qed.

Lemma process_forgets_previous_run_witness :
  Lib.vad_iterator_process speech_then_silence 21
    (end_of_stream_flush
       (predict_n always_speech (vad_iterator_reset_states default_vad) 0 2) 1500)
    10240
  = Lib.vad_iterator_process speech_then_silence 21 default_vad 10240.
Proof.
  apply (process_forgets_previous_run always_speech 3 1500
           speech_then_silence 21 10240 default_vad).
  vm_compute. reflexivity.
Defined.

(** ** X4: emitted segments are final *)

Lemma predict_n_appends speech_prob m :
  forall vad k,
  exists l,
    speeches (predict_n speech_prob vad k m) = speeches vad ++ l /\
    (List.length l <= m)%nat.
Proof.
  induction m as [|m IH]; intros vad k.
  - exists []. split; [symmetry; apply app_nil_r | apply Nat.le_refl].
  - cbn [predict_n].
    destruct (IH (vad_predict vad (speech_prob k)) (k + 1)) as (l & Hl & Hlen).
    destruct (vad_predict_appends vad (speech_prob k)) as [Hsame | [ts Hpush]].
    + exists l. rewrite Hl, Hsame. split; [reflexivity | lia].
    + exists (ts :: l). rewrite Hl, Hpush, <- app_assoc. split; [reflexivity|].
      cbn [List.length]. lia.
Qed.

(** X4.  The segment list only grows at its tail, by at most one segment
    per step and at most one more at the flush: what has been emitted after
    [n] steps is still there, unchanged and in place, after [n + m] steps and
    after the flush. *)
Theorem emitted_segments_stay speech_prob vad k n m L :
  exists l l',
    speeches (predict_n speech_prob vad k (n + m))
    = speeches (predict_n speech_prob vad k n) ++ l /\
    (List.length l <= m)%nat /\
    speeches (end_of_stream_flush (predict_n speech_prob vad k (n + m)) L)
    = speeches (predict_n speech_prob vad k n) ++ l ++ l' /\
    (List.length l' <= 1)%nat.
Proof.
  rewrite predict_n_app.
  destruct (predict_n_appends speech_prob m (predict_n speech_prob vad k n)
              (k + Z.of_nat n)) as (l & Hl & Hlen).
  set (st := predict_n speech_prob (predict_n speech_prob vad k n)
               (k + Z.of_nat n) m) in *.
  assert (Hflush : exists l', speeches (end_of_stream_flush st L)
                              = speeches st ++ l' /\ (List.length l' <= 1)%nat).
  { clearbody st. destruct st as [sr spm w0 ews ctx szs thr msil msilmax mspeech
                                  maxsp pad trg te cs0 pe ns [s0 e0] segs].
    predict_unfold. destruct (s0 >=? 0).
    - eexists [_]. split; [reflexivity | apply Nat.le_refl].
    - exists []. split; [symmetry; apply app_nil_r | apply Nat.le_0_l]. }
  destruct Hflush as (l' & Hl' & Hlen').
  exists l, l'. rewrite Hl', Hl, <- app_assoc. repeat split; assumption.
Qed.

(** ** X5: the cursor counts the windows *)

(** X5.  Whatever the classifier answers, after [n] steps from the reset the
    cursor [current_sample] is [n * window_size_samples], modulo 2^32: each
    step advances it by one window and no branch writes it otherwise. *)
Theorem cursor_counts_windows speech_prob vad n :
  current_sample (predict_n speech_prob (vad_iterator_reset_states vad) 0 n)
  = to_uint (Z.of_nat n * window_size_samples vad).
Proof.
  assert (Hgen : forall m v k c,
            current_sample v = to_uint c ->
            current_sample (predict_n speech_prob v k m)
            = to_uint (c + Z.of_nat m * window_size_samples v)).
  { induction m as [|m IH]; intros v k c Hc.
    - cbn [predict_n]. rewrite Hc. f_equal. lia.
    - cbn [predict_n].
      rewrite (IH _ _ (c + window_size_samples v)).
      + rewrite vad_predict_window. f_equal. lia.
      + rewrite vad_predict_cursor, Hc. unfold uint_add, to_uint.
        rewrite Zplus_mod_idemp_l, Zplus_mod_idemp_r. reflexivity. }
  rewrite (Hgen n _ 0 0).
  - rewrite reset_window. reflexivity.
  - destruct_vad vad. reflexivity.
Qed.

(** ** X6: a NaN from the classifier *)

(** X6.  When the classifier answers with a NaN, or the threshold is a NaN,
    none of the probability tests succeeds: unless the duration cap fires
    (its test does not look at the probability), the step only advances the
    cursor; it opens, closes and emits nothing. *)
Theorem nan_only_moves_cursor vad p :
  p = S754_nan \/ threshold vad = S754_nan ->
  triggered vad
  && f32_gt (f32_of_int
               (to_int (uint_sub (uint_add (current_sample vad)
                                           (window_size_samples vad))
                                 (start (current_speech vad)))))
            (max_speech_samples vad) = false ->
  vad_predict vad p
  = set_current_sample vad
      (uint_add (current_sample vad) (window_size_samples vad)).
Proof.
  intros Hnan Hcap. destruct_vad vad.
  cbn [threshold triggered current_sample window_size_samples current_speech
       start max_speech_samples] in *.
  assert (Hge : f32_ge p thr = false)
    by (destruct Hnan as [-> | ->]; apply f32_nan_compare).
  assert (Hlow : f32_sub thr f32_0_15 = S754_nan \/ p = S754_nan).
  { destruct Hnan as [-> | ->]; [right; reflexivity | left; reflexivity]. }
  assert (Hge' : f32_ge p (f32_sub thr f32_0_15) = false)
    by (destruct Hlow as [-> | ->]; apply f32_nan_compare).
  assert (Hlt' : f32_lt p (f32_sub thr f32_0_15) = false)
    by (destruct Hlow as [-> | ->]; apply f32_nan_compare).
  unfold vad_predict.
  cbn [threshold triggered current_sample window_size_samples current_speech
       start max_speech_samples set_current_sample].
  rewrite Hge, Hcap, Hge', Hlt'. reflexivity.
Qed.

Lemma nan_only_moves_cursor_witness :
  vad_predict (speaking default_vad 5120) S754_nan
  = set_current_sample (speaking default_vad 5120)
      (uint_add (current_sample (speaking default_vad 5120))
                (window_size_samples (speaking default_vad 5120))).
Proof.
  apply (nan_only_moves_cursor (speaking default_vad 5120) S754_nan).
  - left. reflexivity.
  - vm_compute. reflexivity.
Defined.

(** ** X7: an engine that is not triggered holds nothing *)

Lemma vad_predict_idle_inv vad p :
  (triggered vad = false -> idle vad) ->
  triggered (vad_predict vad p) = false -> idle (vad_predict vad p).
Proof.
  destruct_vad vad. unfold idle.
  cbn [triggered current_speech temp_end prev_end next_start].
  intros Hidle.
  remember (vad_predict _ p) as v eqn:Hv.
  predict_unfold_in Hv.
  destruct trg.
  - split_tests_in Hv; subst v;
      cbn [triggered current_speech temp_end prev_end next_start];
      intros Ht; try discriminate Ht; repeat split.
  - destruct (Hidle eq_refl) as ([= -> ->] & -> & -> & ->).
    predict_unfold_in Hv.
    split_tests_in Hv; subst v;
      cbn [triggered current_speech temp_end prev_end next_start];
      intros Ht; try discriminate Ht; repeat split.
Qed.

(** X7.  Throughout every run, with no bound on its length, an engine that
    is not triggered has the sentinel [(-1,-1)] as [current_speech] and all
    three markers [temp_end], [prev_end], [next_start] at 0; the
    end-of-stream flush then leaves it as it is. *)
Theorem untriggered_engine_is_idle speech_prob vad n L :
  let st := predict_n speech_prob (vad_iterator_reset_states vad) 0 n in
  triggered st = false ->
  idle st /\ end_of_stream_flush st L = st.
Proof.
  cbv zeta.
  assert (Hgen : forall m v k, (triggered v = false -> idle v) ->
            triggered (predict_n speech_prob v k m) = false ->
            idle (predict_n speech_prob v k m)).
  { induction m as [|m IH]; intros v k Hv; cbn [predict_n]; [exact Hv|].
    apply IH. apply vad_predict_idle_inv. exact Hv. }
  intros Ht.
  assert (Hidle : idle (predict_n speech_prob (vad_iterator_reset_states vad) 0 n)).
  { apply Hgen; [|exact Ht]. intros _. destruct_vad vad. repeat split. }
  split; [exact Hidle|].
  destruct (predict_n speech_prob (vad_iterator_reset_states vad) 0 n)
    as [sr spm w0 ews ctx szs thr msil msilmax mspeech maxsp pad
        trg te cs0 pe ns [s0 e0] segs].
  unfold idle in Hidle. cbn [current_speech] in Hidle.
  destruct Hidle as ([= -> ->] & _). reflexivity.
Qed.

Lemma untriggered_engine_is_idle_witness :
  let st := predict_n speech_then_silence
              (vad_iterator_reset_states default_vad) 0 15 in
  idle st /\ end_of_stream_flush st 7680 = st.
Proof.
  apply (untriggered_engine_is_idle speech_then_silence default_vad 15 7680).
  vm_compute. reflexivity.
Defined.

(** ** X8, X9: without a duration cap *)

Lemma to_int_uint_sub a b :
  0 <= b <= a -> a <= INT_MAX -> to_int (uint_sub a b) = a - b.
Proof.
  intros Hb Ha. rewrite uint_sub_id by lia.
  apply to_int_id. unfold INT_MIN, INT_MAX in *. lia.
Qed.

Lemma int_sub_id a b :
  INT_MIN <= a - b <= INT_MAX -> int_sub a b = a - b.
Proof. apply to_int_id. Qed.

Lemma vad_predict_no_cap_inv w L vad p :
  0 < w -> L <= INT_MAX -> no_cap_inv w L vad ->
  current_sample vad + w <= L ->
  no_cap_inv w L (vad_predict vad p).
Proof.
  intros Hw HL (Hinv & Hmax & Hlong & Hsep & Hgap) Hroom.
  split; [apply vad_predict_inv; assumption|].
  destruct vad as [sr spm w0 ews ctx szs thr msil msilmax mspeech maxsp pad
                   trg te cs pe ns [s e] segs].
  unfold engine_inv in Hinv.
  cbn [window_size_samples current_sample current_speech start triggered
       temp_end prev_end next_start speeches max_speech_samples
       min_speech_samples min_silence_samples] in *.
  destruct Hinv as (-> & Hcs & Hdcs & Htrg & Hst & Hte & Hte' & Hpe & Hpe'
                    & Hns & Hdns & Hns' & Hok & Hsort & Hends).
  subst maxsp.
  assert (Hweak : forall a b, a <= b ->
            Forall (fun ts => end_ ts + msil <= a) segs ->
            Forall (fun ts => end_ ts + msil <= b) segs)
    by (intros a b Hab; apply Forall_impl; intros; lia).
  remember (vad_predict _ p) as v eqn:Hv.
  predict_unfold_in Hv.
  rewrite (uint_add_id cs w) in Hv by lia.
  rewrite f32_gt_infinity in Hv.
  replace (trg && false) with false in Hv by (destruct trg; reflexivity).
  predict_unfold_in Hv.
  destruct trg.
  - assert (Hs0 : 0 <= s) by (apply Htrg; reflexivity).
    destruct (Hst eq_refl) as [Hds Hsw].
    destruct (Z.eq_dec te 0) as [Hte0 | Hte0].
    + subst te. split_tests_in Hv.
      all: subst v;
        cbn [max_speech_samples min_speech_samples min_silence_samples
             speeches triggered current_speech start end_ current_sample].
      all: repeat match goal with
           | H : (_ >=? _) = true |- _ => apply Z.geb_le in H
           | H : (_ >? _) = true |- _ => apply Z.gtb_lt in H
           | H : (_ =? _) = false |- _ => apply Z.eqb_neq in H
           | H : (_ =? _) = true |- _ => clear H
           end.
      all: rewrite ?to_int_uint_sub in * by lia.
      all: rewrite ?(to_int_id (cs + w)) in *
          by (unfold INT_MIN, INT_MAX in *; lia).
      all: rewrite ?int_sub_id in * by (unfold INT_MIN, INT_MAX in *; lia).
      all: repeat split; try reflexivity; try assumption; try lia.
      all: try (apply Forall_app; split; [assumption|]; constructor;
                [unfold longer_than; cbn [start end_]; lia | constructor]).
      all: try (apply StronglySorted_snoc; [assumption|];
                revert Hgap; apply Forall_impl;
                unfold separated; cbn [start end_]; intros; lia).
      all: try (apply Forall_app; split;
                [eapply Hweak; [|eassumption]; lia
                |constructor; [cbn [end_]; lia | constructor]]).
      all: try (eapply Hweak; [|eassumption]; lia).
    + destruct (Hte' Hte0) as [_ Hste].
      split_tests_in Hv.
      all: subst v;
        cbn [max_speech_samples min_speech_samples min_silence_samples
             speeches triggered current_speech start end_ current_sample].
      all: repeat match goal with
           | H : (_ >=? _) = true |- _ => apply Z.geb_le in H
           | H : (_ >? _) = true |- _ => apply Z.gtb_lt in H
           | H : (_ =? _) = false |- _ => apply Z.eqb_neq in H
           | H : (_ =? _) = true |- _ => apply Z.eqb_eq in H
           end.
      all: rewrite ?to_int_uint_sub in * by lia.
      all: rewrite ?(to_int_id te) in * by (unfold INT_MIN, INT_MAX in *; lia).
      all: rewrite ?int_sub_id in * by (unfold INT_MIN, INT_MAX in *; lia).
      all: repeat split; try reflexivity; try assumption; try lia.
      all: try (apply Forall_app; split; [assumption|]; constructor;
                [unfold longer_than; cbn [start end_]; lia | constructor]).
      all: try (apply StronglySorted_snoc; [assumption|];
                revert Hgap; apply Forall_impl;
                unfold separated; cbn [start end_]; intros; lia).
      all: try (apply Forall_app; split;
                [eapply Hweak; [|eassumption]; lia
                |constructor; [cbn [end_]; lia | constructor]]).
      all: try (eapply Hweak; [|eassumption]; lia).
  - split_tests_in Hv.
    all: subst v;
      cbn [max_speech_samples min_speech_samples min_silence_samples
           speeches triggered current_speech start end_ current_sample].
    all: rewrite ?window_start_id by lia.
    all: repeat split; try reflexivity; try assumption.
    all: try (eapply Hweak; [|eassumption]; lia).
Qed.

Lemma predict_n_reset speech_prob n :
  forall vad k,
  vad_iterator_reset_states (predict_n speech_prob vad k n)
  = vad_iterator_reset_states vad.
Proof.
  induction n as [|n IH]; intros vad k; cbn [predict_n]; [reflexivity|].
  rewrite IH. apply vad_predict_reset.
Qed.

Lemma reset_config vad :
  min_silence_samples (vad_iterator_reset_states vad) = min_silence_samples vad /\
  min_speech_samples (vad_iterator_reset_states vad) = min_speech_samples vad /\
  max_speech_samples (vad_iterator_reset_states vad) = max_speech_samples vad.
Proof. destruct_vad vad. repeat split. Qed.

Lemma predict_n_config speech_prob n vad k :
  min_silence_samples (predict_n speech_prob vad k n) = min_silence_samples vad /\
  min_speech_samples (predict_n speech_prob vad k n) = min_speech_samples vad.
Proof.
  destruct (reset_config (predict_n speech_prob vad k n)) as (H1 & H2 & _).
  destruct (reset_config vad) as (H3 & H4 & _).
  rewrite predict_n_reset in H1, H2. split; congruence.
Qed.

Lemma predict_n_no_cap_inv speech_prob w L n :
  forall vad k,
  0 < w -> L <= INT_MAX -> no_cap_inv w L vad ->
  current_sample vad + Z.of_nat n * w <= L ->
  no_cap_inv w L (predict_n speech_prob vad k n).
Proof.
  induction n as [|n IH]; intros vad k Hw HL Hinv Hroom.
  - exact Hinv.
  - cbn [predict_n].
    pose proof (vad_predict_no_cap_inv w L vad (speech_prob k) Hw HL Hinv) as Hstep.
    destruct Hinv as (Hinv & _).
    destruct (vad_predict_inv w L vad (speech_prob k) Hw HL Hinv) as [_ Hcs];
      [nia|].
    apply IH; try assumption; [apply Hstep; nia | rewrite Hcs; nia].
Qed.

(** The engine at the end of the loop of a run without duration cap. *)
Lemma no_cap_run speech_prob vad L :
  0 < window_size_samples vad <= INT_MAX ->
  0 <= L <= INT_MAX ->
  max_speech_samples vad = f32_infinity ->
  no_cap_inv (window_size_samples vad) L
    (predict_n speech_prob (vad_iterator_reset_states vad) 0
       (Z.to_nat (L / window_size_samples vad))).
Proof.
  intros Hw HL Hmax.
  destruct (full_windows_fit (window_size_samples vad) L) as [Hq Hfit]; try lia.
  apply predict_n_no_cap_inv; try lia.
  - split; [apply reset_inv; [reflexivity | lia]|].
    destruct (reset_config vad) as (_ & _ & ->).
    split; [exact Hmax|].
    destruct_vad vad. repeat split; constructor.
  - destruct (reset_fields vad) as (_ & -> & _). rewrite Z2Nat.id by lia. lia.
Qed.

(** X8.  With no duration cap ([max_speech_samples] infinite) and at most
    [INT_MAX] samples, any two segments of a run are separated by at least
    [min_silence_samples] samples: each segment ends at least that far before
    every later one starts. *)
Theorem no_cap_segments_separated speech_prob fuel vad L :
  0 < window_size_samples vad <= INT_MAX ->
  0 <= L <= INT_MAX ->
  L / window_size_samples vad < Z.of_nat fuel ->
  max_speech_samples vad = f32_infinity ->
  exists vad',
    Lib.vad_iterator_process speech_prob fuel vad L = Some vad' /\
    StronglySorted (separated (min_silence_samples vad)) (speeches vad').
Proof.
  intros Hw HL Hfuel Hmax. eexists. split.
  - rewrite lib_process_positive by lia.
    apply process_from_reset_runs; unfold SIZE_MAX, INT_MAX in *; lia.
  - pose proof (no_cap_run speech_prob vad L Hw HL Hmax) as Hinv.
    destruct (predict_n_config speech_prob (Z.to_nat (L / window_size_samples vad))
                (vad_iterator_reset_states vad) 0) as [Hsil _].
    destruct (reset_config vad) as (Hsil' & _). rewrite Hsil' in Hsil.
    destruct (predict_n speech_prob (vad_iterator_reset_states vad) 0
                (Z.to_nat (L / window_size_samples vad)))
      as [sr spm w0 ews ctx szs thr msil msilmax mspeech maxsp pad
          trg te cs pe ns [s e] segs].
    destruct Hinv as (Hinv & _ & _ & Hsep & Hgap).
    unfold engine_inv in Hinv.
    cbn [window_size_samples current_sample current_speech start triggered
         temp_end prev_end next_start speeches min_silence_samples] in *.
    destruct Hinv as (_ & _ & _ & Htrg & _).
    rewrite <- Hsil. predict_unfold.
    destruct (s >=? 0) eqn:Es; cbn [speeches]; [|exact Hsep].
    assert (Ht : trg = true) by (apply Htrg; lia). subst trg.
    apply StronglySorted_snoc; [exact Hsep|].
    revert Hgap. apply Forall_impl. unfold separated. cbn [start end_].
    intros; lia.
Qed.

Lemma no_cap_segments_separated_witness :
  let two_bursts :=
    probs_of_list (repeat f32_0_9 10 ++ repeat f32_0_1 5 ++ repeat f32_0_9 10
                   ++ repeat f32_0_4 3 ++ repeat f32_0_1 6) in
  segments_of (Lib.vad_iterator_process two_bursts 35 default_vad 17508)
  = [(0, 5632); (7680, 14848)] /\
  min_silence_samples default_vad = 1600 /\
  exists vad',
    Lib.vad_iterator_process two_bursts 35 default_vad 17508 = Some vad' /\
    StronglySorted (separated (min_silence_samples default_vad)) (speeches vad').
Proof.
  cbv zeta. split; [vm_compute; reflexivity|]. split; [reflexivity|].
  apply (no_cap_segments_separated
           (probs_of_list (repeat f32_0_9 10 ++ repeat f32_0_1 5
                           ++ repeat f32_0_9 10 ++ repeat f32_0_4 3
                           ++ repeat f32_0_1 6))
           35 default_vad 17508).
  - vm_compute. split; [reflexivity | discriminate].
  - vm_compute. split; discriminate.
  - vm_compute. reflexivity.
  - reflexivity.
Defined.

(** X9.  With no duration cap and at most [INT_MAX] samples, every segment
    emitted inside the loop is longer than [min_speech_samples]; the only
    segment that can be shorter is the one the end-of-stream flush appends,
    from the start of the open candidate to the sample count. *)
Theorem no_cap_segments_long speech_prob fuel vad L :
  let st := predict_n speech_prob (vad_iterator_reset_states vad) 0
              (Z.to_nat (L / window_size_samples vad)) in
  0 < window_size_samples vad <= INT_MAX ->
  0 <= L <= INT_MAX ->
  L / window_size_samples vad < Z.of_nat fuel ->
  max_speech_samples vad = f32_infinity ->
  exists vad',
    Lib.vad_iterator_process speech_prob fuel vad L = Some vad' /\
    Forall (longer_than (min_speech_samples vad)) (speeches st) /\
    (speeches vad' = speeches st \/
     speeches vad' = speeches st ++ [mk_timestamp (start (current_speech st)) L]).
Proof.
  cbv zeta. intros Hw HL Hfuel Hmax. eexists. split.
  - rewrite lib_process_positive by lia.
    apply process_from_reset_runs; unfold SIZE_MAX, INT_MAX in *; lia.
  - pose proof (no_cap_run speech_prob vad L Hw HL Hmax) as Hinv.
    destruct (predict_n_config speech_prob (Z.to_nat (L / window_size_samples vad))
                (vad_iterator_reset_states vad) 0) as [_ Hsp].
    destruct (reset_config vad) as (_ & Hsp' & _). rewrite Hsp' in Hsp.
    destruct (predict_n speech_prob (vad_iterator_reset_states vad) 0
                (Z.to_nat (L / window_size_samples vad)))
      as [sr spm w0 ews ctx szs thr msil msilmax mspeech maxsp pad
          trg te cs pe ns [s e] segs].
    destruct Hinv as (_ & _ & Hlong & _).
    cbn [speeches min_speech_samples current_speech start] in *.
    rewrite <- Hsp. split; [exact Hlong|].
    predict_unfold. destruct (s >=? 0); cbn [speeches].
    + right. rewrite to_int_id by (unfold INT_MIN, INT_MAX in *; lia).
      reflexivity.
    + left. reflexivity.
Qed.

Lemma no_cap_segments_long_witness :
  let st := predict_n blip (vad_iterator_reset_states default_vad) 0
              (Z.to_nat (3072 / window_size_samples default_vad)) in
  exists vad',
    Lib.vad_iterator_process blip 7 default_vad 3072 = Some vad' /\
    Forall (longer_than (min_speech_samples default_vad)) (speeches st) /\
    (speeches vad' = speeches st \/
     speeches vad' = speeches st ++ [mk_timestamp (start (current_speech st)) 3072]).
Proof.
  apply (no_cap_segments_long blip 7 default_vad 3072).
  - vm_compute. split; [reflexivity | discriminate].
  - vm_compute. split; discriminate.
  - vm_compute. reflexivity.
  - reflexivity.
Defined.

(** ** X10: the sample rates [vad_iterator_init] accepts *)

(** X10.  When the library [vad_iterator_init] returns true, the sample rate
    is 16000 Hz, or 8000 Hz with a model path that does not contain
    ["16k"]; [context_samples] is 64 or 32 accordingly; the sum
    [window_size_samples + context_samples] has not wrapped and is not
    negative, since a negative [effective_window_size] makes the [calloc] of
    [input_buffer] fail; the engine is in its reset state; and with a
    positive window size the zero-filled blocks have the sizes the copies of
    [vad_predict] rely on. *)
Theorem lib_init_allocates path sr wms thr msil pad msp maxs vad :
  Lib.vad_iterator_init path sr wms thr msil pad msp maxs = Some vad ->
  (sr = 16000 /\ context_samples vad = 64 \/
   sr = 8000 /\ Lib.is_16k_model path = false /\ context_samples vad = 32) /\
  sample_rate vad = sr /\
  window_size_samples vad = int_mul wms (Z.quot sr 1000) /\
  0 <= effective_window_size vad <= INT_MAX /\
  effective_window_size vad = window_size_samples vad + context_samples vad /\
  vad_iterator_reset_states vad = vad /\
  (0 < window_size_samples vad -> Buffers.buffers_ok vad (Buffers.allocated vad)).
Proof.
  unfold Lib.vad_iterator_init. cbv zeta.
  assert (Hrate : sr = 16000 \/ sr = 8000 /\ Lib.is_16k_model path = false \/
                  (Lib.is_16k_model path && negb (sr =? 16000)
                   || negb (Lib.is_16k_model path) && negb (sr =? 16000)
                      && negb (sr =? 8000)) = true).
  { destruct (Lib.is_16k_model path); cbn [andb negb orb];
      destruct (Z.eqb_spec sr 16000); cbn [negb andb]; auto;
      destruct (Z.eqb_spec sr 8000); cbn [negb]; auto. }
  destruct (Lib.is_16k_model path && negb (sr =? 16000)) eqn:E1; [discriminate|].
  destruct (negb (Lib.is_16k_model path) && negb (sr =? 16000) && negb (sr =? 8000))
    eqn:E2; [discriminate|].
  rewrite ?E1, ?E2 in Hrate. cbn [orb] in Hrate.
  set (ctx := if sr =? 16000 then 64 else 32).
  set (w := int_mul wms (Z.quot sr 1000)).
  assert (Hctx : sr = 16000 /\ ctx = 64 \/
                 sr = 8000 /\ Lib.is_16k_model path = false /\ ctx = 32).
  { unfold ctx. destruct Hrate as [Hr | [[Hr Hm] | H]];
      [left | right | discriminate H]; rewrite Hr; repeat split; auto. }
  match goal with
  | |- context [if negb ?c then _ else _] => destruct c eqn:Ealloc
  end; cbn [negb]; [|discriminate].
  apply andb_prop in Ealloc as [_ Ebuf].
  unfold Lib.calloc_ok in Ebuf. apply Z.leb_le in Ebuf.
  assert (Hw : INT_MIN <= w <= INT_MAX) by apply to_int_range.
  pose proof (to_int_range (w + ctx)) as He.
  assert (Hc : ctx = 64 \/ ctx = 32) by (destruct Hctx as [[_ ->]|(_ & _ & ->)]; auto).
  assert (Hpos : 0 <= to_int (w + ctx)).
  { destruct (Z.lt_ge_cases (to_int (w + ctx)) 0) as [Hneg|]; [exfalso|assumption].
    unfold to_size, SIZE_MAX, INT_MIN in *.
    replace (to_int (w + ctx) mod 18446744073709551616)
      with (to_int (w + ctx) + 18446744073709551616) in Ebuf
      by (apply Z.mod_unique with (-1); lia).
    lia. }
  assert (Hsum : to_int (w + ctx) = w + ctx).
  { destruct (Z.le_gt_cases (w + ctx) INT_MAX) as [Hle|Hgt].
    - apply to_int_id. unfold INT_MIN, INT_MAX in *. lia.
    - exfalso. unfold to_int, INT_MIN, INT_MAX in *.
      replace ((w + ctx + 2147483648) mod 4294967296)
        with (w + ctx + 2147483648 - 4294967296) in Hpos
        by (apply Z.mod_unique with 1; lia).
      lia. }
  intros [= <-].
  cbn [sample_rate context_samples window_size_samples effective_window_size].
  split; [exact Hctx|]. split; [reflexivity|]. split; [reflexivity|].
  split; [lia|]. split; [exact Hsum|]. split; [reflexivity|].
  intros Hwin. unfold Buffers.buffers_ok, Buffers.allocated, Buffers.zeros.
  cbn [Buffers.context Buffers.state Buffers.input_buffer
       context_samples window_size_samples effective_window_size size_state].
  rewrite !repeat_length. fold w ctx.
  repeat split; try lia.
Qed.

Lemma lib_init_allocates_witness :
  (16000 = 16000 /\ context_samples default_vad = 64 \/
   16000 = 8000 /\ Lib.is_16k_model "silero_vad.onnx" = false
   /\ context_samples default_vad = 32) /\
  sample_rate default_vad = 16000 /\
  window_size_samples default_vad = int_mul 32 (Z.quot 16000 1000) /\
  0 <= effective_window_size default_vad <= INT_MAX /\
  effective_window_size default_vad
  = window_size_samples default_vad + context_samples default_vad /\
  vad_iterator_reset_states default_vad = default_vad /\
  (0 < window_size_samples default_vad ->
   Buffers.buffers_ok default_vad (Buffers.allocated default_vad)).
Proof.
  apply (lib_init_allocates "silero_vad.onnx" 16000 32 f32_0_5 100 30 250
           f32_infinity default_vad).
  vm_compute. reflexivity.
Defined.

(** ** The vector of segments *)

Lemma store_length block i ts :
  List.length (Vec.store block i ts) = List.length block.
Proof.
  revert i. induction block as [|x rest IH]; intros [|i]; cbn; try reflexivity.
  rewrite IH. reflexivity.
Qed.

Lemma store_firstn block ts :
  forall i, (i < List.length block)%nat ->
  firstn (S i) (Vec.store block i ts) = firstn i block ++ [ts].
Proof.
  induction block as [|x rest IH]; intros [|i] Hi; cbn in *; try lia.
  - reflexivity.
  - rewrite IH by lia. reflexivity.
Qed.

Lemma realloc_length junk block slots :
  (List.length block <= Z.to_nat slots)%nat ->
  List.length (Vec.realloc junk block slots) = Z.to_nat slots.
Proof.
  intros Hle. unfold Vec.realloc.
  rewrite length_app, length_firstn, repeat_length. lia.
Qed.

Lemma realloc_firstn junk block slots n :
  (n <= List.length block)%nat -> (List.length block <= Z.to_nat slots)%nat ->
  firstn n (Vec.realloc junk block slots) = firstn n block.
Proof.
  intros Hn Hle. unfold Vec.realloc.
  replace (firstn (Z.to_nat slots) block) with block
    by (symmetry; apply firstn_all2; lia).
  rewrite firstn_app. replace (n - List.length block)%nat with O by lia.
  cbn [firstn]. apply app_nil_r.
Qed.

Lemma vec_push_step realloc_ok junk vec ts :
  Vec.vec_ok vec -> Vec.size vec < 576460752303423488 ->
  (Vec.vec_push realloc_ok junk vec ts = Vec.Exit /\
   Vec.size vec = Vec.capacity vec) \/
  exists vec',
    Vec.vec_push realloc_ok junk vec ts = Vec.Done vec' /\
    Vec.vec_ok vec' /\
    Vec.contents vec' = Vec.contents vec ++ [ts] /\
    Vec.size vec' = Vec.size vec + 1 /\
    (Vec.size vec < Vec.capacity vec ->
     Vec.capacity vec' = Vec.capacity vec /\
     List.length (Vec.data vec') = List.length (Vec.data vec)).
Proof.
  destruct vec as [block n cap]. unfold Vec.vec_ok, Vec.contents.
  cbn [Vec.size Vec.capacity Vec.data]. intros (Hn & Hlen & Hcap) Hsmall.
  unfold Vec.vec_push. cbn [Vec.size Vec.capacity Vec.data].
  destruct (n >=? cap) eqn:Efull.
  - apply Z.geb_le in Efull. assert (n = cap) by lia. subst n.
    set (new_cap := if cap =? 0 then 8 else to_size (cap * 2)).
    assert (Hnew : new_cap <= Z.max 8 (2 * cap) /\ cap < new_cap).
    { unfold new_cap. destruct (Z.eqb_spec cap 0) as [-> | Hne]; [lia|].
      rewrite to_size_id by (unfold SIZE_MAX; lia). lia. }
    destruct Hnew as [Hnew Hgrow].
    assert (Hbytes : to_size (new_cap * Vec.sizeof_timestamp) / Vec.sizeof_timestamp
                     = new_cap).
    { unfold Vec.sizeof_timestamp.
      rewrite to_size_id by (unfold SIZE_MAX; lia). apply Z.div_mul. lia. }
    destruct (realloc_ok (to_size (new_cap * Vec.sizeof_timestamp)));
      [right | left; split; reflexivity].
    rewrite Hbytes. cbn [Vec.size Vec.capacity Vec.data].
    rewrite realloc_length by lia.
    replace ((0 <=? cap) && (cap <? Z.of_nat (Z.to_nat new_cap))) with true
      by (symmetry; apply andb_true_intro; split;
          [apply Z.leb_le | apply Z.ltb_lt]; lia).
    eexists. split; [reflexivity|].
    cbn [Vec.size Vec.capacity Vec.data].
    rewrite to_size_id by (unfold SIZE_MAX; lia).
    rewrite store_length, realloc_length by lia.
    repeat split; try lia.
    replace (Z.to_nat (cap + 1)) with (S (Z.to_nat cap)) by lia.
    rewrite store_firstn by (rewrite realloc_length; lia).
    rewrite realloc_firstn by lia. reflexivity.
  - rewrite Z.geb_leb in Efull. apply Z.leb_gt in Efull. right.
    cbn [Vec.size Vec.capacity Vec.data].
    replace ((0 <=? n) && (n <? Z.of_nat (List.length block))) with true
      by (symmetry; apply andb_true_intro; split;
          [apply Z.leb_le | apply Z.ltb_lt]; lia).
    eexists. split; [reflexivity|].
    cbn [Vec.size Vec.capacity Vec.data].
    rewrite to_size_id by (unfold SIZE_MAX; lia).
    rewrite store_length.
    repeat split; try lia.
    replace (Z.to_nat (n + 1)) with (S (Z.to_nat n)) by lia.
    apply store_firstn. lia.
Qed.

Lemma vec_push_capacity realloc_ok junk vec ts vec' :
  Vec.vec_ok vec -> Vec.size vec < 576460752303423488 ->
  Vec.vec_push realloc_ok junk vec ts = Vec.Done vec' ->
  Vec.capacity vec'
  = (if Vec.size vec <? Vec.capacity vec then Vec.capacity vec
     else if Vec.capacity vec =? 0 then 8 else 2 * Vec.capacity vec).
Proof.
  destruct vec as [block n cap]. unfold Vec.vec_ok.
  cbn [Vec.size Vec.capacity Vec.data]. intros (Hn & Hlen & Hcap) Hsmall.
  unfold Vec.vec_push. cbn [Vec.size Vec.capacity Vec.data].
  rewrite Z.geb_leb.
  destruct (Z.ltb_spec n cap) as [Hroom | Hfull].
  - replace (cap <=? n) with false by (symmetry; apply Z.leb_gt; lia).
    cbn [Vec.size Vec.capacity Vec.data].
    destruct (_ && _); [|discriminate]. intros [= <-]. reflexivity.
  - replace (cap <=? n) with true by (symmetry; apply Z.leb_le; lia).
    destruct (realloc_ok _); [|discriminate].
    cbn [Vec.size Vec.capacity Vec.data].
    destruct (_ && _); [|discriminate]. intros [= <-].
    cbn [Vec.capacity].
    destruct (cap =? 0); [reflexivity|].
    rewrite to_size_id by (unfold SIZE_MAX; lia). lia.
Qed.

(** The three ways of [vec_push] on a vector in good order: with room left
    it stores without asking the allocator; full, it asks for
    [8 * new_cap] bytes and stores when they are granted, and ends the
    process when they are refused. *)
Lemma vec_push_cases realloc_ok junk vec ts :
  Vec.vec_ok vec -> Vec.size vec < 576460752303423488 ->
  let new_cap := if Vec.capacity vec =? 0 then 8 else 2 * Vec.capacity vec in
  (Vec.size vec = Vec.capacity vec /\ realloc_ok (8 * new_cap) = false /\
   Vec.vec_push realloc_ok junk vec ts = Vec.Exit) \/
  ((Vec.size vec < Vec.capacity vec \/ realloc_ok (8 * new_cap) = true) /\
   exists vec',
     Vec.vec_push realloc_ok junk vec ts = Vec.Done vec' /\
     Vec.vec_ok vec' /\
     Vec.contents vec' = Vec.contents vec ++ [ts] /\
     Vec.size vec' = Vec.size vec + 1 /\
     Vec.capacity vec'
     = (if Vec.size vec <? Vec.capacity vec then Vec.capacity vec else new_cap) /\
     (Vec.size vec < Vec.capacity vec ->
      List.length (Vec.data vec') = List.length (Vec.data vec))).
Proof.
  intros Hok Hsmall new_cap.
  destruct (vec_push_step realloc_ok junk vec ts Hok Hsmall)
    as [[Hexit Hfull] | (v & Hv & Hokv & Hcont & Hsize & Hroom)].
  - left. split; [exact Hfull|]. split; [|exact Hexit].
    destruct vec as [block n cap]. unfold Vec.vec_ok in Hok.
    cbn [Vec.size Vec.capacity Vec.data] in *. destruct Hok as (Hn & Hlen & Hcap).
    unfold Vec.vec_push in Hexit. cbn [Vec.size Vec.capacity Vec.data] in Hexit.
    replace (n >=? cap) with true in Hexit
      by (symmetry; rewrite Z.geb_leb; apply Z.leb_le; lia).
    assert (Hreq : to_size ((if cap =? 0 then 8 else to_size (cap * 2))
                            * Vec.sizeof_timestamp) = 8 * new_cap).
    { unfold new_cap, Vec.sizeof_timestamp. destruct (cap =? 0).
      - reflexivity.
      - rewrite (to_size_id (cap * 2)) by (unfold SIZE_MAX; lia).
        rewrite to_size_id by (unfold SIZE_MAX; lia). lia. }
    rewrite Hreq in Hexit.
    destruct (realloc_ok (8 * new_cap)); [|reflexivity].
    destruct (_ && _); discriminate.
  - right.
    pose proof (vec_push_capacity realloc_ok junk vec ts v Hok Hsmall Hv) as Hcapv.
    split.
    + destruct (Z.lt_ge_cases (Vec.size vec) (Vec.capacity vec)) as [Hlt|Hge];
        [left; exact Hlt | right].
      destruct vec as [block n cap]. unfold Vec.vec_ok in Hok.
      cbn [Vec.size Vec.capacity Vec.data] in *. destruct Hok as (Hn & Hlen & Hcap).
      unfold Vec.vec_push in Hv. cbn [Vec.size Vec.capacity Vec.data] in Hv.
      replace (n >=? cap) with true in Hv
        by (symmetry; rewrite Z.geb_leb; apply Z.leb_le; lia).
      assert (Hreq : to_size ((if cap =? 0 then 8 else to_size (cap * 2))
                              * Vec.sizeof_timestamp) = 8 * new_cap).
      { unfold new_cap, Vec.sizeof_timestamp. destruct (cap =? 0).
        - reflexivity.
        - rewrite (to_size_id (cap * 2)) by (unfold SIZE_MAX; lia).
          rewrite to_size_id by (unfold SIZE_MAX; lia). lia. }
      rewrite Hreq in Hv.
      destruct (realloc_ok (8 * new_cap)); [reflexivity|discriminate].
    + exists v. split; [exact Hv|]. split; [exact Hokv|]. split; [exact Hcont|].
      split; [exact Hsize|]. split; [exact Hcapv|].
      intros Hlt. apply Hroom. exact Hlt.
Qed.

(** X11.  On a vector in good order with fewer than 2^59 segments,
    [vec_push] never writes outside its block, and its outcome is decided
    as follows.  With room left it stores the segment without asking the
    allocator, whatever the allocator would answer, and keeps its block.
    When the vector is full it asks for [8 * new_cap] bytes, [new_cap]
    being 8 for an empty block and twice the capacity otherwise: if they
    are refused it ends the process, and only then; if they are granted the
    capacity becomes [new_cap].  Whenever it returns, the vector is in good
    order and holds the old segments followed by the new one, which is the
    list [speeches] of the engine above. *)
Theorem vec_push_appends realloc_ok junk vec ts :
  Vec.vec_ok vec -> Vec.size vec < 576460752303423488 ->
  let new_cap := if Vec.capacity vec =? 0 then 8 else 2 * Vec.capacity vec in
  (Vec.size vec = Vec.capacity vec /\ realloc_ok (8 * new_cap) = false /\
   Vec.vec_push realloc_ok junk vec ts = Vec.Exit) \/
  ((Vec.size vec < Vec.capacity vec \/ realloc_ok (8 * new_cap) = true) /\
   exists vec',
     Vec.vec_push realloc_ok junk vec ts = Vec.Done vec' /\
     Vec.vec_ok vec' /\
     Vec.contents vec' = Vec.contents vec ++ [ts] /\
     Vec.size vec' = Vec.size vec + 1 /\
     Vec.capacity vec'
     = (if Vec.size vec <? Vec.capacity vec then Vec.capacity vec else new_cap) /\
     (Vec.size vec < Vec.capacity vec ->
      List.length (Vec.data vec') = List.length (Vec.data vec))).
Proof.
  apply vec_push_cases.
Qed.

Lemma vec_push_appends_witness :
  let realloc_ok := fun bytes => bytes <=? 64 in
  let full := Vec.mk_vec (repeat (mk_timestamp 0 512) 8) 8 8 in
  (Vec.size full = Vec.capacity full /\ realloc_ok (8 * (2 * 8)) = false /\
   Vec.vec_push realloc_ok no_speech full (mk_timestamp 1024 2048) = Vec.Exit) \/
  ((Vec.size full < Vec.capacity full \/ realloc_ok (8 * (2 * 8)) = true) /\
   exists vec',
     Vec.vec_push realloc_ok no_speech full (mk_timestamp 1024 2048)
     = Vec.Done vec' /\
     Vec.vec_ok vec' /\
     Vec.contents vec' = Vec.contents full ++ [mk_timestamp 1024 2048] /\
     Vec.size vec' = Vec.size full + 1 /\
     Vec.capacity vec'
     = (if Vec.size full <? Vec.capacity full then Vec.capacity full else 2 * 8) /\
     (Vec.size full < Vec.capacity full ->
      List.length (Vec.data vec') = List.length (Vec.data full))).
Proof.
  cbv zeta.
  apply (vec_push_appends (fun bytes => bytes <=? 64) no_speech
           (Vec.mk_vec (repeat (mk_timestamp 0 512) 8) 8 8)
           (mk_timestamp 1024 2048)).
  - vm_compute. repeat split; discriminate.
  - vm_compute. reflexivity.
Defined.

Lemma push_all_room realloc_ok junk l :
  forall vec,
  Vec.vec_ok vec ->
  Vec.size vec + Z.of_nat (List.length l) <= Vec.capacity vec ->
  exists vec',
    Vec.push_all realloc_ok junk vec l = Vec.Done vec' /\
    Vec.vec_ok vec' /\
    Vec.contents vec' = Vec.contents vec ++ l /\
    Vec.capacity vec' = Vec.capacity vec /\
    List.length (Vec.data vec') = List.length (Vec.data vec).
Proof.
  induction l as [|ts l IH]; intros vec Hok Hroom.
  - exists vec. cbn [Vec.push_all]. rewrite app_nil_r. repeat split; apply Hok.
  - cbn [List.length] in Hroom. cbn [Vec.push_all].
    assert (Hlt : Vec.size vec < Vec.capacity vec) by lia.
    destruct vec as [block n cap]. unfold Vec.vec_ok in Hok.
    cbn [Vec.size Vec.capacity Vec.data] in *.
    destruct Hok as (Hn & Hlen & Hcap).
    unfold Vec.vec_push. cbn [Vec.size Vec.capacity Vec.data].
    replace (n >=? cap) with false
      by (symmetry; rewrite Z.geb_leb; apply Z.leb_gt; lia).
    cbn [Vec.size Vec.capacity Vec.data].
    replace ((0 <=? n) && (n <? Z.of_nat (List.length block))) with true
      by (symmetry; apply andb_true_intro; split;
          [apply Z.leb_le | apply Z.ltb_lt]; lia).
    rewrite to_size_id by (unfold SIZE_MAX; lia).
    destruct (IH (Vec.mk_vec (Vec.store block (Z.to_nat n) ts) (n + 1) cap))
      as (vec' & Hrun & Hok' & Hcont & Hcap' & Hlen').
    + unfold Vec.vec_ok. cbn [Vec.size Vec.capacity Vec.data].
      rewrite store_length. lia.
    + cbn [Vec.size Vec.capacity]. lia.
    + exists vec'. split; [exact Hrun|]. split; [exact Hok'|].
      unfold Vec.contents in *. cbn [Vec.size Vec.capacity Vec.data] in *.
      rewrite store_length in Hlen'.
      split; [|split; assumption].
      rewrite Hcont.
      replace (Z.to_nat (n + 1)) with (S (Z.to_nat n)) by lia.
      rewrite store_firstn by lia. rewrite <- app_assoc. reflexivity.
Qed.

(** X12.  [vec_clear] keeps the block: after it, pushing no more segments
    than the capacity allows never calls the allocator, so it cannot end the
    process, whatever the allocator would answer; the vector then holds
    exactly the pushed segments, in the block it had. *)
Theorem vec_clear_reuses_block realloc_ok junk vec l :
  Vec.vec_ok vec ->
  Z.of_nat (List.length l) <= Vec.capacity vec ->
  exists vec',
    Vec.push_all realloc_ok junk (Vec.vec_clear vec) l = Vec.Done vec' /\
    Vec.contents vec' = l /\
    Vec.capacity vec' = Vec.capacity vec /\
    List.length (Vec.data vec') = List.length (Vec.data vec).
Proof.
  intros Hok Hl.
  destruct (push_all_room realloc_ok junk l (Vec.vec_clear vec))
    as (vec' & Hrun & _ & Hcont & Hcap & Hlen).
  - destruct vec as [block n cap]. unfold Vec.vec_ok in *.
    cbn [Vec.vec_clear Vec.size Vec.capacity Vec.data] in *. lia.
  - destruct vec as [block n cap]. cbn [Vec.vec_clear Vec.size Vec.capacity] in *.
    lia.
  - exists vec'. split; [exact Hrun|].
    destruct vec as [block n cap].
    unfold Vec.contents in Hcont.
    cbn [Vec.vec_clear Vec.size Vec.capacity Vec.data firstn Z.to_nat] in *.
    repeat split; assumption.
Qed.

Lemma vec_clear_reuses_block_witness :
  exists vec',
    Vec.push_all (fun _ => false) no_speech
      (Vec.vec_clear (Vec.mk_vec (repeat no_speech 8) 3 8))
      [mk_timestamp 0 512; mk_timestamp 1024 2048] = Vec.Done vec' /\
    Vec.contents vec' = [mk_timestamp 0 512; mk_timestamp 1024 2048] /\
    Vec.capacity vec' = Vec.capacity (Vec.mk_vec (repeat no_speech 8) 3 8) /\
    List.length (Vec.data vec')
    = List.length (Vec.data (Vec.mk_vec (repeat no_speech 8) 3 8)).
Proof.
  apply (vec_clear_reuses_block (fun _ => false) no_speech
           (Vec.mk_vec (repeat no_speech 8) 3 8)
           [mk_timestamp 0 512; mk_timestamp 1024 2048]).
  - vm_compute. repeat split; discriminate.
  - vm_compute. discriminate.
Defined.

Lemma vec_push_doubled realloc_ok junk vec ts vec' :
  Vec.vec_ok vec -> Vec.size vec < 576460752303423488 ->
  Vec.doubled vec ->
  Vec.vec_push realloc_ok junk vec ts = Vec.Done vec' ->
  Vec.doubled vec'.
Proof.
  intros Hok Hsmall Hdbl Hpush.
  pose proof (vec_push_capacity _ _ _ _ _ Hok Hsmall Hpush) as Hcap.
  destruct (vec_push_step realloc_ok junk vec ts Hok Hsmall)
    as [[Hexit _] | (v & Hv & _ & _ & Hsize & _)]; [congruence|].
  rewrite Hpush in Hv. injection Hv as <-.
  unfold Vec.doubled in *. right. rewrite Hsize, Hcap.
  destruct Hok as (Hn & _ & _).
  destruct Hdbl as [[Hs Hc] | (Hs & k & Hk & Hc & Hbound)].
  - rewrite Hs, Hc. cbn. split; [lia|]. exists 0. repeat split; try lia.
  - split; [lia|].
    destruct (Z.ltb_spec (Vec.size vec) (Vec.capacity vec)) as [Hroom | Hfull].
    + exists k. repeat split; try assumption. lia.
    + assert (Hpos : 0 < 2 ^ k) by (apply Z.pow_pos_nonneg; lia).
      replace (Vec.capacity vec =? 0) with false
        by (symmetry; apply Z.eqb_neq; lia).
      exists (k + 1). replace (k + 1) with (Z.succ k) by lia.
      rewrite Z.pow_succ_r by lia.
      repeat split; try lia.
Qed.

(** Every block up to the capacity of the vector has been granted. *)
Lemma granted_after_push realloc_ok junk vec ts vec' :
  Vec.vec_ok vec -> Vec.size vec < 576460752303423488 -> Vec.doubled vec ->
  (forall k, 0 <= k -> 8 * 2 ^ k <= Vec.capacity vec ->
             realloc_ok (64 * 2 ^ k) = true) ->
  Vec.vec_push realloc_ok junk vec ts = Vec.Done vec' ->
  forall k, 0 <= k -> 8 * 2 ^ k <= Vec.capacity vec' ->
            realloc_ok (64 * 2 ^ k) = true.
Proof.
  intros Hok Hsmall Hdbl Hgr Hpush k Hk Hle.
  destruct (vec_push_cases realloc_ok junk vec ts Hok Hsmall)
    as [(_ & _ & Hexit) | (Hwhy & v & Hv & _ & _ & _ & Hcap & _)]; [congruence|].
  rewrite Hpush in Hv. injection Hv as <-. rewrite Hcap in Hle.
  destruct (Z.ltb_spec (Vec.size vec) (Vec.capacity vec)) as [Hroom|Hfull];
    [apply Hgr; assumption|].
  destruct Hwhy as [Hlt | Hreq]; [lia|].
  assert (Hpk : 0 < 2 ^ k) by (apply Z.pow_pos_nonneg; lia).
  destruct Hdbl as [[Hs Hc] | (Hs & j & Hj & Hc & _)].
  - rewrite Hc in Hle, Hreq. cbn [Z.eqb] in Hle, Hreq.
    assert (k = 0).
    { destruct (Z.eq_dec k 0) as [|Hne]; [assumption|exfalso].
      assert (2 ^ 1 <= 2 ^ k) by (apply Z.pow_le_mono_r; lia).
      change (2 ^ 1) with 2 in *. lia. }
    subst k. exact Hreq.
  - assert (Hpj : 0 < 2 ^ j) by (apply Z.pow_pos_nonneg; lia).
    replace (Vec.capacity vec =? 0) with false in Hle, Hreq
      by (symmetry; apply Z.eqb_neq; lia).
    rewrite Hc in Hle, Hreq.
    destruct (Z.le_gt_cases k j) as [Hkj | Hkj].
    + apply Hgr; [assumption|]. rewrite Hc.
      assert (2 ^ k <= 2 ^ j) by (apply Z.pow_le_mono_r; lia). lia.
    + assert (k = j + 1).
      { destruct (Z.eq_dec k (j + 1)) as [|Hne]; [assumption|exfalso].
        assert (2 ^ (j + 2) <= 2 ^ k) by (apply Z.pow_le_mono_r; lia).
        replace (j + 2) with (Z.succ (Z.succ j)) in * by lia.
        rewrite !Z.pow_succ_r in * by lia. lia. }
      subst k. replace (j + 1) with (Z.succ j) by lia.
      rewrite Z.pow_succ_r by lia.
      replace (64 * (2 * 2 ^ j)) with (8 * (2 * (8 * 2 ^ j))) by lia.
      exact Hreq.
Qed.

Lemma push_all_growth realloc_ok junk l :
  forall vec,
  Vec.vec_ok vec -> Vec.doubled vec ->
  (forall k, 0 <= k -> 8 * 2 ^ k <= Vec.capacity vec ->
             realloc_ok (64 * 2 ^ k) = true) ->
  Vec.size vec + Z.of_nat (List.length l) < 576460752303423488 ->
  (Vec.push_all realloc_ok junk vec l = Vec.Exit /\
   exists k, 0 <= k /\
             (if k =? 0 then 0 else 4 * 2 ^ k)
             < Vec.size vec + Z.of_nat (List.length l) /\
             realloc_ok (64 * 2 ^ k) = false) \/
  exists vec',
    Vec.push_all realloc_ok junk vec l = Vec.Done vec' /\
    Vec.contents vec' = Vec.contents vec ++ l /\
    Vec.size vec' = Vec.size vec + Z.of_nat (List.length l) /\
    Vec.vec_ok vec' /\ Vec.doubled vec' /\
    (forall k, 0 <= k -> 8 * 2 ^ k <= Vec.capacity vec' ->
               realloc_ok (64 * 2 ^ k) = true).
Proof.
  induction l as [|ts l IH]; intros vec Hok Hdbl Hgr Hsmall.
  - right. exists vec. cbn [Vec.push_all List.length].
    rewrite app_nil_r. repeat split; try assumption; try apply Hok. lia.
  - cbn [List.length] in Hsmall. cbn [Vec.push_all].
    destruct (vec_push_cases realloc_ok junk vec ts Hok ltac:(lia))
      as [(Hfull & Href & Hexit)
         | (_ & v & Hv & Hokv & Hcont & Hsize & _ & _)].
    + left. rewrite Hexit. split; [reflexivity|].
      destruct Hdbl as [[Hs Hc] | (Hs & j & Hj & Hc & _)].
      * exists 0. rewrite Hc in Href. cbn [Z.eqb] in Href.
        split; [lia|]. split; [cbn [Z.eqb List.length]; lia|exact Href].
      * assert (Hpj : 0 < 2 ^ j) by (apply Z.pow_pos_nonneg; lia).
        replace (Vec.capacity vec =? 0) with false in Href
          by (symmetry; apply Z.eqb_neq; lia).
        exists (j + 1).
        replace (j + 1 =? 0) with false by (symmetry; apply Z.eqb_neq; lia).
        replace (j + 1) with (Z.succ j) by lia. rewrite Z.pow_succ_r by lia.
        split; [lia|]. split; [cbn [List.length]; lia|].
        rewrite Hc in Href.
        replace (64 * (2 * 2 ^ j)) with (8 * (2 * (8 * 2 ^ j))) by lia.
        exact Href.
    + rewrite Hv.
      assert (Hdblv : Vec.doubled v)
        by (apply (vec_push_doubled realloc_ok junk vec ts v Hok);
            [lia | assumption | assumption]).
      assert (Hgrv : forall k, 0 <= k -> 8 * 2 ^ k <= Vec.capacity v ->
                               realloc_ok (64 * 2 ^ k) = true)
        by (apply (granted_after_push realloc_ok junk vec ts v Hok);
            [lia | assumption | assumption | assumption]).
      destruct (IH v Hokv Hdblv Hgrv)
        as [(Hexit & k & Hk & Hneed & Href)
           | (v' & Hv' & Hc' & Hs' & Hok' & Hd' & Hg')]; [lia| |].
      * left. split; [exact Hexit|]. exists k.
        split; [exact Hk|]. split; [|exact Href].
        cbn [List.length]. lia.
      * right. exists v'. split; [exact Hv'|].
        rewrite Hc', Hcont, <- app_assoc, Hs', Hsize.
        repeat split; try assumption; try apply Hok'.
        cbn [List.length]. lia.
Qed.

(** X13.  Pushing a list of fewer than 2^59 segments into the empty vector
    asks the allocator for blocks of 64, 128, 256, ... bytes, a block of
    [64 * 2^k] bytes once more than [4 * 2^k] segments are to be held (the
    first with the first segment).  When the process ends, one of the
    blocks the list needs was refused.  Otherwise the vector holds exactly
    the list, every block up to its capacity was granted, and its capacity
    is 8 times a power of two and, beyond the first 8 slots, less than
    twice the number of segments held. *)
Theorem vec_growth_doubles realloc_ok junk l :
  Z.of_nat (List.length l) < 576460752303423488 ->
  (Vec.push_all realloc_ok junk Vec.vec_init l = Vec.Exit /\
   exists k, 0 <= k /\
             (if k =? 0 then 0 else 4 * 2 ^ k) < Z.of_nat (List.length l) /\
             realloc_ok (64 * 2 ^ k) = false) \/
  exists vec',
    Vec.push_all realloc_ok junk Vec.vec_init l = Vec.Done vec' /\
    Vec.contents vec' = l /\
    Vec.size vec' = Z.of_nat (List.length l) /\
    Vec.vec_ok vec' /\ Vec.doubled vec' /\
    (forall k, 0 <= k -> 8 * 2 ^ k <= Vec.capacity vec' ->
               realloc_ok (64 * 2 ^ k) = true).
Proof.
  intros Hl.
  destruct (push_all_growth realloc_ok junk l Vec.vec_init)
    as [(Hexit & k & Hk & Hneed & Href) | (v & Hv & Hc & Hs & Hok & Hd & Hg)].
  - unfold Vec.vec_ok. cbn. lia.
  - left. split; reflexivity.
  - intros k Hk Hle. cbn [Vec.vec_init Vec.capacity] in Hle.
    assert (0 < 2 ^ k) by (apply Z.pow_pos_nonneg; lia). lia.
  - cbn [Vec.vec_init Vec.size]. lia.
  - left. split; [exact Hexit|]. exists k.
    cbn [Vec.vec_init Vec.size] in Hneed. rewrite Z.add_0_l in Hneed.
    repeat split; assumption.
  - right. exists v. cbn in Hc, Hs. repeat split; try assumption; apply Hok.
Qed.

Lemma vec_growth_doubles_witness :
  let realloc_ok := fun bytes => bytes <=? 64 in
  (Vec.push_all realloc_ok no_speech Vec.vec_init
     (repeat (mk_timestamp 0 512) 9) = Vec.Exit /\
   exists k, 0 <= k /\
             (if k =? 0 then 0 else 4 * 2 ^ k)
             < Z.of_nat (List.length (repeat (mk_timestamp 0 512) 9)) /\
             realloc_ok (64 * 2 ^ k) = false) \/
  exists vec',
    Vec.push_all realloc_ok no_speech Vec.vec_init
      (repeat (mk_timestamp 0 512) 9) = Vec.Done vec' /\
    Vec.contents vec' = repeat (mk_timestamp 0 512) 9 /\
    Vec.size vec' = Z.of_nat (List.length (repeat (mk_timestamp 0 512) 9)) /\
    Vec.vec_ok vec' /\ Vec.doubled vec' /\
    (forall k, 0 <= k -> 8 * 2 ^ k <= Vec.capacity vec' ->
               realloc_ok (64 * 2 ^ k) = true).
Proof.
  cbv zeta.
  apply (vec_growth_doubles (fun bytes => bytes <=? 64) no_speech
           (repeat (mk_timestamp 0 512) 9)).
  vm_compute. reflexivity.
Defined.

(** * The WAV writer *)

Lemma le_bytes_length n z : List.length (Wav.le_bytes n z) = n.
Proof. revert z; induction n as [|n IH]; intros z; simpl; [reflexivity|]. now rewrite IH. Qed.

Lemma le_value_le_bytes n z :
  Wav.le_value (Wav.le_bytes n z) = z mod 256 ^ Z.of_nat n.
Proof.
  revert z; induction n as [|n IH]; intros z.
  - simpl. now rewrite Z.mod_1_r.
  - cbn [Wav.le_bytes Wav.le_value]. rewrite IH.
    rewrite Nat2Z.inj_succ, Z.pow_succ_r by lia.
    rewrite Z.rem_mul_r by lia. lia.
Qed.

Lemma le_bytes_bytes n z : Forall (fun b => 0 <= b < 256) (Wav.le_bytes n z).
Proof.
  revert z; induction n as [|n IH]; intros z; simpl; constructor.
  - apply Z.mod_pos_bound; lia.
  - apply IH.
Qed.

(** X14. [clamp_sample] hands a NaN back unchanged; every other sample comes
    out between -1 and 1. *)
Theorem clamp_sample_range v :
  (v = S754_nan /\ Wav.clamp_sample v = S754_nan) \/
  (f32_ge (Wav.clamp_sample v) Wav.f32_minus_one = true /\
   f32_ge f32_one (Wav.clamp_sample v) = true).
Proof.
  destruct v as [s|s| |s m e].
  - right. destruct s; split; reflexivity.
  - right. destruct s; split; reflexivity.
  - left. split; reflexivity.
  - right. unfold Wav.clamp_sample, f32_gt, f32_lt, f32_ge, SFltb, SFleb.
    pose proof (SFcompare_antisym f32_one (S754_finite s m e)) as H1.
    pose proof (SFcompare_antisym (S754_finite s m e) Wav.f32_minus_one) as H2.
    destruct (SFcompare f32_one (S754_finite s m e)) as [[| |]|] eqn:E1;
      [| split; reflexivity | |destruct s; discriminate E1];
      (destruct (SFcompare (S754_finite s m e) Wav.f32_minus_one) as [[| |]|] eqn:E2;
       [| split; reflexivity | |destruct s; discriminate E2]);
      rewrite H1, H2; split; reflexivity.
Qed.

Lemma ckd_mul_fits a b : a * b <= SIZE_MAX -> Wav.ckd_mul a b = Some (a * b).
Proof. unfold Wav.ckd_mul. intros H. apply Z.leb_le in H. now rewrite H. Qed.

Lemma ckd_add_fits a b : a + b <= SIZE_MAX -> Wav.ckd_add a b = Some (a + b).
Proof. unfold Wav.ckd_add. intros H. apply Z.leb_le in H. now rewrite H. Qed.

Lemma to_u16_id z : 0 <= z <= Wav.UINT16_MAX -> Wav.to_u16 z = z.
Proof. unfold Wav.to_u16, Wav.UINT16_MAX. intros H. apply Z.mod_small. lia. Qed.

Lemma supported_depth bits :
  bits = 8 \/ bits = 16 \/ bits = 32 ->
  0 < bits /\ Z.rem bits 8 = 0 /\ Z.quot bits 8 = bits / 8 /\ 1 <= bits / 8 <= 4.
Proof. intros [->|[->| ->]]; repeat split; try reflexivity; cbv; congruence. Qed.

Lemma encode_sample_supported lrintf llrintf bits v :
  bits = 8 \/ bits = 16 \/ bits = 32 ->
  exists bytes,
    Wav.encode_sample lrintf llrintf bits v = Some bytes /\
    Z.of_nat (List.length bytes) = bits / 8 /\
    Forall (fun b => 0 <= b < 256) bytes.
Proof.
  intros [->|[->| ->]]; unfold Wav.encode_sample; cbn [Z.eqb Pos.eqb];
    eexists; (split; [reflexivity|]); (split; [now rewrite le_bytes_length | apply le_bytes_bytes]).
Qed.

Lemma write_samples_supported lrintf llrintf bits count samples :
  bits = 8 \/ bits = 16 \/ bits = 32 ->
  (count <= List.length samples)%nat ->
  exists body,
    Wav.write_samples lrintf llrintf bits count samples = Some (true, body) /\
    Z.of_nat (List.length body) = Z.of_nat count * (bits / 8) /\
    Forall (fun b => 0 <= b < 256) body.
Proof.
  intros Hbits. revert samples.
  induction count as [|count IH]; intros samples Hlen.
  - exists []. repeat split; constructor.
  - destruct samples as [|val rest]; [simpl in Hlen; lia|].
    simpl in Hlen.
    destruct (encode_sample_supported lrintf llrintf bits (Wav.clamp_sample val) Hbits)
      as (bytes & Hb & Hbl & Hbb).
    destruct (IH rest ltac:(lia)) as (more & Hm & Hml & Hmb).
    exists (bytes ++ more). cbn [Wav.write_samples]. rewrite Hb, Hm.
    split; [reflexivity|]. split.
    + rewrite length_app, Nat2Z.inj_add, Hbl, Hml. lia.
    + apply Forall_app. now split.
Qed.

Lemma write_samples_bytes lrintf llrintf bits count samples :
  bits = 8 \/ bits = 16 \/ bits = 32 ->
  (count <= List.length samples)%nat ->
  Wav.write_samples lrintf llrintf bits count samples
  = Some (true, Wav.sample_bytes lrintf llrintf bits (firstn count samples)).
Proof.
  intros Hbits. revert samples.
  induction count as [|count IH]; intros samples Hlen; [reflexivity|].
  destruct samples as [|val rest]; [simpl in Hlen; lia|].
  simpl in Hlen.
  destruct (encode_sample_supported lrintf llrintf bits (Wav.clamp_sample val) Hbits)
    as (bytes & Hb & _).
  cbn [Wav.write_samples firstn Wav.sample_bytes flat_map].
  rewrite Hb, IH by lia. reflexivity.
Qed.

Lemma write_samples_defined lrintf llrintf bits count samples :
  (count <= List.length samples)%nat ->
  Wav.write_samples lrintf llrintf bits count samples <> None.
Proof.
  revert samples. induction count as [|count IH]; intros samples Hlen; [discriminate|].
  destruct samples as [|val rest]; [simpl in Hlen; lia|]. simpl in Hlen.
  cbn [Wav.write_samples].
  destruct (Wav.encode_sample lrintf llrintf bits (Wav.clamp_sample val)); [|discriminate].
  specialize (IH rest ltac:(lia)).
  destruct (Wav.write_samples lrintf llrintf bits count rest) as [[ok more]|];
    [discriminate|contradiction].
Qed.

Lemma write_samples_length lrintf llrintf bits count samples ok body :
  Wav.write_samples lrintf llrintf bits count samples = Some (ok, body) ->
  0 <= Z.of_nat (List.length body) <= Z.of_nat count * 4 /\
  (ok = true ->
   Z.of_nat (List.length body) = Z.of_nat count * (bits / 8) /\
   (count = O \/ bits = 8 \/ bits = 16 \/ bits = 32)).
Proof.
  revert samples ok body. induction count as [|count IH]; intros samples ok body H.
  - injection H as <- <-. simpl. split; [lia|]. intros _. split; [reflexivity|now left].
  - cbn [Wav.write_samples] in H.
    destruct samples as [|val rest]; [discriminate|].
    unfold Wav.encode_sample in H.
    destruct (bits =? 8) eqn:E8;
      [|destruct (bits =? 16) eqn:E16; [|destruct (bits =? 32) eqn:E32]].
    4: { injection H as <- <-. simpl. split; [lia|discriminate]. }
    all: destruct (Wav.write_samples lrintf llrintf _ count rest) as [[ok' more]|] eqn:E;
      [|discriminate]; injection H as <- <-;
      destruct (IH _ _ _ E) as [Hb Hok];
      cbn [Datatypes.length]; rewrite !Nat2Z.inj_succ;
      (split; [lia|]); intros Hk; destruct (Hok Hk) as [Hl _];
      try apply Z.eqb_eq in E8; try apply Z.eqb_eq in E16; try apply Z.eqb_eq in E32;
      subst bits;
      (split; [|right; auto]); rewrite Hl;
      change (8 / 8) with 1; change (16 / 8) with 2; change (32 / 8) with 4; lia.
Qed.

Lemma writer_header_fits data n ch rate bits :
  0 < ch -> 0 < rate -> 0 < bits -> Z.rem bits 8 = 0 -> 0 <= n ->
  n * ch * (bits / 8) + 36 <= Wav.UINT32_MAX ->
  rate * ch * (bits / 8) <= Wav.UINT32_MAX ->
  ch * (bits / 8) <= Wav.UINT16_MAX ->
  Wav.writer_header (Wav.mk_writer data n ch rate bits)
  = Some (Wav.expected_header n ch rate bits).
Proof.
  unfold Wav.UINT32_MAX, Wav.UINT16_MAX. intros Hch Hrate Hbits Hrem Hn Hd Hr Hb.
  assert (Hq : Z.quot bits 8 = bits / 8) by (apply Z.quot_div_nonneg; lia).
  assert (HB : 1 <= bits / 8).
  { apply Z.rem_divide in Hrem; [|lia]. destruct Hrem as [k ->].
    rewrite Z.div_mul by lia. lia. }
  set (B := bits / 8) in *.
  unfold Wav.writer_header.
  cbn [Wav.w_num_samples Wav.w_num_channel Wav.w_sample_rate Wav.w_bits_per_sample].
  rewrite Hq. fold B.
  rewrite (to_size_id ch) by (unfold SIZE_MAX; nia).
  rewrite (to_size_id B) by (unfold SIZE_MAX; nia).
  rewrite (to_size_id rate) by (unfold SIZE_MAX; nia).
  rewrite (ckd_mul_fits n ch) by (unfold SIZE_MAX; nia).
  rewrite (ckd_mul_fits (n * ch) B) by (unfold SIZE_MAX; nia).
  unfold Wav.UINT32_MAX, Wav.UINT16_MAX.
  replace (n * ch * B >? 4294967295) with false by (symmetry; rewrite Z.gtb_ltb; apply Z.ltb_ge; lia).
  rewrite (ckd_add_fits (44 - 8) (n * ch * B)) by (unfold SIZE_MAX; nia).
  replace (44 - 8 + n * ch * B >? 4294967295) with false by (symmetry; rewrite Z.gtb_ltb; apply Z.ltb_ge; lia).
  rewrite (ckd_mul_fits rate ch) by (unfold SIZE_MAX; nia).
  rewrite (ckd_mul_fits (rate * ch) B) by (unfold SIZE_MAX; nia).
  replace (rate * ch * B >? 4294967295) with false by (symmetry; rewrite Z.gtb_ltb; apply Z.ltb_ge; lia).
  rewrite (ckd_mul_fits ch B) by (unfold SIZE_MAX; nia).
  replace (ch * B >? 65535) with false by (symmetry; rewrite Z.gtb_ltb; apply Z.ltb_ge; lia).
  unfold Wav.expected_header. fold B.
  rewrite (to_uint_id (44 - 8 + n * ch * B)) by nia.
  rewrite (to_uint_id rate) by nia.
  rewrite (to_uint_id (rate * ch * B)) by nia.
  rewrite (to_uint_id (n * ch * B)) by nia.
  rewrite (to_u16_id ch) by (unfold Wav.UINT16_MAX; nia).
  rewrite (to_u16_id (ch * B)) by (unfold Wav.UINT16_MAX; nia).
  reflexivity.
Qed.

Lemma header_bytes_length h :
  List.length (Wav.riff h) = 4%nat -> List.length (Wav.wav h) = 4%nat ->
  List.length (Wav.fmt h) = 4%nat -> List.length (Wav.data h) = 4%nat ->
  List.length (Wav.header_bytes h) = 44%nat.
Proof.
  intros H1 H2 H3 H4. unfold Wav.header_bytes.
  rewrite !length_app, !le_bytes_length, !length_firstn. lia.
Qed.

Lemma writer_whole_file lrintf llrintf data n ch rate bits :
  0 < ch -> 0 < rate -> bits = 8 \/ bits = 16 \/ bits = 32 -> 0 <= n ->
  n * ch <= Z.of_nat (List.length data) ->
  n * ch * (bits / 8) + 36 <= Wav.UINT32_MAX ->
  rate * ch * (bits / 8) <= Wav.UINT32_MAX ->
  ch * (bits / 8) <= Wav.UINT16_MAX ->
  exists body,
    Wav.wav_writer_write lrintf llrintf (Wav.mk_writer data n ch rate bits)
    = Wav.Wrote true
        (Wav.header_bytes
           (Wav.mk_header [82; 73; 70; 70] (36 + n * ch * (bits / 8))
              [87; 65; 86; 69] [102; 109; 116; 32] 16 1 ch rate
              (rate * ch * (bits / 8)) (ch * (bits / 8)) bits
              [100; 97; 116; 97] (n * ch * (bits / 8))) ++ body) /\
    Z.of_nat (List.length body) = n * ch * (bits / 8) /\
    Forall (fun b => 0 <= b < 256) body.
Proof.
  intros Hch Hrate Hbits Hn Hlen Hd Hr Hb.
  destruct (supported_depth bits Hbits) as (Hpos & Hrem & _ & _).
  destruct (write_samples_supported lrintf llrintf bits (Z.to_nat (n * ch)) data Hbits
              ltac:(nia)) as (body & Hw & Hl & Hbb).
  exists body. unfold Wav.wav_writer_write.
  cbn [Wav.w_num_samples Wav.w_num_channel Wav.w_sample_rate
       Wav.w_bits_per_sample Wav.w_data].
  replace (ch <=? 0) with false by (symmetry; apply Z.leb_gt; lia).
  replace (bits <=? 0) with false by (symmetry; apply Z.leb_gt; lia).
  replace (rate <=? 0) with false by (symmetry; apply Z.leb_gt; lia).
  rewrite Hrem. cbn [orb negb Z.eqb].
  rewrite writer_header_fits by assumption.
  rewrite Hw. unfold Wav.expected_header.
  replace (Wav.to_u16 bits) with bits
    by (destruct Hbits as [->|[->| ->]]; reflexivity).
  split; [reflexivity|]. split; [|assumption].
  rewrite Hl, Z2Nat.id by nia. reflexivity.
Qed.

Lemma writer_whole_file_bytes lrintf llrintf data n ch rate bits :
  0 < ch -> 0 < rate -> bits = 8 \/ bits = 16 \/ bits = 32 -> 0 <= n ->
  n * ch <= Z.of_nat (List.length data) ->
  n * ch * (bits / 8) + 36 <= Wav.UINT32_MAX ->
  rate * ch * (bits / 8) <= Wav.UINT32_MAX ->
  ch * (bits / 8) <= Wav.UINT16_MAX ->
  Wav.wav_writer_write lrintf llrintf (Wav.mk_writer data n ch rate bits)
  = Wav.Wrote true
      (Wav.header_bytes (Wav.expected_header n ch rate bits)
       ++ Wav.sample_bytes lrintf llrintf bits (firstn (Z.to_nat (n * ch)) data)).
Proof.
  intros Hch Hrate Hbits Hn Hlen Hd Hr Hb.
  destruct (supported_depth bits Hbits) as (Hpos & Hrem & _ & _).
  unfold Wav.wav_writer_write.
  cbn [Wav.w_num_samples Wav.w_num_channel Wav.w_sample_rate
       Wav.w_bits_per_sample Wav.w_data].
  replace (ch <=? 0) with false by (symmetry; apply Z.leb_gt; lia).
  replace (bits <=? 0) with false by (symmetry; apply Z.leb_gt; lia).
  replace (rate <=? 0) with false by (symmetry; apply Z.leb_gt; lia).
  rewrite Hrem. cbn [orb negb Z.eqb].
  rewrite writer_header_fits by assumption.
  rewrite write_samples_bytes by (assumption || nia).
  reflexivity.
Qed.

(** X15. A writer with a positive channel count and rate, a depth of 8, 16
    or 32 bits and a buffer that holds its samples, whose sizes fit the
    header's fields, writes a whole file: the 44-byte header with every
    count exact, then [bits / 8] bytes for each sample. *)
Theorem wav_writer_write_whole_file lrintf llrintf data n ch rate bits :
  0 < ch -> 0 < rate -> bits = 8 \/ bits = 16 \/ bits = 32 -> 0 <= n ->
  n * ch <= Z.of_nat (List.length data) ->
  n * ch * (bits / 8) + 36 <= Wav.UINT32_MAX ->
  rate * ch * (bits / 8) <= Wav.UINT32_MAX ->
  ch * (bits / 8) <= Wav.UINT16_MAX ->
  exists body,
    Wav.wav_writer_write lrintf llrintf (Wav.mk_writer data n ch rate bits)
    = Wav.Wrote true
        (Wav.header_bytes
           (Wav.mk_header [82; 73; 70; 70] (36 + n * ch * (bits / 8))
              [87; 65; 86; 69] [102; 109; 116; 32] 16 1 ch rate
              (rate * ch * (bits / 8)) (ch * (bits / 8)) bits
              [100; 97; 116; 97] (n * ch * (bits / 8))) ++ body) /\
    Z.of_nat (List.length body) = n * ch * (bits / 8) /\
    Forall (fun b => 0 <= b < 256) body.
Proof.
  apply writer_whole_file.
Qed.

Lemma wav_writer_write_whole_file_witness :
  exists body,
    Wav.wav_writer_write rint_nearest_even rint_nearest_even
      (Wav.mk_writer [f32_0_5; f32_0_9; f32_infinity; f32_0_1] 2 2 16000 16)
    = Wav.Wrote true
        (Wav.header_bytes
           (Wav.mk_header [82; 73; 70; 70] (36 + 2 * 2 * (16 / 8))
              [87; 65; 86; 69] [102; 109; 116; 32] 16 1 2 16000
              (16000 * 2 * (16 / 8)) (2 * (16 / 8)) 16
              [100; 97; 116; 97] (2 * 2 * (16 / 8))) ++ body) /\
    Z.of_nat (List.length body) = 2 * 2 * (16 / 8) /\
    Forall (fun b => 0 <= b < 256) body.
Proof.
  apply (wav_writer_write_whole_file rint_nearest_even rint_nearest_even
           [f32_0_5; f32_0_9; f32_infinity; f32_0_1] 2 2 16000 16);
    try (vm_compute; congruence); try lia.
Defined.

Lemma ckd_mul_inv a b c : Wav.ckd_mul a b = Some c -> c = a * b /\ a * b <= SIZE_MAX.
Proof.
  unfold Wav.ckd_mul. destruct (Z.leb_spec (a * b) SIZE_MAX); [|discriminate].
  intros [= <-]. now split.
Qed.

Lemma ckd_add_inv a b c : Wav.ckd_add a b = Some c -> c = a + b /\ a + b <= SIZE_MAX.
Proof.
  unfold Wav.ckd_add. destruct (Z.leb_spec (a + b) SIZE_MAX); [|discriminate].
  intros [= <-]. now split.
Qed.

Lemma writer_header_inv data n ch rate bits h :
  0 <= n -> 0 < ch <= INT_MAX -> 0 < rate <= INT_MAX -> 0 < bits <= INT_MAX ->
  Z.rem bits 8 = 0 ->
  Wav.writer_header (Wav.mk_writer data n ch rate bits) = Some h ->
  n * ch * (bits / 8) + 36 <= Wav.UINT32_MAX /\
  rate * ch * (bits / 8) <= Wav.UINT32_MAX /\
  ch * (bits / 8) <= Wav.UINT16_MAX.
Proof.
  unfold INT_MAX. intros Hn Hch Hrate Hbits Hrem.
  assert (Hq : Z.quot bits 8 = bits / 8) by (apply Z.quot_div_nonneg; lia).
  assert (HB : 1 <= bits / 8 <= 2147483647).
  { apply Z.rem_divide in Hrem; [|lia]. destruct Hrem as [k ->].
    rewrite Z.div_mul by lia. lia. }
  set (B := bits / 8) in *.
  unfold Wav.writer_header.
  cbn [Wav.w_num_samples Wav.w_num_channel Wav.w_sample_rate Wav.w_bits_per_sample].
  rewrite Hq. fold B.
  rewrite (to_size_id ch) by (unfold SIZE_MAX; nia).
  rewrite (to_size_id B) by (unfold SIZE_MAX; nia).
  rewrite (to_size_id rate) by (unfold SIZE_MAX; nia).
  destruct (Wav.ckd_mul n ch) as [s1|] eqn:E1; [|discriminate].
  apply ckd_mul_inv in E1 as [-> _].
  destruct (Wav.ckd_mul (n * ch) B) as [s2|] eqn:E2; [|discriminate].
  apply ckd_mul_inv in E2 as [-> _].
  unfold Wav.UINT32_MAX, Wav.UINT16_MAX.
  destruct (Z.gtb_spec (n * ch * B) 4294967295); [discriminate|].
  destruct (Wav.ckd_add (44 - 8) (n * ch * B)) as [s3|] eqn:E3; [|discriminate].
  apply ckd_add_inv in E3 as [-> _].
  destruct (Z.gtb_spec (44 - 8 + n * ch * B) 4294967295); [discriminate|].
  destruct (Wav.ckd_mul rate ch) as [s4|] eqn:E4; [|discriminate].
  apply ckd_mul_inv in E4 as [-> _].
  destruct (Wav.ckd_mul (rate * ch) B) as [s5|] eqn:E5; [|discriminate].
  apply ckd_mul_inv in E5 as [-> _].
  destruct (Z.gtb_spec (rate * ch * B) 4294967295); [discriminate|].
  destruct (Wav.ckd_mul ch B) as [s6|] eqn:E6; [|discriminate].
  apply ckd_mul_inv in E6 as [-> _].
  destruct (Z.gtb_spec (ch * B) 65535); [discriminate|].
  intros _. lia.
Qed.

(** X16. The writer returns true only when its channel count, rate and
    depth are positive, the depth is a multiple of 8, and the data size,
    the data rate and the frame size fit their header fields; the depth is
    then 8, 16 or 32 unless there is nothing to write, and the file is the
    44-byte header followed by exactly the sample bytes. *)
Theorem wav_writer_write_true_only lrintf llrintf data n ch rate bits file :
  0 <= n -> ch <= INT_MAX -> rate <= INT_MAX -> bits <= INT_MAX ->
  Wav.wav_writer_write lrintf llrintf (Wav.mk_writer data n ch rate bits)
  = Wav.Wrote true file ->
  0 < ch /\ 0 < rate /\ 0 < bits /\ Z.rem bits 8 = 0 /\
  n * ch * (bits / 8) + 36 <= Wav.UINT32_MAX /\
  rate * ch * (bits / 8) <= Wav.UINT32_MAX /\
  ch * (bits / 8) <= Wav.UINT16_MAX /\
  (n = 0 \/ bits = 8 \/ bits = 16 \/ bits = 32) /\
  Z.of_nat (List.length file) = 44 + n * ch * (bits / 8).
Proof.
  intros Hn Hch Hrate Hbits. unfold Wav.wav_writer_write.
  cbn [Wav.w_num_samples Wav.w_num_channel Wav.w_sample_rate
       Wav.w_bits_per_sample Wav.w_data].
  destruct (Z.leb_spec ch 0); [discriminate|].
  destruct (Z.leb_spec bits 0); [discriminate|].
  destruct (Z.leb_spec rate 0); [discriminate|].
  destruct (Z.eqb_spec (Z.rem bits 8) 0) as [Hrem|]; [|discriminate].
  cbn [orb negb].
  destruct (Wav.writer_header (Wav.mk_writer data n ch rate bits)) as [h|] eqn:Eh;
    [|discriminate].
  pose proof (writer_header_inv data n ch rate bits h Hn ltac:(lia) ltac:(lia)
                ltac:(lia) Hrem Eh) as (Hd & Hr & Hb).
  rewrite writer_header_fits in Eh by (assumption || lia).
  injection Eh as <-.
  destruct (Wav.write_samples lrintf llrintf bits (Z.to_nat (n * ch)) data)
    as [[ok body]|] eqn:Ew; [|discriminate].
  remember (Wav.header_bytes (Wav.expected_header n ch rate bits)) as hb eqn:Ehb.
  intros [= -> <-]. subst hb.
  destruct (write_samples_length _ _ _ _ _ _ _ Ew) as [_ Hok].
  destruct (Hok eq_refl) as [Hl Hcase].
  do 7 (split; [assumption|]).
  split.
  - destruct Hcase as [Hz|Hs]; [left; nia|right; exact Hs].
  - rewrite length_app, header_bytes_length by reflexivity.
    rewrite Nat2Z.inj_add, Hl, Z2Nat.id by nia. lia.
Qed.

Lemma wav_writer_write_true_only_witness :
  0 < 1 /\ 0 < 16000 /\ 0 < 16 /\ Z.rem 16 8 = 0 /\
  3 * 1 * (16 / 8) + 36 <= Wav.UINT32_MAX /\
  16000 * 1 * (16 / 8) <= Wav.UINT32_MAX /\
  1 * (16 / 8) <= Wav.UINT16_MAX /\
  (3 = 0 \/ 16 = 8 \/ 16 = 16 \/ 16 = 32) /\
  Z.of_nat (List.length
    [82; 73; 70; 70; 42; 0; 0; 0; 87; 65; 86; 69; 102; 109; 116; 32; 16; 0;
     0; 0; 1; 0; 1; 0; 128; 62; 0; 0; 0; 125; 0; 0; 2; 0; 16; 0; 100; 97;
     116; 97; 6; 0; 0; 0; 0; 64; 50; 115; 1; 128]) = 44 + 3 * 1 * (16 / 8).
Proof.
  apply (wav_writer_write_true_only rint_nearest_even rint_nearest_even
           [f32_0_5; f32_0_9; Wav.f32_minus_one] 3 1 16000 16);
    try (vm_compute; congruence); reflexivity.
Defined.

(** X17. A depth that is a multiple of 8 but not 8, 16 or 32 is not turned
    away before the file is created: the header is written, with the data
    size the samples would have had, and nothing after it.  The call
    returns true when there are no samples and false otherwise. *)
Theorem unsupported_depth_leaves_header lrintf llrintf data n ch rate bits :
  0 < ch -> 0 < rate -> 0 < bits -> Z.rem bits 8 = 0 ->
  bits <> 8 -> bits <> 16 -> bits <> 32 -> 0 <= n ->
  (0 < n -> data <> []) ->
  n * ch * (bits / 8) + 36 <= Wav.UINT32_MAX ->
  rate * ch * (bits / 8) <= Wav.UINT32_MAX ->
  ch * (bits / 8) <= Wav.UINT16_MAX ->
  Wav.wav_writer_write lrintf llrintf (Wav.mk_writer data n ch rate bits)
  = Wav.Wrote (n =? 0) (Wav.header_bytes (Wav.expected_header n ch rate bits)).
Proof.
  intros Hch Hrate Hbits Hrem N8 N16 N32 Hn Hdata Hd Hr Hb.
  unfold Wav.wav_writer_write.
  cbn [Wav.w_num_samples Wav.w_num_channel Wav.w_sample_rate
       Wav.w_bits_per_sample Wav.w_data].
  replace (ch <=? 0) with false by (symmetry; apply Z.leb_gt; lia).
  replace (bits <=? 0) with false by (symmetry; apply Z.leb_gt; lia).
  replace (rate <=? 0) with false by (symmetry; apply Z.leb_gt; lia).
  rewrite Hrem. cbn [orb negb Z.eqb].
  rewrite writer_header_fits by assumption.
  destruct (Z.eqb_spec n 0) as [->|Hn0].
  - cbn [Z.mul Z.to_nat Wav.write_samples]. now rewrite app_nil_r.
  - destruct (Z.to_nat (n * ch)) as [|count] eqn:Ec; [nia|].
    destruct data as [|val rest]; [exfalso; apply Hdata; [lia|reflexivity]|].
    cbn [Wav.write_samples]. unfold Wav.encode_sample.
    apply Z.eqb_neq in N8, N16, N32. rewrite N8, N16, N32.
    now rewrite app_nil_r.
Qed.

Lemma unsupported_depth_leaves_header_witness :
  Wav.wav_writer_write rint_nearest_even rint_nearest_even
    (Wav.mk_writer [f32_0_5; f32_0_9] 2 1 16000 24)
  = Wav.Wrote (2 =? 0) (Wav.header_bytes (Wav.expected_header 2 1 16000 24)).
Proof.
  apply unsupported_depth_leaves_header;
    try (vm_compute; congruence); try lia; try discriminate.
Defined.

Lemma writer_in_bounds lrintf llrintf writer :
  Wav.w_num_samples writer * Wav.w_num_channel writer
  <= Z.of_nat (List.length (Wav.w_data writer)) ->
  Wav.wav_writer_write lrintf llrintf writer <> Wav.Undefined.
Proof.
  intros Hlen. unfold Wav.wav_writer_write.
  destruct (_ || _ || _); [discriminate|].
  destruct (negb _); [discriminate|].
  destruct (Wav.writer_header writer); [|discriminate].
  pose proof (write_samples_defined lrintf llrintf (Wav.w_bits_per_sample writer)
                (Z.to_nat (Wav.w_num_samples writer * Wav.w_num_channel writer))
                (Wav.w_data writer) ltac:(lia)) as Hw.
  destruct (Wav.write_samples _ _ _ _ _) as [[ok body]|]; [discriminate|contradiction].
Qed.

(** X18. When the buffer holds [num_samples * num_channel] samples the
    writer reads nothing behind its end. *)
Theorem wav_writer_write_in_bounds lrintf llrintf writer :
  Wav.w_num_samples writer * Wav.w_num_channel writer
  <= Z.of_nat (List.length (Wav.w_data writer)) ->
  Wav.wav_writer_write lrintf llrintf writer <> Wav.Undefined.
Proof.
  apply writer_in_bounds.
Qed.

Lemma wav_writer_write_in_bounds_witness :
  Wav.wav_writer_write rint_nearest_even rint_nearest_even
    (Wav.mk_writer [f32_0_5; f32_0_9] 1 2 8000 8) <> Wav.Undefined.
Proof.
  apply wav_writer_write_in_bounds. simpl. lia.
Defined.

(** * The WAV reader *)

Lemma le_value_bound l :
  Wav.bytes_ok l -> 0 <= Wav.le_value l < 256 ^ Z.of_nat (List.length l).
Proof.
  induction 1 as [|b l Hb Hl IH].
  - simpl. lia.
  - cbn [Wav.le_value List.length]. rewrite Nat2Z.inj_succ, Z.pow_succ_r by lia. lia.
Qed.

Lemma bytes_ok_firstn n l : Wav.bytes_ok l -> Wav.bytes_ok (firstn n l).
Proof.
  unfold Wav.bytes_ok. intros H. rewrite <- (firstn_skipn n l) in H.
  now apply Forall_app in H.
Qed.

Lemma bytes_ok_skipn n l : Wav.bytes_ok l -> Wav.bytes_ok (skipn n l).
Proof.
  unfold Wav.bytes_ok. intros H. rewrite <- (firstn_skipn n l) in H.
  now apply Forall_app in H.
Qed.

Lemma slice_bytes l off n : Wav.bytes_ok l -> Wav.bytes_ok (Wav.slice l off n).
Proof. intros H. now apply bytes_ok_firstn, bytes_ok_skipn. Qed.

Lemma slice_length l off n :
  (off + n <= List.length l)%nat -> List.length (Wav.slice l off n) = n.
Proof.
  intros H. unfold Wav.slice. rewrite length_firstn, length_skipn. lia.
Qed.

Lemma slice_length_le l off n : (List.length (Wav.slice l off n) <= n)%nat.
Proof. unfold Wav.slice. rewrite length_firstn. lia. Qed.

Lemma le_value_slice l off n :
  Wav.bytes_ok l -> 0 <= Wav.le_value (Wav.slice l off n) < 256 ^ Z.of_nat n.
Proof.
  intros H. pose proof (le_value_bound _ (slice_bytes l off n H)) as Hb.
  pose proof (slice_length_le l off n) as Hl.
  assert (256 ^ Z.of_nat (List.length (Wav.slice l off n)) <= 256 ^ Z.of_nat n)
    by (apply Z.pow_le_mono_r; lia).
  lia.
Qed.

Lemma read_at_some file pos n raw :
  0 <= n ->
  Wav.read_at file pos n = Some raw ->
  0 <= pos /\ pos + n <= Z.of_nat (List.length file) /\
  raw = Wav.slice file (Z.to_nat pos) (Z.to_nat n) /\
  Z.of_nat (List.length raw) = n.
Proof.
  intros Hn. unfold Wav.read_at.
  destruct (Z.leb_spec 0 pos); [|discriminate].
  destruct (Z.leb_spec (pos + n) (Z.of_nat (List.length file))); [|discriminate].
  cbn [andb]. intros [= <-]. repeat split; try assumption.
  rewrite slice_length by lia. lia.
Qed.

Lemma read_at_fits file pos n :
  0 <= pos -> pos + n <= Z.of_nat (List.length file) ->
  Wav.read_at file pos n = Some (Wav.slice file (Z.to_nat pos) (Z.to_nat n)).
Proof.
  intros Hp Hn. unfold Wav.read_at.
  apply Z.leb_le in Hp, Hn. now rewrite Hp, Hn.
Qed.

Lemma find_data_chunk_found fuel file p pos cs :
  Wav.bytes_ok file ->
  Wav.find_data_chunk fuel file p = Some (Some (pos, cs)) ->
  0 <= p /\ p + 8 <= pos <= Z.of_nat (List.length file) /\
  0 <= cs <= Wav.UINT32_MAX.
Proof.
  intros Hf. revert p. induction fuel as [|fuel IH]; intros p; [discriminate|].
  cbn [Wav.find_data_chunk].
  destruct (Wav.read_at file p 8) as [hdr|] eqn:Er; [|discriminate].
  apply read_at_some in Er as (Hp & Hlen & -> & Hl); [|lia].
  assert (Hcs : 0 <= Wav.le_value (skipn 4 (Wav.slice file (Z.to_nat p) (Z.to_nat 8)))
                <= Wav.UINT32_MAX).
  { pose proof (le_value_bound (skipn 4 (Wav.slice file (Z.to_nat p) (Z.to_nat 8)))) as Hb.
    assert (Hok : Wav.bytes_ok (skipn 4 (Wav.slice file (Z.to_nat p) (Z.to_nat 8)))).
    { now apply bytes_ok_skipn, slice_bytes. }
    specialize (Hb Hok). rewrite length_skipn in Hb.
    assert (Z.of_nat (List.length (Wav.slice file (Z.to_nat p) (Z.to_nat 8)) - 4) = 4) by lia.
    replace (Z.of_nat (List.length (Wav.slice file (Z.to_nat p) (Z.to_nat 8)) - 4))
      with 4 in Hb by lia.
    unfold Wav.UINT32_MAX. change (256 ^ 4) with 4294967296 in Hb. lia. }
  destruct (list_eq_dec Z.eq_dec _ _).
  - intros [= <- <-]. split; [lia|]. split; [lia|]. exact Hcs.
  - intros H. apply IH in H. destruct H as (H1 & H2 & H3).
    split; [lia|]. split; [|exact H3].
    assert (0 <= Wav.le_value (skipn 4 (Wav.slice file (Z.to_nat p) (Z.to_nat 8))))
      by apply Hcs.
    lia.
Qed.

Lemma find_data_chunk_terminates fuel file p :
  Wav.bytes_ok file ->
  (0 < fuel)%nat -> Z.of_nat (List.length file) - p < 8 * Z.of_nat fuel ->
  Wav.find_data_chunk fuel file p <> None.
Proof.
  intros Hf. revert p. induction fuel as [|fuel IH]; intros p Hpos Hfuel; [lia|].
  cbn [Wav.find_data_chunk].
  destruct (Wav.read_at file p 8) as [hdr|] eqn:Er; [|discriminate].
  apply read_at_some in Er as (Hp & Hlen & -> & Hl); [|lia].
  destruct (list_eq_dec Z.eq_dec _ _); [discriminate|].
  assert (Hcs : 0 <= Wav.le_value (skipn 4 (Wav.slice file (Z.to_nat p) (Z.to_nat 8)))).
  { apply le_value_bound. now apply bytes_ok_skipn, slice_bytes. }
  apply IH; [lia|].
  match goal with |- _ - (_ + ?c) < _ => change c with
    (Wav.le_value (skipn 4 (Wav.slice file (Z.to_nat p) (Z.to_nat 8)))) end.
  lia.
Qed.

Lemma chunks_length k n l fuel :
  (0 < k)%nat -> List.length l = (n * k)%nat -> (List.length l <= fuel)%nat ->
  List.length (Wav.chunks fuel k l) = n.
Proof.
  intros Hk. revert l fuel. induction n as [|n IH]; intros l fuel Hl Hf.
  - destruct l; [|discriminate]. destruct fuel; reflexivity.
  - assert (Hl' : List.length l = (k + n * k)%nat) by (rewrite Hl; reflexivity).
    destruct fuel as [|fuel]; [lia|].
    destruct l as [|b l]; [simpl in Hl'; lia|].
    cbn [Wav.chunks List.length]. f_equal. apply IH.
    + rewrite length_skipn, Hl'. lia.
    + rewrite length_skipn. lia.
Qed.

Lemma chunks_bytes k l fuel :
  Wav.bytes_ok l ->
  Forall (fun c => Wav.bytes_ok c /\ (List.length c <= k)%nat) (Wav.chunks fuel k l).
Proof.
  revert l. induction fuel as [|fuel IH]; intros l Hl; [constructor|].
  destruct l as [|b l]; [constructor|].
  cbn [Wav.chunks]. constructor.
  - split.
    + now apply bytes_ok_firstn.
    + rewrite length_firstn. lia.
  - apply IH. now apply bytes_ok_skipn.
Qed.

(** What the reader has settled when it reaches the sample data: the
    position [pos] of the data, the number of samples and the decoder. *)
Lemma wav_reader_open_inv fused file reader :
  Wav.bytes_ok file ->
  Wav.wav_reader_open fused file = Wav.Opened reader ->
  exists raw pos num_data decode raw_data,
    Wav.read_at file 0 44 = Some raw /\
    44 <= pos /\
    0 <= num_data /\
    Wav.read_at file pos (num_data * (Wav.bit (Wav.header_of_bytes raw) / 8))
    = Some raw_data /\
    num_data * (Wav.bit (Wav.header_of_bytes raw) / 8) <= Wav.UINT32_MAX /\
    Wav.channels (Wav.header_of_bytes raw) <> 0 /\
    (Wav.bit (Wav.header_of_bytes raw) = 8 /\ decode = Wav.decode_8 fused \/
     Wav.bit (Wav.header_of_bytes raw) = 16 /\ decode = Wav.decode_16 \/
     Wav.bit (Wav.header_of_bytes raw) = 32 /\
     (decode = Wav.decode_32 \/ decode = Wav.decode_float)) /\
    reader = Wav.mk_reader (Wav.channels (Wav.header_of_bytes raw))
               (to_int (Wav.sample_rate (Wav.header_of_bytes raw)))
               (Wav.bit (Wav.header_of_bytes raw))
               (num_data / Wav.channels (Wav.header_of_bytes raw))
               (map decode
                  (Wav.chunks (List.length raw_data)
                     (Z.to_nat (Wav.bit (Wav.header_of_bytes raw) / 8)) raw_data))
               true.
Proof.
  intros Hf. unfold Wav.wav_reader_open.
  destruct (Wav.read_at file 0 44) as [raw|] eqn:Eraw; [|discriminate].
  set (h := Wav.header_of_bytes raw).
  destruct (Z.ltb_spec (Wav.fmt_size h) 16); [discriminate|].
  destruct (_ && _); [discriminate|].
  destruct (Wav.find_data_chunk _ file _) as [[[pos cs]|]|] eqn:Ef; try discriminate.
  apply find_data_chunk_found in Ef as (_ & Hpos & Hcs); [|assumption].
  set (data_size := if cs =? 0 then _ else cs).
  assert (Hds : 0 <= data_size <= Wav.UINT32_MAX).
  { subst data_size. destruct (cs =? 0); [|assumption].
    unfold to_uint, Wav.UINT32_MAX.
    pose proof (Z.mod_pos_bound (Z.of_nat (List.length file) - pos) 4294967296). lia. }
  clearbody data_size.
  destruct (Z.eqb_spec (Wav.channels h) 0); [discriminate|].
  destruct (Z.eqb_spec (Wav.bit h) 0); [discriminate|].
  destruct (Z.eqb_spec (Wav.bit h / 8) 0); [discriminate|].
  destruct (if Wav.bit h =? 8 then _ else _) as [decode|] eqn:Ed; [|discriminate].
  destruct (Wav.read_at file pos _) as [raw_data|] eqn:Erd; [|discriminate].
  intros [= <-].
  assert (Hbits : Wav.bit h = 8 /\ decode = Wav.decode_8 fused \/
                  Wav.bit h = 16 /\ decode = Wav.decode_16 \/
                  Wav.bit h = 32 /\
                  (decode = Wav.decode_32 \/ decode = Wav.decode_float)).
  { destruct (Z.eqb_spec (Wav.bit h) 8); [injection Ed as <-; auto|].
    destruct (Z.eqb_spec (Wav.bit h) 16); [injection Ed as <-; auto|].
    destruct (Z.eqb_spec (Wav.bit h) 32); [|discriminate].
    destruct (Wav.format h =? 1); [injection Ed as <-; auto|].
    destruct (Wav.format h =? 3); [injection Ed as <-; auto|discriminate]. }
  assert (HB : 1 <= Wav.bit h / 8)
    by (destruct Hbits as [[-> _]|[[-> _]|[-> _]]]; cbv; congruence).
  exists raw, pos, (data_size / (Wav.bit h / 8)), decode, raw_data.
  assert (0 <= data_size / (Wav.bit h / 8)) by (apply Z.div_pos; lia).
  assert (data_size / (Wav.bit h / 8) * (Wav.bit h / 8) <= data_size)
    by (rewrite Z.mul_comm; apply Z.mul_div_le; lia).
  repeat split; try assumption; try lia.
  fold h. lia.
Qed.

(** X19. A reader that [wav_reader_open] has filled from a file of bytes has
    between 1 and 65535 channels and a depth of 8, 16 or 32 bits;
    [num_samples] is the number of decoded samples divided by the channel
    count, rounded down; and the file holds the 44-byte header and every
    decoded sample in full. *)
Theorem wav_reader_open_ok fused file reader :
  Wav.bytes_ok file ->
  Wav.wav_reader_open fused file = Wav.Opened reader ->
  Wav.reader_ok reader /\
  44 + Z.of_nat (List.length (Wav.r_data reader))
       * (Wav.r_bits_per_sample reader / 8)
  <= Z.of_nat (List.length file).
Proof.
  intros Hf Hopen.
  destruct (wav_reader_open_inv fused file reader Hf Hopen)
    as (raw & pos & num_data & decode & raw_data & Eraw & Hpos & Hnd & Erd & Hsz
        & Hch & Hbits & ->).
  set (h := Wav.header_of_bytes raw) in *.
  assert (HB : 1 <= Wav.bit h / 8 <= 4)
    by (destruct Hbits as [[-> _]|[[-> _]|[-> _]]]; cbv; split; congruence).
  apply read_at_some in Erd as (_ & Hfit & _ & Hrl); [|nia].
  apply read_at_some in Eraw as (_ & _ & -> & _); [|lia].
  assert (Hchan : 0 <= Wav.channels h < 65536).
  { subst h. cbn [Wav.header_of_bytes Wav.channels].
    apply (le_value_slice _ 22 2). now apply slice_bytes. }
  assert (Hlen : List.length
                   (map decode
                      (Wav.chunks (List.length raw_data)
                         (Z.to_nat (Wav.bit h / 8)) raw_data))
                 = Z.to_nat num_data).
  { rewrite length_map. apply chunks_length; [lia| |lia].
    apply Nat2Z.inj. rewrite Hrl, Nat2Z.inj_mul, !Z2Nat.id; lia. }
  unfold Wav.reader_ok.
  cbn [Wav.r_num_channel Wav.r_bits_per_sample Wav.r_num_samples Wav.r_data
       Wav.r_loaded].
  rewrite Hlen, Z2Nat.id by lia. unfold Wav.UINT16_MAX.
  repeat split; lia.
Qed.

Lemma wav_reader_open_ok_witness :
  Wav.reader_ok (Wav.mk_reader 1 16000 16 3
    [S754_finite false 8388608 (-24); S754_finite false 15098880 (-24);
     S754_finite true 16776704 (-24)] true) /\
  44 + Z.of_nat 3 * (16 / 8) <= Z.of_nat 50.
Proof.
  apply (wav_reader_open_ok false
    [82; 73; 70; 70; 42; 0; 0; 0; 87; 65; 86; 69; 102; 109; 116; 32; 16; 0;
     0; 0; 1; 0; 1; 0; 128; 62; 0; 0; 0; 125; 0; 0; 2; 0; 16; 0; 100; 97;
     116; 97; 6; 0; 0; 0; 0; 64; 50; 115; 1; 128]).
  - repeat constructor; lia.
  - vm_compute. reflexivity.
Defined.

(** X20. The search for the "data" chunk ends on every file: each round
    reads eight bytes further on, so one round more than the file has bytes
    is enough to find the chunk or the end of the file. *)
Theorem chunk_search_ends file pos :
  Wav.bytes_ok file -> 0 <= pos ->
  Wav.find_data_chunk (S (List.length file)) file pos <> None.
Proof.
  intros Hf Hpos. apply find_data_chunk_terminates; [assumption|lia|lia].
Qed.

Lemma chunk_search_ends_witness :
  Wav.find_data_chunk (S (List.length [1; 2; 3; 4; 0; 0; 0; 0; 100; 97; 116; 97]))
    [1; 2; 3; 4; 0; 0; 0; 0; 100; 97; 116; 97] 0 <> None.
Proof.
  apply chunk_search_ends; [repeat constructor; lia|lia].
Defined.

Lemma header_tag_at_36 file :
  firstn 4 (Wav.slice file 36 8) = Wav.slice (Wav.slice file 0 44) 36 4.
Proof.
  unfold Wav.slice. change (skipn 0 file) with file. rewrite skipn_firstn_comm.
  change (44 - 36)%nat with 8%nat.
  rewrite !firstn_firstn. reflexivity.
Qed.

(** X21. On a file with the plain 44-byte header (a 16-byte format chunk
    followed at once by the "data" chunk), a channel count other than 0 and
    a depth of 1 to 7 bits, [wav_reader_open] divides by
    [bits_per_sample / 8 = 0]: the depth is not turned down before the
    division. *)
Theorem shallow_depth_divides_by_zero fused file raw :
  Wav.read_at file 0 44 = Some raw ->
  Wav.fmt_size (Wav.header_of_bytes raw) = 16 ->
  Wav.data (Wav.header_of_bytes raw) = [100; 97; 116; 97] ->
  Wav.channels (Wav.header_of_bytes raw) <> 0 ->
  0 < Wav.bit (Wav.header_of_bytes raw) < 8 ->
  Wav.wav_reader_open fused file = Wav.DivideByZero.
Proof.
  intros Eraw Hfmt Htag Hch Hbit. unfold Wav.wav_reader_open.
  rewrite Eraw, Hfmt. cbn [Z.ltb Z.gtb Z.compare Pos.compare Pos.compare_cont andb Z.add Pos.add].
  apply read_at_some in Eraw as (_ & Hlen & -> & _); [|lia].
  cbn [Wav.find_data_chunk].
  rewrite (read_at_fits file 36 8) by lia.
  change (Z.to_nat 36) with 36%nat. change (Z.to_nat 8) with 8%nat.
  rewrite header_tag_at_36.
  change (Z.to_nat 0) with 0%nat in Htag. change (Z.to_nat 44) with 44%nat in Htag.
  cbn [Wav.header_of_bytes Wav.data] in Htag. rewrite Htag.
  destruct (list_eq_dec Z.eq_dec [100; 97; 116; 97] [100; 97; 116; 97]) as [_|N];
    [|contradiction].
  destruct (Z.eqb_spec (Wav.channels (Wav.header_of_bytes (Wav.slice file (Z.to_nat 0) (Z.to_nat 44)))) 0);
    [contradiction|].
  destruct (Z.eqb_spec (Wav.bit (Wav.header_of_bytes (Wav.slice file (Z.to_nat 0) (Z.to_nat 44)))) 0);
    [lia|].
  rewrite Z.div_small by lia. reflexivity.
Qed.

Lemma shallow_depth_divides_by_zero_witness :
  Wav.wav_reader_open false
    [82; 73; 70; 70; 36; 0; 0; 0; 87; 65; 86; 69; 102; 109; 116; 32; 16; 0;
     0; 0; 1; 0; 1; 0; 128; 62; 0; 0; 128; 62; 0; 0; 1; 0; 4; 0; 100; 97;
     116; 97; 0; 0; 0; 0] = Wav.DivideByZero.
Proof.
  eapply (shallow_depth_divides_by_zero false);
    [vm_compute; reflexivity|reflexivity|reflexivity|vm_compute; congruence|vm_compute; split; reflexivity].
Defined.

Lemma all_bits_spec k acc P :
  Wav.all_bits k acc P = true ->
  forall z, acc * 2 ^ Z.of_nat k <= z < (acc + 1) * 2 ^ Z.of_nat k -> P z = true.
Proof.
  revert acc. induction k as [|k IH]; intros acc H z Hz.
  - cbn [Wav.all_bits] in H. change (2 ^ Z.of_nat 0) with 1 in Hz.
    replace z with acc by lia. exact H.
  - cbn [Wav.all_bits] in H. apply andb_prop in H as [H0 H1].
    rewrite Nat2Z.inj_succ, Z.pow_succ_r in Hz by lia.
    destruct (Z.lt_ge_cases z ((2 * acc + 1) * 2 ^ Z.of_nat k)).
    + apply (IH _ H0). lia.
    + apply (IH _ H1). lia.
Qed.

Lemma decode_8_table :
  Wav.all_bits 8 0
    (fun z => Wav.in_range
                (f32_sub (f32_mul (f32_of_int z) Wav.inv_scale_8) f32_one))
  = true.
Proof. vm_compute. reflexivity. Qed.

Lemma decode_8_fused_table :
  Wav.all_bits 8 0
    (fun z => Bool.eqb
                (Wav.in_range
                   (Wav.f32_fma (f32_of_int z) Wav.inv_scale_8 Wav.f32_minus_one))
                (negb (z =? 255)))
  = true.
Proof. vm_compute. reflexivity. Qed.

Lemma decode_16_table :
  Wav.all_bits 16 0
    (fun z => Wav.in_range
                (f32_mul (f32_of_int (Wav.to_i16 z)) Wav.inv_scale_16))
  = true.
Proof. vm_compute. reflexivity. Qed.

Lemma byte_value b :
  Wav.bytes_ok b -> (List.length b <= 1)%nat -> 0 * 2 ^ Z.of_nat 8 <= Wav.le_value b < (0 + 1) * 2 ^ Z.of_nat 8.
Proof.
  intros Hb Hl. pose proof (le_value_bound b Hb) as Hv.
  assert (256 ^ Z.of_nat (List.length b) <= 256 ^ 1) by (apply Z.pow_le_mono_r; lia).
  change (2 ^ Z.of_nat 8) with 256. change (256 ^ 1) with 256 in *. lia.
Qed.

Lemma decode_8_range b :
  Wav.bytes_ok b -> (List.length b <= 1)%nat ->
  Wav.in_range (Wav.decode_8 false b) = true.
Proof.
  intros Hb Hl.
  apply (all_bits_spec _ _ _ decode_8_table (Wav.le_value b)).
  now apply byte_value.
Qed.

Lemma decode_8_fused_range b :
  Wav.bytes_ok b -> (List.length b <= 1)%nat ->
  Wav.in_range (Wav.decode_8 true b) = negb (Wav.le_value b =? 255).
Proof.
  intros Hb Hl. apply Bool.eqb_prop.
  apply (all_bits_spec _ _ _ decode_8_fused_table (Wav.le_value b)).
  now apply byte_value.
Qed.

Lemma decode_16_range b :
  Wav.bytes_ok b -> (List.length b <= 2)%nat -> Wav.in_range (Wav.decode_16 b) = true.
Proof.
  intros Hb Hl. pose proof (le_value_bound b Hb) as Hv.
  assert (256 ^ Z.of_nat (List.length b) <= 256 ^ 2) by (apply Z.pow_le_mono_r; lia).
  apply (all_bits_spec _ _ _ decode_16_table (Wav.le_value b)).
  change (2 ^ Z.of_nat 16) with 65536. change (256 ^ 2) with 65536 in *. lia.
Qed.

(** X22. Every sample [wav_reader_open] decodes from a 16-bit file lies
    between -1 and 1, and so does every sample of an 8-bit file when the
    product [(float)sample * inv_scale] is rounded before 1 is subtracted.
    When the compiler contracts the expression into a fused multiply-add,
    the byte 255, and no other, decodes to a sample above 1, namely
    [1 + 2^-23]. *)
Theorem pcm_samples_in_range fused file reader :
  (Wav.bytes_ok file ->
   Wav.wav_reader_open fused file = Wav.Opened reader ->
   Wav.r_bits_per_sample reader = 16 \/
   Wav.r_bits_per_sample reader = 8 /\ fused = false ->
   forallb Wav.in_range (Wav.r_data reader) = true) /\
  (forall b, Wav.bytes_ok b -> (List.length b <= 1)%nat ->
             Wav.in_range (Wav.decode_8 true b)
             = negb (Wav.le_value b =? 255)) /\
  Wav.decode_8 true [255] = S754_finite false 8388609 (-23).
Proof.
  split; [|split; [apply decode_8_fused_range | vm_compute; reflexivity]].
  intros Hf Hopen Hbits.
  destruct (wav_reader_open_inv fused file reader Hf Hopen)
    as (raw & pos & num_data & decode & raw_data & Eraw & Hpos & Hnd & Erd & Hsz
        & Hch & Hdec & ->).
  cbn [Wav.r_bits_per_sample Wav.r_data] in *.
  assert (Hrd : Wav.bytes_ok raw_data).
  { unfold Wav.read_at in Erd. destruct (_ && _); [|discriminate].
    injection Erd as <-. now apply slice_bytes. }
  pose proof (chunks_bytes (Z.to_nat (Wav.bit (Wav.header_of_bytes raw) / 8))
                raw_data (List.length raw_data) Hrd) as Hc.
  rewrite forallb_forall. intros x Hx. apply in_map_iff in Hx as (c & <- & Hin).
  rewrite Forall_forall in Hc. destruct (Hc c Hin) as [Hcb Hcl].
  destruct Hdec as [[H8 ->]|[[H16 ->]|[H32 _]]].
  - destruct Hbits as [H|[_ ->]]; [lia|].
    rewrite H8 in Hcl. apply decode_8_range; [assumption|exact Hcl].
  - rewrite H16 in Hcl. apply decode_16_range; [assumption|exact Hcl].
  - lia.
Qed.

Lemma pcm_samples_in_range_witness :
  forallb Wav.in_range
    [S754_finite true 8388608 (-23); S754_finite false 8421632 (-31);
     S754_finite false 8388608 (-23)] = true.
Proof.
  destruct (pcm_samples_in_range false
    [82; 73; 70; 70; 39; 0; 0; 0; 87; 65; 86; 69; 102; 109; 116; 32; 16; 0;
     0; 0; 1; 0; 1; 0; 64; 31; 0; 0; 64; 31; 0; 0; 1; 0; 8; 0; 100; 97;
     116; 97; 3; 0; 0; 0; 0; 128; 255]
    (Wav.mk_reader 1 8000 8 3
       [S754_finite true 8388608 (-23); S754_finite false 8421632 (-31);
        S754_finite false 8388608 (-23)] true)) as [Hrange _].
  apply Hrange.
  - repeat constructor; lia.
  - vm_compute. reflexivity.
  - right. split; reflexivity.
Defined.

(** * Writing and reading back *)

Lemma le_value_2 z :
  0 <= z < 65536 -> Wav.le_value [z mod 256; (z / 256) mod 256] = z.
Proof.
  intros Hz. change (Wav.le_value (Wav.le_bytes 2 z) = z).
  rewrite le_value_le_bytes. apply Z.mod_small. exact Hz.
Qed.

Lemma le_value_4 z :
  0 <= z < 4294967296 ->
  Wav.le_value [z mod 256; (z / 256) mod 256; (z / 256 / 256) mod 256;
                (z / 256 / 256 / 256) mod 256] = z.
Proof.
  intros Hz. change (Wav.le_value (Wav.le_bytes 4 z) = z).
  rewrite le_value_le_bytes. apply Z.mod_small. exact Hz.
Qed.

Ltac four_bytes l :=
  let a := fresh "a" in let b := fresh "b" in
  let c := fresh "c" in let d := fresh "d" in
  destruct l as [|a [|b [|c [|d [|? ?]]]]]; try discriminate.

Lemma header_round_trip h body :
  Wav.header_fits h ->
  Wav.header_of_bytes (Wav.slice (Wav.header_bytes h ++ body) 0 44) = h /\
  firstn 4 (Wav.slice (Wav.header_bytes h ++ body) 36 8) = Wav.data h /\
  Wav.le_value (skipn 4 (Wav.slice (Wav.header_bytes h ++ body) 36 8))
  = Wav.data_size h /\
  skipn 44 (Wav.header_bytes h ++ body) = body.
Proof.
  destruct h as [riff size wav fmt fmt_size format channels sample_rate
                 bytes_per_second block_size bit data data_size].
  unfold Wav.header_fits.
  cbn [Wav.riff Wav.size Wav.wav Wav.fmt Wav.fmt_size Wav.format Wav.channels
       Wav.sample_rate Wav.bytes_per_second Wav.block_size Wav.bit Wav.data
       Wav.data_size].
  intros (Hr & Hw & Hf & Hd & Hsize & Hfs & Hfo & Hch & Hsr & Hbps & Hbs & Hbit & Hds).
  four_bytes riff. four_bytes wav. four_bytes fmt. four_bytes data.
  cbn [Wav.header_bytes Wav.header_of_bytes Wav.slice firstn skipn app Wav.le_bytes
       Wav.riff Wav.size Wav.wav Wav.fmt Wav.fmt_size Wav.format Wav.channels
       Wav.sample_rate Wav.bytes_per_second Wav.block_size Wav.bit Wav.data
       Wav.data_size].
  unfold Wav.header_of_bytes. cbn [Wav.slice firstn skipn].
  rewrite !le_value_4, !le_value_2 by assumption.
  repeat split; reflexivity.
Qed.

Lemma plain_file_opens fused h body k :
  Wav.header_fits h -> Wav.fmt_size h = 16 -> Wav.format h = 1 ->
  Wav.data h = [100; 97; 116; 97] ->
  Wav.channels h <> 0 ->
  Wav.bit h = 8 \/ Wav.bit h = 16 \/ Wav.bit h = 32 ->
  0 <= k -> Z.of_nat (List.length body) = k * (Wav.bit h / 8) ->
  Wav.data_size h = Z.of_nat (List.length body) ->
  exists samples,
    Wav.wav_reader_open fused (Wav.header_bytes h ++ body)
    = Wav.Opened (Wav.mk_reader (Wav.channels h) (to_int (Wav.sample_rate h))
                    (Wav.bit h) (k / Wav.channels h) samples true) /\
    Z.of_nat (List.length samples) = k.
Proof.
  intros Hfits Hfmt Hformat Hdata Hch Hbits Hk Hbody Hsize.
  destruct (header_round_trip h body Hfits) as (Hh & Htag & Hsz & Hskip).
  assert (Hhl : List.length (Wav.header_bytes h) = 44%nat)
    by (apply header_bytes_length; apply Hfits).
  assert (Hlen : Z.of_nat (List.length (Wav.header_bytes h ++ body))
                 = 44 + Z.of_nat (List.length body))
    by (rewrite length_app, Hhl; lia).
  assert (HB : 1 <= Wav.bit h / 8 <= 4)
    by (destruct Hbits as [->|[->| ->]]; cbv; split; congruence).
  unfold Wav.wav_reader_open.
  rewrite (read_at_fits _ 0 44) by lia.
  change (Z.to_nat 0) with 0%nat. change (Z.to_nat 44) with 44%nat.
  rewrite Hh, Hfmt.
  change (16 <? 16) with false. change (16 >? 16) with false.
  cbn [andb]. change (20 + 16) with 36.
  cbn [Wav.find_data_chunk].
  rewrite (read_at_fits _ 36 8) by lia.
  change (Z.to_nat 36) with 36%nat. change (Z.to_nat 8) with 8%nat.
  rewrite Htag, Hsz, Hdata.
  destruct (list_eq_dec Z.eq_dec [100; 97; 116; 97] [100; 97; 116; 97]) as [_|N];
    [|contradiction].
  change (36 + 8) with 44.
  replace (if Wav.data_size h =? 0
           then to_uint (Z.of_nat (List.length (Wav.header_bytes h ++ body)) - 44)
           else Wav.data_size h)
    with (Z.of_nat (List.length body)).
  2: { destruct (Z.eqb_spec (Wav.data_size h) 0) as [E|E]; [|now rewrite Hsize].
       rewrite Hlen, <- Hsize, E. reflexivity. }
  apply Z.eqb_neq in Hch. rewrite Hch.
  replace (Wav.bit h =? 0) with false
    by (destruct Hbits as [->|[->| ->]]; reflexivity).
  replace (Wav.bit h / 8 =? 0) with false by (symmetry; apply Z.eqb_neq; lia).
  rewrite Hbody, Z.div_mul by lia.
  rewrite (read_at_fits _ 44 (k * (Wav.bit h / 8))) by lia.
  unfold Wav.slice. change (Z.to_nat 44) with 44%nat. rewrite Hskip.
  rewrite <- Hbody, Nat2Z.id, firstn_all.
  assert (Hcl : forall decode : list Z -> float,
             Z.of_nat (List.length
                         (map decode
                            (Wav.chunks (List.length body)
                               (Z.to_nat (Wav.bit h / 8)) body))) = k).
  { intros decode. rewrite length_map.
    rewrite (chunks_length (Z.to_nat (Wav.bit h / 8)) (Z.to_nat k)); [lia|lia| |lia].
    apply Nat2Z.inj. rewrite Hbody, Nat2Z.inj_mul, !Z2Nat.id; lia. }
  rewrite Hformat.
  destruct Hbits as [E|[E|E]]; rewrite E in *; cbn [Z.eqb Pos.eqb];
    eexists; (split; [reflexivity|apply Hcl]).
Qed.

(** X23. What the writer has written, the reader opens: for a depth of 8, 16
    or 32 bits and sizes that fit the header, the file [wav_writer_write]
    produces is accepted by [wav_reader_open], which reports the writer's
    channel count, rate, depth and [num_samples] and decodes
    [num_samples * num_channel] samples. *)
Theorem written_file_reads_back fused lrintf llrintf data n ch rate bits :
  0 < ch -> 0 < rate <= INT_MAX -> bits = 8 \/ bits = 16 \/ bits = 32 ->
  0 <= n -> n * ch <= Z.of_nat (List.length data) ->
  n * ch * (bits / 8) + 36 <= Wav.UINT32_MAX ->
  rate * ch * (bits / 8) <= Wav.UINT32_MAX ->
  ch * (bits / 8) <= Wav.UINT16_MAX ->
  exists file samples,
    Wav.wav_writer_write lrintf llrintf (Wav.mk_writer data n ch rate bits)
    = Wav.Wrote true file /\
    Wav.wav_reader_open fused file
    = Wav.Opened (Wav.mk_reader ch rate bits n samples true) /\
    Z.of_nat (List.length samples) = n * ch.
Proof.
  intros Hch Hrate Hbits Hn Hlen Hd Hr Hb.
  destruct (writer_whole_file lrintf llrintf data n ch rate bits Hch
              ltac:(lia) Hbits Hn Hlen Hd Hr Hb) as (body & Hw & Hbl & _).
  assert (HB : 1 <= bits / 8 <= 4)
    by (destruct Hbits as [->|[->| ->]]; cbv; split; congruence).
  unfold Wav.UINT32_MAX, Wav.UINT16_MAX, INT_MAX in *.
  set (h := Wav.mk_header [82; 73; 70; 70] (36 + n * ch * (bits / 8))
              [87; 65; 86; 69] [102; 109; 116; 32] 16 1 ch rate
              (rate * ch * (bits / 8)) (ch * (bits / 8)) bits
              [100; 97; 116; 97] (n * ch * (bits / 8))) in *.
  assert (Hfits : Wav.header_fits h).
  { unfold Wav.header_fits, h.
    cbn [Wav.riff Wav.size Wav.wav Wav.fmt Wav.fmt_size Wav.format Wav.channels
         Wav.sample_rate Wav.bytes_per_second Wav.block_size Wav.bit Wav.data
         Wav.data_size List.length].
    repeat split; try reflexivity; try nia.
    all: destruct Hbits as [->|[->| ->]]; lia. }
  assert (Hchan : Wav.channels h <> 0) by (cbn [h Wav.channels]; lia).
  assert (Hcount : 0 <= n * ch) by nia.
  assert (Hsize : Wav.data_size h = Z.of_nat (List.length body))
    by (cbn [h Wav.data_size]; now rewrite Hbl).
  destruct (plain_file_opens fused h body (n * ch) Hfits eq_refl eq_refl eq_refl
              Hchan Hbits Hcount Hbl Hsize) as (samples & Hopen & Hsl).
  exists (Wav.header_bytes h ++ body), samples.
  split; [exact Hw|]. split; [|exact Hsl].
  rewrite Hopen. cbn [h Wav.channels Wav.sample_rate Wav.bit].
  rewrite to_int_id by (unfold INT_MIN, INT_MAX; lia).
  rewrite Z.div_mul by lia. reflexivity.
Qed.

Lemma written_file_reads_back_witness :
  exists file samples,
    Wav.wav_writer_write rint_nearest_even rint_nearest_even
      (Wav.mk_writer [f32_0_5; f32_0_9; f32_infinity; f32_0_1] 2 2 16000 16)
    = Wav.Wrote true file /\
    Wav.wav_reader_open false file
    = Wav.Opened (Wav.mk_reader 2 16000 16 2 samples true) /\
    Z.of_nat (List.length samples) = 2 * 2.
Proof.
  apply (written_file_reads_back false rint_nearest_even rint_nearest_even
           [f32_0_5; f32_0_9; f32_infinity; f32_0_1] 2 2 16000 16);
    try (vm_compute; congruence); try lia;
    try (vm_compute; split; congruence); try (right; left; reflexivity).
Defined.

(** X24. At 32 bits a sample at or above full scale comes out with its sign
    turned: the product with 2147483647.0 is rounded to [float] on its way
    into [llrintf], which gives 2^31; the conversion to [int32_t] keeps the
    low 32 bits, the bytes of -2^31, and the reader decodes them as -1. *)
Theorem full_scale_wraps_at_32_bits lrintf llrintf v :
  llrintf (S754_finite false 8388608 8) = 2147483648 ->
  f32_gt v f32_one = true \/ v = f32_one ->
  Wav.encode_sample lrintf llrintf 32 (Wav.clamp_sample v) = Some [0; 0; 0; 128] /\
  Wav.decode_32 [0; 0; 0; 128] = Wav.f32_minus_one.
Proof.
  intros Hll Hv.
  assert (Hc : Wav.clamp_sample v = f32_one).
  { unfold Wav.clamp_sample. destruct Hv as [Hv| ->]; [now rewrite Hv|reflexivity]. }
  rewrite Hc. unfold Wav.encode_sample. cbn [Z.eqb Pos.eqb].
  replace (Wav.f32_of_double (Wav.f64_mul f32_one Wav.f64_2147483647))
    with (S754_finite false 8388608 8) by (vm_compute; reflexivity).
  rewrite Hll. split; vm_compute; reflexivity.
Qed.

Lemma full_scale_wraps_at_32_bits_witness :
  Wav.encode_sample rint_nearest_even rint_nearest_even 32
    (Wav.clamp_sample f32_infinity) = Some [0; 0; 0; 128] /\
  Wav.decode_32 [0; 0; 0; 128] = Wav.f32_minus_one.
Proof.
  apply full_scale_wraps_at_32_bits; [vm_compute; reflexivity|].
  left. vm_compute. reflexivity.
Defined.

(** * Saving a segment *)

Lemma decimal_digits_bound fuel n : 1 <= Main.decimal_digits fuel n <= 1 + Z.of_nat fuel.
Proof.
  revert n. induction fuel as [|fuel IH]; intros n.
  - simpl. lia.
  - cbn [Main.decimal_digits]. destruct (n <? 10); [lia|].
    specialize (IH (n / 10)). lia.
Qed.

Lemma filename_fits directory_length index :
  0 <= directory_length <= 93 ->
  (Main.filename_length directory_length index <=? 0)
  || (Main.filename_length directory_length index >=? 128) = false.
Proof.
  intros Hd. unfold Main.filename_length.
  pose proof (decimal_digits_bound 20 index) as Hb.
  change (Z.of_nat 20) with 20 in Hb.
  apply orb_false_iff. split; [apply Z.leb_gt; lia|].
  rewrite Z.geb_leb. apply Z.leb_gt. lia.
Qed.

Lemma reader_ok_bounds reader :
  Wav.reader_ok reader ->
  1 <= Wav.r_bits_per_sample reader / 8 <= 4 /\
  0 <= Wav.r_num_samples reader <= Wav.UINT32_MAX /\
  Wav.r_num_samples reader * Wav.r_num_channel reader
  <= Z.of_nat (List.length (Wav.r_data reader)).
Proof.
  intros (Hch & Hbits & Hn & Hsz & _).
  assert (HB : 1 <= Wav.r_bits_per_sample reader / 8 <= 4)
    by (destruct Hbits as [->|[->| ->]]; cbv; split; congruence).
  unfold Wav.UINT32_MAX, Wav.UINT16_MAX in *.
  assert (0 <= Z.of_nat (List.length (Wav.r_data reader)) / Wav.r_num_channel reader)
    by (apply Z.div_pos; lia).
  assert (Z.of_nat (List.length (Wav.r_data reader)) / Wav.r_num_channel reader
          * Wav.r_num_channel reader <= Z.of_nat (List.length (Wav.r_data reader)))
    by (rewrite Z.mul_comm; apply Z.mul_div_le; lia).
  rewrite Hn. split; [exact HB|]. split; [nia|lia].
Qed.

(** What [write_segment] hands to the writer once its checks have passed:
    the frames from [start] to the smaller of [end] and [num_samples]. *)
Lemma write_segment_passes lrintf llrintf reader ts index directory_length :
  Wav.reader_ok reader ->
  0 <= start ts < Wav.r_num_samples reader ->
  start ts < end_ ts <= INT_MAX ->
  0 <= directory_length <= 93 ->
  Main.write_segment lrintf llrintf reader ts index directory_length
  = Wav.wav_writer_write lrintf llrintf
      (Wav.mk_writer
         (skipn (Z.to_nat (start ts * Wav.r_num_channel reader)) (Wav.r_data reader))
         (Z.min (end_ ts) (Wav.r_num_samples reader) - start ts)
         (Wav.r_num_channel reader) (Wav.r_sample_rate reader)
         (Wav.r_bits_per_sample reader)).
Proof.
  intros Hok Hs He Hd.
  destruct (reader_ok_bounds reader Hok) as (HB & Hn & Hlen).
  destruct Hok as (Hch & _).
  unfold Wav.UINT32_MAX, Wav.UINT16_MAX, INT_MAX in *.
  unfold Main.write_segment.
  replace (start ts <? 0) with false by (symmetry; apply Z.ltb_ge; lia).
  replace (end_ ts <=? start ts) with false by (symmetry; apply Z.leb_gt; lia).
  cbn [orb].
  rewrite (to_size_id (start ts)) by (unfold SIZE_MAX; lia).
  rewrite (to_size_id (end_ ts)) by (unfold SIZE_MAX; lia).
  rewrite (to_size_id (Wav.r_num_channel reader)) by (unfold SIZE_MAX; lia).
  replace (start ts >=? Wav.r_num_samples reader) with false
    by (symmetry; rewrite Z.geb_leb; apply Z.leb_gt; lia).
  replace (if end_ ts >? Wav.r_num_samples reader
           then Wav.r_num_samples reader else end_ ts)
    with (Z.min (end_ ts) (Wav.r_num_samples reader))
    by (destruct (Z.gtb_spec (end_ ts) (Wav.r_num_samples reader)); lia).
  set (frames := Z.min (end_ ts) (Wav.r_num_samples reader) - start ts).
  assert (Hf : 0 < frames <= Wav.r_num_samples reader) by (unfold frames; lia).
  rewrite (to_size_id frames) by (unfold SIZE_MAX; lia).
  replace (frames =? 0) with false by (symmetry; apply Z.eqb_neq; lia).
  rewrite ckd_mul_fits by (unfold SIZE_MAX; nia).
  rewrite (to_size_id (start ts * Wav.r_num_channel reader)) by (unfold SIZE_MAX; nia).
  rewrite filename_fits by assumption.
  reflexivity.
Qed.

(** X25. For a reader as [wav_reader_open] leaves it and a segment with
    [int] bounds, [write_segment] never reads outside the reader's buffer,
    whatever the segment, the index and the directory are. *)
Theorem write_segment_in_bounds lrintf llrintf reader ts index directory_length :
  Wav.reader_ok reader ->
  start ts <= INT_MAX -> end_ ts <= INT_MAX ->
  Main.write_segment lrintf llrintf reader ts index directory_length
  <> Wav.Undefined.
Proof.
  intros Hok Hs He.
  destruct (reader_ok_bounds reader Hok) as (HB & Hn & Hlen).
  pose proof Hok as (Hch & _).
  unfold Wav.UINT32_MAX, Wav.UINT16_MAX, INT_MAX in *.
  unfold Main.write_segment.
  destruct (Z.ltb_spec (start ts) 0); [discriminate|].
  destruct (Z.leb_spec (end_ ts) (start ts)); [discriminate|].
  cbn [orb].
  rewrite (to_size_id (start ts)) by (unfold SIZE_MAX; lia).
  rewrite (to_size_id (end_ ts)) by (unfold SIZE_MAX; lia).
  rewrite (to_size_id (Wav.r_num_channel reader)) by (unfold SIZE_MAX; lia).
  destruct (Z.geb_spec (start ts) (Wav.r_num_samples reader)); [discriminate|].
  replace (if end_ ts >? Wav.r_num_samples reader
           then Wav.r_num_samples reader else end_ ts)
    with (Z.min (end_ ts) (Wav.r_num_samples reader))
    by (destruct (Z.gtb_spec (end_ ts) (Wav.r_num_samples reader)); lia).
  set (frames := Z.min (end_ ts) (Wav.r_num_samples reader) - start ts).
  assert (Hf : 0 < frames <= Wav.r_num_samples reader) by (unfold frames; lia).
  rewrite (to_size_id frames) by (unfold SIZE_MAX; lia).
  replace (frames =? 0) with false by (symmetry; apply Z.eqb_neq; lia).
  rewrite ckd_mul_fits by (unfold SIZE_MAX; nia).
  rewrite (to_size_id (start ts * Wav.r_num_channel reader)) by (unfold SIZE_MAX; nia).
  destruct (_ || _); [discriminate|].
  apply writer_in_bounds.
  cbn [Wav.w_num_samples Wav.w_num_channel Wav.w_data].
  rewrite length_skipn. unfold frames. nia.
Qed.

Lemma write_segment_in_bounds_witness :
  Main.write_segment rint_nearest_even rint_nearest_even
    (Wav.mk_reader 1 16000 16 3 [f32_0_5; f32_0_9; f32_0_1] true)
    (mk_timestamp 1 9) 0 5 <> Wav.Undefined.
Proof.
  apply write_segment_in_bounds.
  - unfold Wav.reader_ok. vm_compute. intuition congruence.
  - vm_compute. congruence.
  - vm_compute. congruence.
Defined.

Lemma write_segment_whole lrintf llrintf reader ts index directory_length :
  Wav.reader_ok reader -> 0 < Wav.r_sample_rate reader ->
  0 <= start ts < Wav.r_num_samples reader ->
  start ts < end_ ts <= INT_MAX ->
  0 <= directory_length <= 93 ->
  (Z.min (end_ ts) (Wav.r_num_samples reader) - start ts)
  * Wav.r_num_channel reader * (Wav.r_bits_per_sample reader / 8) + 36
  <= Wav.UINT32_MAX ->
  Wav.r_sample_rate reader * Wav.r_num_channel reader
  * (Wav.r_bits_per_sample reader / 8) <= Wav.UINT32_MAX ->
  Wav.r_num_channel reader * (Wav.r_bits_per_sample reader / 8)
  <= Wav.UINT16_MAX ->
  Main.write_segment lrintf llrintf reader ts index directory_length
  = Wav.Wrote true
      (Wav.header_bytes
         (Wav.expected_header
            (Z.min (end_ ts) (Wav.r_num_samples reader) - start ts)
            (Wav.r_num_channel reader) (Wav.r_sample_rate reader)
            (Wav.r_bits_per_sample reader))
       ++ Wav.sample_bytes lrintf llrintf (Wav.r_bits_per_sample reader)
            (Main.segment_samples reader ts)) /\
  Z.of_nat (List.length (Main.segment_samples reader ts))
  = (Z.min (end_ ts) (Wav.r_num_samples reader) - start ts)
    * Wav.r_num_channel reader.
Proof.
  intros Hok Hrate Hs He Hd Hsz Hbps Hblock.
  rewrite write_segment_passes by assumption.
  destruct (reader_ok_bounds reader Hok) as (HB & Hn & Hlen).
  pose proof Hok as (Hch & Hbits & _).
  assert (Hfit : (Z.min (end_ ts) (Wav.r_num_samples reader) - start ts)
                 * Wav.r_num_channel reader
                 <= Z.of_nat (List.length
                      (skipn (Z.to_nat (start ts * Wav.r_num_channel reader))
                             (Wav.r_data reader))))
    by (rewrite length_skipn; nia).
  split.
  - rewrite writer_whole_file_bytes by (assumption || lia). reflexivity.
  - assert (0 <= (Z.min (end_ ts) (Wav.r_num_samples reader) - start ts)
                 * Wav.r_num_channel reader) by nia.
    unfold Main.segment_samples. rewrite length_firstn. lia.
Qed.



(** X27. From the engine to the files: when the reader holds at most
    [INT_MAX] samples and the sizes of the whole input fit a header, every
    segment that [vad_iterator_process] emits on the reader's samples is
    accepted by [write_segment] and saved whole: the file is the header for
    [end - start] frames followed by the bytes of the samples of the frames
    [start] to [end - 1] of the reader's buffer, nothing clamped and
    nothing cut off. *)
Theorem detected_segments_are_saved lrintf llrintf speech_prob fuel vad reader
        directory_length :
  Wav.reader_ok reader -> 0 < Wav.r_sample_rate reader ->
  0 < window_size_samples vad <= INT_MAX ->
  Wav.r_num_samples reader <= INT_MAX ->
  Wav.r_num_samples reader / window_size_samples vad < Z.of_nat fuel ->
  0 <= directory_length <= 93 ->
  Wav.r_num_samples reader * Wav.r_num_channel reader
  * (Wav.r_bits_per_sample reader / 8) + 36 <= Wav.UINT32_MAX ->
  Wav.r_sample_rate reader * Wav.r_num_channel reader
  * (Wav.r_bits_per_sample reader / 8) <= Wav.UINT32_MAX ->
  Wav.r_num_channel reader * (Wav.r_bits_per_sample reader / 8)
  <= Wav.UINT16_MAX ->
  exists vad',
    Lib.vad_iterator_process speech_prob fuel vad (Wav.r_num_samples reader)
    = Some vad' /\
    Forall (fun ts =>
              forall index,
                Main.write_segment lrintf llrintf reader ts index directory_length
                = Wav.Wrote true
                    (Wav.header_bytes
                       (Wav.expected_header (end_ ts - start ts)
                          (Wav.r_num_channel reader) (Wav.r_sample_rate reader)
                          (Wav.r_bits_per_sample reader))
                     ++ Wav.sample_bytes lrintf llrintf
                          (Wav.r_bits_per_sample reader)
                          (firstn (Z.to_nat ((end_ ts - start ts)
                                             * Wav.r_num_channel reader))
                             (skipn (Z.to_nat (start ts * Wav.r_num_channel reader))
                                (Wav.r_data reader)))) /\
                Z.of_nat (List.length
                  (firstn (Z.to_nat ((end_ ts - start ts)
                                     * Wav.r_num_channel reader))
                     (skipn (Z.to_nat (start ts * Wav.r_num_channel reader))
                        (Wav.r_data reader))))
                = (end_ ts - start ts) * Wav.r_num_channel reader)
           (speeches vad').
Proof.
  intros Hok Hrate Hw HL Hfuel Hd Hsz Hbps Hblock.
  destruct (reader_ok_bounds reader Hok) as (HB & Hn & Hlen).
  pose proof Hok as (Hch & _).
  destruct (process_segments speech_prob fuel vad (Wav.r_num_samples reader)
              Hw ltac:(lia) Hfuel) as (vad' & Hrun & Hseg & _ & Hend).
  exists vad'. split; [exact Hrun|].
  rewrite Forall_forall in *. intros ts Hin index.
  destruct (Hseg ts Hin) as (Hs0 & Hse & _). specialize (Hend ts Hin).
  replace (end_ ts - start ts)
    with (Z.min (end_ ts) (Wav.r_num_samples reader) - start ts) by lia.
  apply write_segment_whole; try assumption; try lia.
  unfold Wav.UINT32_MAX, Wav.UINT16_MAX in *. nia.
Qed.

Lemma detected_segments_are_saved_witness :
  let reader :=
    Wav.mk_reader 1 16000 16 10300
      (repeat f32_0_9 5120 ++ repeat f32_0_1 5180) true in
  segments_of (Lib.vad_iterator_process speech_then_silence 21 default_vad 10300)
  = [(0, 5632)] /\
  exists vad',
    Lib.vad_iterator_process speech_then_silence 21 default_vad
      (Wav.r_num_samples reader) = Some vad' /\
    Forall (fun ts =>
              forall index,
                Main.write_segment rint_nearest_even rint_nearest_even
                  reader ts index 5
                = Wav.Wrote true
                    (Wav.header_bytes
                       (Wav.expected_header (end_ ts - start ts) 1 16000 16)
                     ++ Wav.sample_bytes rint_nearest_even rint_nearest_even 16
                          (firstn (Z.to_nat ((end_ ts - start ts) * 1))
                             (skipn (Z.to_nat (start ts * 1))
                                (repeat f32_0_9 5120 ++ repeat f32_0_1 5180)))) /\
                Z.of_nat (List.length
                  (firstn (Z.to_nat ((end_ ts - start ts) * 1))
                     (skipn (Z.to_nat (start ts * 1))
                        (repeat f32_0_9 5120 ++ repeat f32_0_1 5180))))
                = (end_ ts - start ts) * 1)
           (speeches vad').
Proof.
  cbv zeta. split; [vm_compute; reflexivity|].
  apply (detected_segments_are_saved rint_nearest_even rint_nearest_even
           speech_then_silence 21 default_vad
           (Wav.mk_reader 1 16000 16 10300
              (repeat f32_0_9 5120 ++ repeat f32_0_1 5180) true) 5).
  - unfold Wav.reader_ok.
    cbn [Wav.r_num_channel Wav.r_bits_per_sample Wav.r_num_samples Wav.r_data
         Wav.r_loaded].
    rewrite length_app, !repeat_length. vm_compute. intuition congruence.
  - reflexivity.
  - vm_compute. split; [reflexivity|discriminate].
  - vm_compute. discriminate.
  - vm_compute. reflexivity.
  - lia.
  - vm_compute. discriminate.
  - vm_compute. discriminate.
  - vm_compute. discriminate.
Defined.

(** * What the reader does not look at *)

Lemma skipn_behind_prefix (p rest : list Z) n :
  (List.length p <= n)%nat -> skipn n (p ++ rest) = skipn (n - List.length p) rest.
Proof.
  intros Hn. rewrite skipn_app, (skipn_all2 p) by exact Hn. reflexivity.
Qed.

Lemma slice_behind_prefix (p q rest : list Z) off n :
  List.length p = List.length q -> (List.length p <= off)%nat ->
  Wav.slice (p ++ rest) off n = Wav.slice (q ++ rest) off n.
Proof.
  intros Hpq Hoff. unfold Wav.slice.
  rewrite !skipn_behind_prefix by lia. now rewrite Hpq.
Qed.

Lemma read_at_behind_prefix (p q rest : list Z) pos n :
  List.length p = List.length q -> Z.of_nat (List.length p) <= pos ->
  Wav.read_at (p ++ rest) pos n = Wav.read_at (q ++ rest) pos n.
Proof.
  intros Hpq Hpos. unfold Wav.read_at.
  rewrite !length_app, Hpq.
  rewrite (slice_behind_prefix p q rest) by lia. reflexivity.
Qed.

Lemma read_at_short file pos n :
  Z.of_nat (List.length file) < pos + n -> Wav.read_at file pos n = None.
Proof.
  intros H. unfold Wav.read_at. apply Z.leb_gt in H. rewrite H.
  now rewrite andb_false_r.
Qed.

Lemma header_slice_behind_prefix (p q rest : list Z) off n :
  List.length p = List.length q -> (List.length p <= off)%nat ->
  Wav.slice (Wav.slice (p ++ rest) 0 44) off n
  = Wav.slice (Wav.slice (q ++ rest) 0 44) off n.
Proof.
  intros Hpq Hoff. unfold Wav.slice.
  change (skipn 0 (p ++ rest)) with (p ++ rest).
  change (skipn 0 (q ++ rest)) with (q ++ rest).
  rewrite !skipn_firstn_comm, !skipn_behind_prefix by lia. now rewrite Hpq.
Qed.

Lemma find_data_chunk_behind_prefix fuel (p q rest : list Z) pos :
  Wav.bytes_ok (p ++ rest) ->
  List.length p = List.length q -> Z.of_nat (List.length p) <= pos ->
  Wav.find_data_chunk fuel (p ++ rest) pos = Wav.find_data_chunk fuel (q ++ rest) pos.
Proof.
  intros Hb Hpq. revert pos. induction fuel as [|fuel IH]; intros pos Hpos;
    [reflexivity|].
  cbn [Wav.find_data_chunk].
  rewrite <- (read_at_behind_prefix p q rest) by assumption.
  destruct (Wav.read_at (p ++ rest) pos 8) as [hdr|] eqn:Er; [|reflexivity].
  destruct (list_eq_dec Z.eq_dec _ _); [reflexivity|].
  apply IH.
  apply read_at_some in Er as (_ & _ & -> & _); [|lia].
  assert (0 <= Wav.le_value (skipn 4 (Wav.slice (p ++ rest) (Z.to_nat pos) (Z.to_nat 8))))
    by (apply le_value_bound; now apply bytes_ok_skipn, slice_bytes).
  lia.
Qed.

Lemma reader_behind_prefix fused (p q rest : list Z) :
  Wav.bytes_ok (p ++ rest) ->
  List.length p = 16%nat -> List.length q = 16%nat ->
  Wav.wav_reader_open fused (p ++ rest) = Wav.wav_reader_open fused (q ++ rest).
Proof.
  intros Hb Hp Hq.
  assert (Hpq : List.length p = List.length q) by congruence.
  assert (Hlen : List.length (p ++ rest) = List.length (q ++ rest))
    by (rewrite !length_app; lia).
  unfold Wav.wav_reader_open.
  rewrite <- Hlen.
  destruct (Z.le_gt_cases 44 (Z.of_nat (List.length (p ++ rest)))) as [H44|H44].
  2: { rewrite !read_at_short by lia. reflexivity. }
  rewrite (read_at_fits (p ++ rest) 0 44), (read_at_fits (q ++ rest) 0 44) by lia.
  change (Z.to_nat 0) with 0%nat. change (Z.to_nat 44) with 44%nat.
  unfold Wav.header_of_bytes.
  cbn [Wav.fmt_size Wav.format Wav.channels Wav.sample_rate Wav.bit].
  rewrite <- !(header_slice_behind_prefix p q rest) by lia.
  set (fs := Wav.le_value (Wav.slice (Wav.slice (p ++ rest) 0 44) 16 4)).
  assert (Hfs : 0 <= fs).
  { apply le_value_bound. now apply slice_bytes, slice_bytes. }
  destruct (Z.ltb_spec fs 16); [reflexivity|].
  rewrite <- (read_at_behind_prefix p q rest) by lia.
  destruct (_ && _); [reflexivity|].
  rewrite <- (find_data_chunk_behind_prefix _ p q rest) by (assumption || lia).
  destruct (Wav.find_data_chunk _ (p ++ rest) _) as [[[pos cs]|]|] eqn:Ef;
    try reflexivity.
  apply find_data_chunk_found in Ef as (_ & Hpos & _); [|assumption].
  rewrite <- (read_at_behind_prefix p q rest) by lia.
  reflexivity.
Qed.

(** X28. [wav_reader_open] never looks at the first sixteen bytes of the
    file, the "RIFF" tag, the RIFF size, the "WAVE" tag and the "fmt " tag:
    with any sixteen bytes in their place the outcome is the same. *)
Theorem reader_ignores_leading_tags fused file prefix :
  Wav.bytes_ok file -> List.length prefix = 16%nat ->
  (16 <= List.length file)%nat ->
  Wav.wav_reader_open fused (prefix ++ skipn 16 file) = Wav.wav_reader_open fused file.
Proof.
  intros Hb Hp Hl.
  rewrite <- (firstn_skipn 16 file) at 2.
  symmetry. apply reader_behind_prefix.
  - now rewrite firstn_skipn.
  - rewrite length_firstn. lia.
  - exact Hp.
Qed.

Lemma reader_ignores_leading_tags_witness :
  Wav.wav_reader_open false
    ([0; 0; 0; 0; 0; 0; 0; 0; 0; 0; 0; 0; 0; 0; 0; 0]
     ++ skipn 16
          [82; 73; 70; 70; 42; 0; 0; 0; 87; 65; 86; 69; 102; 109; 116; 32; 16;
           0; 0; 0; 1; 0; 1; 0; 128; 62; 0; 0; 0; 125; 0; 0; 2; 0; 16; 0; 100;
           97; 116; 97; 6; 0; 0; 0; 0; 64; 50; 115; 1; 128])
  = Wav.wav_reader_open false
      [82; 73; 70; 70; 42; 0; 0; 0; 87; 65; 86; 69; 102; 109; 116; 32; 16;
       0; 0; 0; 1; 0; 1; 0; 128; 62; 0; 0; 0; 125; 0; 0; 2; 0; 16; 0; 100;
       97; 116; 97; 6; 0; 0; 0; 0; 64; 50; 115; 1; 128].
Proof.
  apply (reader_ignores_leading_tags false).
  - repeat constructor; lia.
  - reflexivity.
  - simpl. lia.
Defined.

(** * The sample buffers around the classifier *)

Lemma vad_predict_sizes vad p :
  Buffers.sizes (vad_predict vad p) = Buffers.sizes vad.
Proof.
  destruct_vad vad.
  remember (vad_predict _ p) as v eqn:Hv.
  predict_unfold_in Hv. split_tests_in Hv.
  all: subst v; reflexivity.
Qed.


Lemma predict_n_sizes speech_prob n :
  forall vad k,
  Buffers.sizes (predict_n speech_prob vad k n) = Buffers.sizes vad.
Proof.
  induction n as [|n IH]; intros vad k; cbn [predict_n]; [reflexivity|].
  rewrite IH. apply vad_predict_sizes.
Qed.

Lemma sizes_fields a b :
  Buffers.sizes a = Buffers.sizes b ->
  window_size_samples a = window_size_samples b /\
  context_samples a = context_samples b /\
  effective_window_size a = effective_window_size b /\
  size_state a = size_state b /\
  sample_rate a = sample_rate b /\
  threshold a = threshold b.
Proof. unfold Buffers.sizes. intros [= -> -> -> -> -> ->]. repeat split. Qed.

Lemma memcpy_some dst doff src soff n :
  0 <= doff -> 0 <= soff -> 0 <= n ->
  doff + n <= Z.of_nat (List.length dst) ->
  soff + n <= Z.of_nat (List.length src) ->
  Buffers.memcpy dst doff src soff n
  = Some (firstn (Z.to_nat doff) dst
          ++ firstn (Z.to_nat n) (skipn (Z.to_nat soff) src)
          ++ skipn (Z.to_nat (doff + n)) dst).
Proof.
  intros H1 H2 H3 H4 H5. unfold Buffers.memcpy.
  apply Z.leb_le in H1, H2, H3, H4, H5. now rewrite H1, H2, H3, H4, H5.
Qed.



(** One call of [vad_predict] on blocks of the right sizes. *)
Lemma buffers_step run vad0 vad bufs input_wav j :
  Buffers.sizes vad = Buffers.sizes vad0 ->
  Buffers.buffers_ok vad0 bufs ->
  0 <= j -> j + window_size_samples vad0 <= Z.of_nat (List.length input_wav) ->
  (forall t s r, size_state vad0 <= Z.of_nat (List.length (snd (run t s r)))) ->
  let tensor :=
    Buffers.context bufs
    ++ firstn (Z.to_nat (window_size_samples vad0)) (skipn (Z.to_nat j) input_wav) in
  let speech_prob := fst (run tensor (Buffers.state bufs) (sample_rate vad0)) in
  let stateN := snd (run tensor (Buffers.state bufs) (sample_rate vad0)) in
  Buffers.vad_predict run vad bufs input_wav j
  = Some (vad_predict vad speech_prob,
          Buffers.mk_buffers
            (if Buffers.takes_branch vad speech_prob
             then Buffers.lastn (Z.to_nat (context_samples vad0)) tensor
             else Buffers.context bufs)
            (firstn (Z.to_nat (size_state vad0)) stateN)
            tensor).
Proof.
  intros Hs Hok Hj Hin Hrun tensor speech_prob stateN.
  destruct (sizes_fields _ _ Hs) as (Hw & Hc & He & Hss & Hsr & _).
  destruct Hok as (Hwpos & Hcpos & Hspos & Heff & Hmax & Hlc & Hls & Hli).
  unfold Buffers.vad_predict. rewrite Hw, Hc, He, Hss, Hsr.
  rewrite memcpy_some by lia.
  change (Z.to_nat 0) with 0%nat. cbn [firstn skipn app].
  rewrite Z.add_0_l.
  rewrite (firstn_all2 (n := Z.to_nat (context_samples vad0)) (Buffers.context bufs)) by lia.
  rewrite memcpy_some; try lia.
  2: { rewrite length_app, length_skipn. lia. }
  rewrite firstn_app.
  rewrite (firstn_all2 (n := Z.to_nat (context_samples vad0)) (Buffers.context bufs)) by lia.
  replace (Z.to_nat (context_samples vad0) - List.length (Buffers.context bufs))%nat
    with 0%nat by lia.
  cbn [firstn]. rewrite app_nil_r.
  rewrite (skipn_all2 (n := Z.to_nat (context_samples vad0 + window_size_samples vad0)))
    by (rewrite length_app, length_skipn; lia).
  rewrite app_nil_r. fold tensor.
  assert (Htl : Z.of_nat (List.length tensor) = effective_window_size vad0).
  { unfold tensor. rewrite length_app, length_firstn, length_skipn. lia. }
  replace (Z.of_nat (List.length tensor) <? effective_window_size vad0) with false
    by (symmetry; apply Z.ltb_ge; lia).
  replace (effective_window_size vad0 <? 0) with false
    by (symmetry; apply Z.ltb_ge; lia).
  replace (Z.of_nat (List.length (Buffers.state bufs)) <? size_state vad0) with false
    by (symmetry; apply Z.ltb_ge; lia).
  replace (size_state vad0 <? 0) with false by (symmetry; apply Z.ltb_ge; lia).
  cbn [orb].
  rewrite (firstn_all2 (n := Z.to_nat (effective_window_size vad0)) tensor) by lia.
  rewrite (firstn_all2 (n := Z.to_nat (size_state vad0)) (Buffers.state bufs)) by lia.
  subst speech_prob stateN.
  destruct (run tensor (Buffers.state bufs) (sample_rate vad0)) as [p stN] eqn:Erun.
  cbn [fst snd].
  pose proof (Hrun tensor (Buffers.state bufs) (sample_rate vad0)) as Hst.
  rewrite Erun in Hst. cbn [snd] in Hst.
  rewrite memcpy_some by lia.
  change (Z.to_nat 0) with 0%nat. cbn [firstn skipn app]. rewrite Z.add_0_l.
  rewrite (skipn_all2 (n := Z.to_nat (size_state vad0)) (Buffers.state bufs)) by lia.
  rewrite app_nil_r.
  destruct (Buffers.takes_branch vad p); [|reflexivity].
  rewrite int_sub_id by (unfold INT_MIN; lia).
  rewrite memcpy_some by lia.
  change (Z.to_nat 0) with 0%nat. cbn [firstn app]. rewrite Z.add_0_l.
  rewrite (skipn_all2 (n := Z.to_nat (context_samples vad0)) (Buffers.context bufs)) by lia.
  rewrite app_nil_r.
  rewrite firstn_all2 by (rewrite length_skipn; lia).
  unfold Buffers.lastn.
  replace (List.length tensor - Z.to_nat (context_samples vad0))%nat
    with (Z.to_nat (effective_window_size vad0 - context_samples vad0)) by lia.
  reflexivity.
Qed.












(** X30. When the classifier answers NaN and the duration cap does not
    fire, [vad_predict] runs off its end without the copy that refreshes
    [context]: the window has been consumed (the cursor has advanced, the
    recurrent state is the new one, [input_buffer] holds the window) but
    [context] still holds the samples from before it, so the next call
    presents the classifier with a context that does not precede its
    window. *)
Theorem nan_leaves_context_stale run vad bufs input_wav j :
  Buffers.buffers_ok vad bufs ->
  0 <= j -> j + window_size_samples vad <= Z.of_nat (List.length input_wav) ->
  (forall t s r, size_state vad <= Z.of_nat (List.length (snd (run t s r)))) ->
  fst (run (Buffers.context bufs
            ++ firstn (Z.to_nat (window_size_samples vad))
                 (skipn (Z.to_nat j) input_wav))
           (Buffers.state bufs) (sample_rate vad)) = S754_nan ->
  triggered vad
  && f32_gt (f32_of_int
               (to_int (uint_sub (uint_add (current_sample vad)
                                           (window_size_samples vad))
                                 (start (current_speech vad)))))
            (max_speech_samples vad) = false ->
  exists vad' bufs',
    Buffers.vad_predict run vad bufs input_wav j = Some (vad', bufs') /\
    Buffers.context bufs' = Buffers.context bufs /\
    Buffers.input_buffer bufs'
    = Buffers.context bufs
      ++ firstn (Z.to_nat (window_size_samples vad)) (skipn (Z.to_nat j) input_wav) /\
    Buffers.state bufs'
    = firstn (Z.to_nat (size_state vad))
        (snd (run (Buffers.context bufs
                   ++ firstn (Z.to_nat (window_size_samples vad))
                        (skipn (Z.to_nat j) input_wav))
                  (Buffers.state bufs) (sample_rate vad))) /\
    current_sample vad'
    = uint_add (current_sample vad) (window_size_samples vad).
Proof.
  intros Hok Hj Hin Hrun Hnan Hcap.
  pose proof (buffers_step run vad vad bufs input_wav j eq_refl Hok Hj Hin Hrun)
    as Hstep.
  cbv zeta in Hstep.
  destruct (run (Buffers.context bufs
                 ++ firstn (Z.to_nat (window_size_samples vad))
                      (skipn (Z.to_nat j) input_wav))
                (Buffers.state bufs) (sample_rate vad)) as [p stateN].
  cbn [fst snd] in *. subst p.
  assert (Hbr : Buffers.takes_branch vad S754_nan = false).
  { destruct (f32_nan_compare (threshold vad)) as (H1 & _ & H2 & _).
    destruct (f32_nan_compare (f32_sub (threshold vad) f32_0_15)) as (H3 & _ & H4 & _).
    destruct_vad vad. unfold Buffers.takes_branch.
    cbn [threshold set_current_sample triggered current_sample current_speech
         max_speech_samples window_size_samples start] in *.
    rewrite H1, H2, H3, H4, Hcap. reflexivity. }
  rewrite Hbr in Hstep. rewrite Hstep.
  eexists. eexists. split; [reflexivity|].
  cbn [Buffers.context Buffers.state Buffers.input_buffer].
  repeat split. apply vad_predict_cursor.
Qed.

Lemma nan_leaves_context_stale_witness :
  exists vad' bufs',
    Buffers.vad_predict (fun _ _ _ => (S754_nan, Buffers.zeros 256))
      default_vad
      (Buffers.mk_buffers (Buffers.zeros 64) (Buffers.zeros 256) (Buffers.zeros 576))
      (repeat f32_0_9 600) 0
    = Some (vad', bufs') /\
    Buffers.context bufs' = Buffers.zeros 64 /\
    Buffers.input_buffer bufs'
    = Buffers.zeros 64
      ++ firstn (Z.to_nat (window_size_samples default_vad))
           (skipn (Z.to_nat 0) (repeat f32_0_9 600)) /\
    Buffers.state bufs'
    = firstn (Z.to_nat (size_state default_vad)) (Buffers.zeros 256) /\
    current_sample vad'
    = uint_add (current_sample default_vad) (window_size_samples default_vad).
Proof.
  apply (nan_leaves_context_stale (fun _ _ _ => (S754_nan, Buffers.zeros 256))
           default_vad
           (Buffers.mk_buffers (Buffers.zeros 64) (Buffers.zeros 256)
              (Buffers.zeros 576))
           (repeat f32_0_9 600) 0).
  - vm_compute. intuition congruence.
  - lia.
  - vm_compute. congruence.
  - intros t s r. vm_compute. congruence.
  - reflexivity.
  - reflexivity.
Defined.
